(** * lnexun-recovery: the consolidation and export pipeline

    A shallow embedding of [post2017/fetch_posts.js] (extraction),
    the consolidation script (normaliser, grouping key, merge, statistics)
    and the WXR export script (escaping, identity resolver, serializer),
    with the properties of the design document checked against it.

    Conventions.
    - A JavaScript string is the sequence of its code units; the model
      covers code units below 256 (Latin-1), one [ascii] per unit.
    - [undefined]/[null] is [None]; a value is falsy when it is [None],
      the empty string or the number zero.
    - Integers are exact ([Z]); JavaScript agrees below 2^53.
    - Readings of the clock and of the random generator are inputs of
      the run, gathered in an environment record. *)

From Stdlib Require Import ZArith NArith List String Ascii Bool Lia Arith.
From Stdlib Require Import Numbers.DecimalString.
From Stdlib Require Import Permutation Sorted.
From Stdlib Require Import DecimalPos DecimalZ.
Import ListNotations.
Local Open Scope string_scope.

(** ** JavaScript strings *)

Module Js.

Definition code (c : ascii) : N := N_of_ascii c.

Definition in_range (lo hi : N) (c : ascii) : bool :=
  ((lo <=? code c) && (code c <=? hi))%N.

Definition is_digit : ascii -> bool := in_range 48 57.
Definition is_upper : ascii -> bool := in_range 65 90.
Definition is_lower : ascii -> bool := in_range 97 122.

(** The class [[a-zA-Z_]]. *)
Definition is_alpha_us (c : ascii) : bool :=
  is_upper c || is_lower c || (code c =? 95)%N.

(** The class [\w]. *)
Definition is_word (c : ascii) : bool := is_alpha_us c || is_digit c.

(** The class [\s], which is also what [trim] strips: TAB, LF, VT, FF, CR,
    space and the no-break space. *)
Definition is_space (c : ascii) : bool :=
  in_range 9 13 c || (code c =? 32)%N || (code c =? 160)%N.

Definition dq : string := String (ascii_of_nat 34) EmptyString.
Definition nl : string := String (ascii_of_nat 10) EmptyString.
Definition tab : string := String (ascii_of_nat 9) EmptyString.

(** [String.prototype.toLowerCase] on Latin-1: A-Z and the accented capitals
    U+00C0..U+00DE (the multiplication sign U+00D7 apart) move up by 32. *)
Definition lower_char (c : ascii) : ascii :=
  if is_upper c || (in_range 192 222 c && negb (code c =? 215)%N)
  then ascii_of_N (code c + 32) else c.

Fixpoint map_chars (f : ascii -> ascii) (s : string) : string :=
  match s with
  | EmptyString => EmptyString
  | String c t => String (f c) (map_chars f t)
  end.

Definition toLowerCase : string -> string := map_chars lower_char.

Fixpoint filter_chars (p : ascii -> bool) (s : string) : string :=
  match s with
  | EmptyString => EmptyString
  | String c t => if p c then String c (filter_chars p t) else filter_chars p t
  end.

Definition is_empty (s : string) : bool :=
  match s with EmptyString => true | _ => false end.

Fixpoint trimStart (s : string) : string :=
  match s with
  | String c t => if is_space c then trimStart t else s
  | EmptyString => EmptyString
  end.

Fixpoint trimEnd (s : string) : string :=
  match s with
  | EmptyString => EmptyString
  | String c t =>
      let t' := trimEnd t in
      if is_space c && is_empty t' then EmptyString else String c t'
  end.

Definition trim (s : string) : string := trimEnd (trimStart s).

(** [s.split(/\s+/)], as its first piece and the remaining ones: pieces are
    separated by maximal runs of white space, and a leading or a trailing run
    leaves an empty piece. *)
Fixpoint split_ws_aux (s : string) : string * list string :=
  match s with
  | EmptyString => (EmptyString, [])
  | String c t =>
      let (w, ws) := split_ws_aux t in
      if is_space c then
        match t with
        | String d _ => if is_space d then (EmptyString, ws)
                        else (EmptyString, w :: ws)
        | EmptyString => (EmptyString, w :: ws)
        end
      else (String c w, ws)
  end.

Definition split_ws (s : string) : list string :=
  let (w, ws) := split_ws_aux s in w :: ws.

(** [arr.includes(x)] on an array of strings. *)
Definition includes (x : string) (l : list string) : bool :=
  existsb (String.eqb x) l.

Fixpoint strip_prefix (p s : string) : option string :=
  match p with
  | EmptyString => Some s
  | String a p' =>
      match s with
      | String b s' => if Ascii.eqb a b then strip_prefix p' s' else None
      | EmptyString => None
      end
  end.

Definition startsWith (p s : string) : bool :=
  match strip_prefix p s with Some _ => true | None => false end.

(** [s.includes(p)] on strings. *)
Fixpoint contains (p s : string) : bool :=
  startsWith p s ||
  match s with
  | EmptyString => false
  | String _ t => contains p t
  end.

(** The longest prefix of [s] made of characters of the class [p], and what
    follows it. *)
Fixpoint span (p : ascii -> bool) (s : string) : string * string :=
  match s with
  | String c t =>
      if p c then let (a, b) := span p t in (String c a, b)
      else (EmptyString, s)
  | EmptyString => (EmptyString, EmptyString)
  end.

(** Exactly [n] characters of the class [p]. *)
Fixpoint skip_n (p : ascii -> bool) (n : nat) (s : string) : option string :=
  match n with
  | O => Some s
  | S n' =>
      match s with
      | String c t => if p c then skip_n p n' t else None
      | EmptyString => None
      end
  end.

(** [s.substring(0, n)]. *)
Fixpoint take (n : nat) (s : string) : string :=
  match n, s with
  | S n', String c t => String c (take n' t)
  | _, _ => EmptyString
  end.

(** *** Global regular-expression replacement

    A [matcher] is a pattern tried at the head of the remaining input: it
    answers with the replacement text and the input left after the match.
    [replace_all] is [s.replace(/.../g, ...)]: leftmost matches, none
    overlapping, the replacement never scanned again. *)
Definition matcher : Type := string -> option (string * string).

Fixpoint replace_fuel (m : matcher) (fuel : nat) (s : string) : string :=
  match fuel with
  | O => s
  | S fuel' =>
      match m s with
      | Some (rep, rest) => rep ++ replace_fuel m fuel' rest
      | None =>
          match s with
          | EmptyString => EmptyString
          | String c t => String c (replace_fuel m fuel' t)
          end
      end
  end.

Definition replace_all (m : matcher) (s : string) : string :=
  replace_fuel m (S (String.length s)) s.

(** Whether the pattern has no match anywhere in [s]. *)
Fixpoint no_match (m : matcher) (s : string) : bool :=
  match m s with
  | Some _ => false
  | None =>
      match s with
      | EmptyString => true
      | String _ t => no_match m t
      end
  end.

(** A pattern that is a fixed text. *)
Definition literal (p rep : string) : matcher :=
  fun s => match strip_prefix p s with
           | Some rest => Some (rep, rest)
           | None => None
           end.

(** Decimal rendering of an integer, as in a template literal. *)
Definition Z_to_string (z : Z) : string :=
  NilEmpty.string_of_int (Z.to_int z).

End Js.

Import Js.

Notation "x <- e ;; k" :=
  (match e with Some x => k | None => None end)
  (at level 61, e at next level, right associativity).

(** ** Markup normaliser ([cleanWebArchiveUrls]) *)

Module Normalizer.

(** [https?:\/\/], with the text it matched. *)
Definition scheme (s : string) : option (string * string) :=
  match strip_prefix "https://" s with
  | Some r => Some ("https://", r)
  | None =>
      match strip_prefix "http://" s with
      | Some r => Some ("http://", r)
      | None => None
      end
  end.

(** [web\.archive\.org\/web\/\d{14}[a-zA-Z_]*\/]. *)
Definition archive_stamp (s : string) : option string :=
  r <- strip_prefix "web.archive.org/web/" s ;;
  r <- skip_n is_digit 14 r ;;
  strip_prefix "/" (snd (span is_alpha_us r)).

(** The class of the characters a wrapped URL is made of: any but the double
    quote, white space and the closing parenthesis. *)
Definition is_url_char (c : ascii) : bool :=
  negb ((code c =? 34)%N || is_space c || (code c =? 41)%N).

(** Pattern 1, replaced by its group [$1]. *)
Definition fullArchivePattern : matcher := fun s =>
  p <- scheme s ;;
  r <- archive_stamp (snd p) ;;
  q <- scheme r ;;
  let (u, rest) := span is_url_char (snd q) in
  if is_empty u then None else Some (fst q ++ u, rest).

(** Pattern 2, replaced through the callback of the source. *)
Definition basicArchivePattern : matcher := fun s =>
  p <- scheme s ;;
  r <- archive_stamp (snd p) ;;
  let (originalUrl, rest) := span is_url_char r in
  if is_empty originalUrl then None
  else if negb (startsWith "http://" originalUrl)
          && negb (startsWith "https://" originalUrl)
       then Some ("https://" ++ originalUrl, rest)
       else Some (originalUrl, rest).

(** Pattern 3. *)
Definition remainingArchivePattern : matcher := fun s =>
  r <- archive_stamp s ;; Some (EmptyString, r).

(** Pattern 4: [https?:\/\/https?:\/\/]. *)
Definition doubleProtocol : matcher := fun s =>
  p <- scheme s ;; q <- scheme (snd p) ;; Some ("https://", snd q).

Definition lnexunPort : matcher := fun s =>
  p <- scheme s ;;
  r <- strip_prefix "www.lnexun.com:80/" (snd p) ;;
  Some ("https://lnexun.com/", r).

Definition lnexunHttp : matcher :=
  literal "http://www.lnexun.com/" "https://lnexun.com/".

Definition lnexunWww : matcher := fun s =>
  p <- scheme s ;;
  r <- strip_prefix "www.lnexun.com/" (snd p) ;;
  Some ("https://lnexun.com/", r).

Definition srcRelative : matcher :=
  literal ("src=" ++ dq ++ "//") ("src=" ++ dq ++ "https://").

Definition hrefRelative : matcher :=
  literal ("href=" ++ dq ++ "//") ("href=" ++ dq ++ "https://").

(** The substitutions in the order of the source. *)
Definition patterns : list matcher :=
  [ fullArchivePattern; basicArchivePattern; remainingArchivePattern;
    doubleProtocol; lnexunPort; lnexunHttp; lnexunWww;
    srcRelative; hrefRelative ].

(** [cleanWebArchiveUrls] on a string; the empty string comes back at the
    guard, which is also what the substitutions would give. *)
Definition cleanWebArchiveUrls (text : string) : string :=
  if is_empty text then text
  else fold_left (fun cleaned m => replace_all m cleaned) patterns text.

(** No substitution of the normaliser has a match left in [s]. *)
Definition settled (s : string) : bool :=
  forallb (fun m => no_match m s) patterns.

End Normalizer.

(** ** Data model *)

(** Errors are values: [Raise msg] is a thrown [Error] with that message. *)
Inductive Result (A : Type) : Type :=
| Ok (a : A)
| Raise (msg : string).
Arguments Ok {A} a.
Arguments Raise {A} msg.

Record DateInfo : Type := mkDate {
  d_text : string;
  d_datetime : string;
  d_html : option string
}.

Record Metadata : Type := mkMeta {
  sourceUrl : option string;
  timestamp : option string;
  selector : option string;
  extractedAt : option string;
  m_type : option string;
  m_error : option string;
  mergedFrom : option Z;
  sourceTimestamps : option (list string)
}.

Record Post : Type := mkPost {
  id : option string;
  classes : option string;
  title : option string;
  content : option string;
  excerpt : option string;
  date : option DateInfo;
  author : option string;
  categories : option (list string);
  tags : option (list string);
  permalink : option string;
  fullHtml : option string;
  metadata : option Metadata;
  uniqueId : option string
}.

(** [x || d] on an optional string: the default replaces a missing or an
    empty one. *)
Definition or_else (x : option string) (d : string) : string :=
  match x with
  | Some s => if is_empty s then d else s
  | None => d
  end.

Definition truthy (x : option string) : bool :=
  match x with
  | Some s => negb (is_empty s)
  | None => false
  end.

(** [post.metadata?.timestamp]. *)
Definition post_timestamp (p : Post) : option string :=
  match metadata p with
  | Some m => timestamp m
  | None => None
  end.

Definition set_categories (c : option (list string)) (p : Post) : Post :=
  mkPost (id p) (classes p) (title p) (content p) (excerpt p) (date p)
         (author p) c (tags p) (permalink p) (fullHtml p) (metadata p)
         (uniqueId p).

Definition set_tags (t : option (list string)) (p : Post) : Post :=
  mkPost (id p) (classes p) (title p) (content p) (excerpt p) (date p)
         (author p) (categories p) t (permalink p) (fullHtml p) (metadata p)
         (uniqueId p).

Definition set_metadata (m : option Metadata) (p : Post) : Post :=
  mkPost (id p) (classes p) (title p) (content p) (excerpt p) (date p)
         (author p) (categories p) (tags p) (permalink p) (fullHtml p) m
         (uniqueId p).

Definition set_uniqueId (u : option string) (p : Post) : Post :=
  mkPost (id p) (classes p) (title p) (content p) (excerpt p) (date p)
         (author p) (categories p) (tags p) (permalink p) (fullHtml p)
         (metadata p) u.

Definition empty_metadata : Metadata :=
  mkMeta None None None None None None None None.

Definition set_merge_info (n : Z) (ts : list string) (m : Metadata)
  : Metadata :=
  mkMeta (sourceUrl m) (timestamp m) (selector m) (extractedAt m)
         (m_type m) (m_error m) (Some n) (Some ts).

(** A [Set] of strings: insertion order, one copy of each value. *)
Definition set_add (x : string) (s : list string) : list string :=
  if includes x s then s else (s ++ [x])%list.

Definition set_add_all (xs : list string) (s : list string) : list string :=
  fold_left (fun acc x => set_add x acc) xs s.

(** The values of a field gathered over the posts, in the order they are
    first met: the loop shared by [mergePosts] and [createWxrFile]. *)
Definition collect (field : Post -> option (list string)) (posts : list Post)
  : list string :=
  fold_left (fun acc post =>
               match field post with
               | Some l => set_add_all l acc
               | None => acc
               end) posts [].

Record AuthorIdentity : Type := mkAuthor {
  a_id : Z;
  login : string;
  email : string;
  display_name : string;
  first_name : string;
  last_name : string
}.

(** ** XML helpers *)

Module Xml.

Definition escapeXml (unsafe : string) : string :=
  replace_all (literal "'" "&#039;")
    (replace_all (literal dq "&quot;")
      (replace_all (literal ">" "&gt;")
        (replace_all (literal "<" "&lt;")
          (replace_all (literal "&" "&amp;") unsafe)))).

Definition cdata (content : string) : string :=
  if is_empty content then EmptyString
  else "<![CDATA[" ++ replace_all (literal "]]>" "]]&gt;") content ++ "]]>".

End Xml.

(** ** Identity resolver *)

Module Identity.

(** The fixed table, in the order [Object.entries] walks it: the one key
    that is an array index first, then the others as written. *)
Definition AUTHORS : list (string * AuthorIdentity) :=
  [
    ("246964", mkAuthor 15 "246964" "246964@gmail.com" "Sid" "Sidharth" "Iyer");
    ("admin", mkAuthor 3 "admin" "felukewl+lnexun@gmail.com" "admin" "" "");
    ("aurojit", mkAuthor 20 "aurojit" "aurojit@gmail.com" "aurojit" "Aurojit" "Panda");
    ("udrastogi", mkAuthor 21 "udrastogi" "udrastogi@gmail.com" "udrastogi" "Udit" "Rastogi");
    ("ikkumpal", mkAuthor 9 "ikkumpal" "ikkumpal@gmail.com" "ikkumpal" "Mukesh" "Kumar");
    ("viksit", mkAuthor 22 "viksit" "viksit@gmail.com" "viksit" "" "");
    ("souvikdg", mkAuthor 23 "souvikdg" "souvikdg@gmail.com" "souvikdg" "Souvik" "Das Gupta");
    ("prateekrungta", mkAuthor 24 "prateekrungta" "prateekrungta@gmail.com" "prateekrungta" "Prateek" "Rungta");
    ("anant90", mkAuthor 25 "anant90" "anant90@gmail.com" "anant90" "Anant" "Jain");
    ("aayushkumar", mkAuthor 26 "aayushkumar" "aayushkumar@gmail.com" "aayushkumar" "Aayush" "Kumar");
    ("aditya.aditude", mkAuthor 6 "aditya.aditude" "aditya.aditude@gmail.com" "aditya.aditude" "Aditya" "Jain");
    ("sidnangia", mkAuthor 8 "sidnangia" "sidnangia@gmail.com" "sidnangia" "Siddharth" "Nangia");
    ("raghavkhullar", mkAuthor 27 "raghavkhullar" "raghavkhullar@gmail.com" "raghavkhullar" "Raghav" "Khullar");
    ("sahil29", mkAuthor 16 "sahil29" "sahil29@gmail.com" (String (ascii_of_nat 194) EmptyString ++ String (ascii_of_nat 187) EmptyString ++ " sahil") "Sahil" "Bajaj");
    ("srajanmani", mkAuthor 28 "srajanmani" "srajanmani@gmail.com" "srajanmani" "Srajan" "Rastogi");
    ("shubham.cash", mkAuthor 12 "shubham.cash" "shubham.cash@gmail.com" "Shubham Goel" "Shubham" "Goel");
    ("akritigaur", mkAuthor 13 "akritigaur" "akritigaur@gmail.com" "akritigaur" "Akriti" "Gaur");
    ("ralbhat", mkAuthor 5 "ralbhat" "ralbhat@gmail.com" "Rahul" "Rahul" "Bhatnagar");
    ("samarth.math", mkAuthor 14 "samarth.math" "samarth.math@gmail.com" "samarth.math" "Samarth" "Mathur");
    ("goonerbynature", mkAuthor 18 "goonerbynature" "tanayrulz@gmail.com" "goonerbynature" "Tanay" "Padhi");
    ("vishesh420", mkAuthor 19 "vishesh420" "vishesh420@gmail.com" "vishesh420" "Vishesh" "Kumar");
    ("pranavobhrai", mkAuthor 29 "pranavobhrai" "pranavobhrai@gmail.com" "pranavobhrai" "Pranav" "Obhrai");
    ("aditya.grover1", mkAuthor 17 "aditya.grover1" "aditya.grover1@gmail.com" "aditya.grover1" "Aditya" "Grover");
    ("felu", mkAuthor 10 "felu" "felukewl@gmail.com" "Bhuwan Khattar" "Bhuwan" "Khattar");
    ("kush2005", mkAuthor 7 "kush2005" "kush2005@gmail.com" "Kush Agrawal" "Kush" "Agrawal");
    ("pratham.agrawal92", mkAuthor 4 "pratham.agrawal92" "pratham.agrawal92@gmail.com" "pratham.agrawal92" "Pratham" "Agrawal");
    ("ronng93", mkAuthor 11 "ronng93" "ronng93@gmail.com" "ronng93" "Srijit" "Ghosh");
    ("varzrulz", mkAuthor 30 "varzrulz" "varzrulz@gmail.com" "varzrulz" "Varun" "Dubey");
    ("karanveer.1992", mkAuthor 31 "karanveer.1992" "karanveer.1992@gmail.com" "Karanveer" "Karanveer" "Mohan");
    ("mayank.sharmas94", mkAuthor 32 "mayank.sharmas94" "mayank.sharmas94@gmail.com" "mayank.sharmas94" "Mayank" "Sharma");
    ("achalv2.0", mkAuthor 33 "achalv2.0" "achalv2.0@gmail.com" "Achal Varma" "Achal" "Varma");
    ("strong.aman", mkAuthor 34 "strong.aman" "strong.aman@gmail.com" "strong.aman" "aman" "agarwal");
    ("gursartaj", mkAuthor 35 "gursartaj" "gursartaj@gmail.com" "gursartaj" "gursartaj" "nijjar");
    ("ishan28mkip", mkAuthor 36 "ishan28mkip" "ishan28mkip@gmail.com" "ishan28mkip" "Ishan" "Sharma");
    ("bharatkashyap.exun", mkAuthor 38 "bharatkashyap.exun" "bharatkashyap.exun@gmail.com" "Bharat Kashyap" "Bharat" "Kashyap");
    ("amazinash94", mkAuthor 37 "amazinash94" "amazinash94@gmail.com" "Aishwarya Kane" "Aishwarya" "Kane");
    ("sanchit.windows", mkAuthor 39 "sanchit.windows" "sanchit.windows@gmail.com" "Sanchit Abrol" "Sanchit" "Abrol");
    ("sibesh96@gmail.com", mkAuthor 40 "sibesh96@gmail.com" "sibesh96@gmail.com" "Sibesh Kar" "Sibesh" "Kar");
    ("ananay", mkAuthor 2 "ananay" "ananay@exunclan.com" "ananay" "" "");
    ("trijeetm", mkAuthor 41 "trijeetm" "trijeetm@gmail.com" "Trijeet Mukhopadhyay" "Trijeet" "Mukhopadhyay");
    ("ibatra171", mkAuthor 43 "ibatra171" "ibatra171@gmail.com" "ibatra171" "Ishita" "Batra");
    ("keshavadhyay", mkAuthor 44 "keshavadhyay" "keshavadhyay@gmail.com" "keshavadhyay" "Keshav" "Adhyay");
    ("rohan.nagpal94", mkAuthor 45 "rohan.nagpal94" "rohan.nagpal94@gmail.com" "Rohan Nagpal" "Rohan" "Nagpal");
    ("sealelf", mkAuthor 46 "sealelf" "sealelf@gmail.com" "Akshay Dadhwal" "Akshay" "Dadhwal");
    ("ambarpal1996", mkAuthor 47 "ambarpal1996" "ambarpal1996@gmail.com" "Ambar Pal" "Ambar" "Pal");
    ("abhishekbiswal", mkAuthor 48 "abhishekbiswal" "abhishekbiswal@live.com" "abhishekbiswal" "Abhishek" "Biswal");
    ("siddharthbhogra", mkAuthor 49 "siddharthbhogra" "siddharthbhogra@gmail.com" "Siddharth Bhogra" "Siddharth" "Bhogra");
    ("iammohitsharma", mkAuthor 50 "iammohitsharma" "iammohitsharma@gmail.com" "iammohitsharma" "Mohit" "Sharma");
    ("MadhavNarayan", mkAuthor 51 "MadhavNarayan" "soccermadhav@gmail.com" "Madhav Narayan" "Madhav" "Narayan");
    ("prannaykhosla", mkAuthor 52 "prannaykhosla" "prannay.khosla@gmail.com" "Prannay Khosla" "Prannay" "Khosla");
    ("parth", mkAuthor 53 "parth" "parth082997@gmail.com" "Parth Mittal" "Parth" "Mittal");
    ("abhishekdpseok", mkAuthor 54 "abhishekdpseok" "abhishekdpseok@gmail.com" "Abhishek Anand" "Abhishek" "Anand");
    ("arkin", mkAuthor 55 "arkin" "geekarkin@gmail.com" "Arkin Gupta" "Arkin" "Gupta");
    ("TanayVardhan", mkAuthor 57 "TanayVardhan" "tanaytku@gmail.com" "Tanay Vardhan" "Tanay" "Vardhan");
    ("sana", mkAuthor 56 "sana" "thesanagujral@gmail.com" "Sana Gujral" "Sana" "Gujral");
    ("devanshgandhi", mkAuthor 42 "devanshgandhi" "devanshgandhi103@gmail.com" "Devansh Gandhi" "Devansh" "Gandhi");
    ("saumitrkhullar", mkAuthor 59 "saumitrkhullar" "saumitrkhullar@gmail.com" "Saumitra Khullar" "Saumitra" "Khullar");
    ("akshaygupta", mkAuthor 58 "akshaygupta" "wizardgupta@gmail.com" "Akshay Gupta" "Akshay" "Gupta");
    ("harshil", mkAuthor 60 "harshil" "harshilkashyap3598@gmail.com" "Harshil Kashyap" "Harshil" "Kashyap");
    ("eagerbeavers", mkAuthor 61 "eagerbeavers" "udit@exunclan.com" "Udit Malik" "Udit" "Malik");
    ("tanmay", mkAuthor 62 "tanmay" "bansal.tanmay99@gmail.com" "Tanmay Bansal" "Tanmay" "Bansal");
    ("manav", mkAuthor 63 "manav" "manavaggarwal1234@gmail.com" "Manav Aggarwal" "Manav" "Aggarwal");
    ("gshagun20", mkAuthor 64 "gshagun20" "gshagun20@gmail.com" "Shagun Goel" "Shagun" "Goel");
    ("ritin", mkAuthor 65 "ritin" "ritin@gauravpachnanda.com" "Ritin Pachnanda" "Ritin" "Pachnanda");
    ("aveneel", mkAuthor 66 "aveneel" "aveneel@hotmail.com" "Aveneel Waadhwa" "Aveneel" "Waadhwa");
    ("srijan", mkAuthor 67 "srijan" "srijanjain1207@gmail.com" "Srijan Jain" "Srijan" "Jain");
    ("ayush", mkAuthor 68 "ayush" "ayushsingla.as@gmail.com" "Ayush Singla" "Ayush" "Singla");
    ("anirudhgoyal", mkAuthor 69 "anirudhgoyal" "anirudh.goyal05@gmail.com" "Anirudh Goyal" "Anirudh" "Goyal");
    ("rohan", mkAuthor 70 "rohan" "rohan.offi@gmail.com" "Rohan Dhar" "Rohan" "Dhar");
    ("aaraivsharma", mkAuthor 72 "aaraivsharma" "aaraivcool7@gmail.com" "Aaraiv Sharma" "Aaraiv" "Sharma");
    ("akshaykhandelwal", mkAuthor 71 "akshaykhandelwal" "akshay@exunclan.com" "Akshay Khandelwal" "Akshay" "Khandelwal");
    ("kabir", mkAuthor 73 "kabir" "kabirgoel.kg@gmail.com" "Kabir Goel" "Kabir" "Goel")
  ].

(** The pool of synthesized identities: a [Map] keyed by login, in insertion
    order. *)
Definition CreatedUsers : Type := list (string * AuthorIdentity).

Fixpoint map_has {V : Type} (k : string) (m : list (string * V)) : bool :=
  match m with
  | [] => false
  | (k', _) :: m' => String.eqb k k' || map_has k m'
  end.

(** [Map.prototype.set]: a known key keeps its place and takes the new
    value, a new key goes last. *)
Fixpoint map_set {V : Type} (k : string) (v : V) (m : list (string * V))
  : list (string * V) :=
  match m with
  | [] => [(k, v)]
  | (k', v') :: m' =>
      if String.eqb k k' then (k, v) :: m' else (k', v') :: map_set k v m'
  end.

(** Truth of [AUTHORS[key]]: an own key, or one of the two lower-case names
    every object inherits. *)
Definition authors_lookup_truthy (key : string) : bool :=
  map_has key AUTHORS
  || String.eqb key "constructor" || String.eqb key "__proto__".

Definition is_login_char (c : ascii) : bool :=
  is_lower c || is_digit c || (code c =? 46)%N.

Definition is_lower_alnum (c : ascii) : bool := is_lower c || is_digit c.

Definition createNewUser (authorString : option string) (st : CreatedUsers)
  : string * CreatedUsers :=
  match authorString with
  | None => ("admin", st)
  | Some a =>
      if is_empty a || is_empty (trim a) then ("admin", st)
      else
        let cleanAuthor := trim a in
        let nameParts := split_ws cleanAuthor in
        let firstName := hd EmptyString nameParts in
        let lastName :=
          if (2 <=? List.length nameParts)%nat
          then last nameParts EmptyString else EmptyString in
        let username :=
          if is_empty lastName then toLowerCase firstName
          else toLowerCase firstName ++ "." ++ toLowerCase lastName in
        let cleanUsername := filter_chars is_login_char username in
        let emailSuffix :=
          if is_empty lastName then toLowerCase firstName
          else toLowerCase firstName ++ toLowerCase lastName in
        let email :=
          "ananay+" ++ filter_chars is_lower_alnum emailSuffix
                    ++ "@exunclan.com" in
        let newUserId := (1000 + Z.of_nat (List.length st) + 1)%Z in
        let newUser :=
          mkAuthor newUserId cleanUsername email cleanAuthor
                   firstName lastName in
        (cleanUsername, map_set cleanUsername newUser st)
  end.

(** The exact-match loop over the table. *)
Fixpoint exact_match (cleanAuthor : string)
    (entries : list (string * AuthorIdentity)) : option string :=
  match entries with
  | [] => None
  | (key, a) :: rest =>
      let displayName := toLowerCase (display_name a) in
      let firstName := toLowerCase (first_name a) in
      let lastName := toLowerCase (last_name a) in
      let fullName := trim (firstName ++ " " ++ lastName) in
      if String.eqb displayName cleanAuthor || String.eqb fullName cleanAuthor
         || String.eqb firstName cleanAuthor
         || String.eqb lastName cleanAuthor
      then Some key
      else exact_match cleanAuthor rest
  end.

(** The whole-word loop over the table. *)
Fixpoint word_match (authorWords : list string)
    (entries : list (string * AuthorIdentity)) : option string :=
  match entries with
  | [] => None
  | (key, a) :: rest =>
      let firstName := toLowerCase (first_name a) in
      let lastName := toLowerCase (last_name a) in
      let displayName := toLowerCase (display_name a) in
      if negb (is_empty firstName) && negb (is_empty lastName)
         && includes firstName authorWords && includes lastName authorWords
      then Some key
      else if negb (is_empty displayName) && includes displayName authorWords
      then Some key
      else word_match authorWords rest
  end.

Definition getAuthorLogin (authorString : option string) (st : CreatedUsers)
  : string * CreatedUsers :=
  match authorString with
  | None => ("admin", st)
  | Some a =>
      if is_empty a || is_empty (trim a) then ("admin", st)
      else
        let cleanAuthor := trim (toLowerCase a) in
        if authors_lookup_truthy cleanAuthor then (cleanAuthor, st)
        else
          match exact_match cleanAuthor AUTHORS with
          | Some key => (key, st)
          | None =>
              match word_match (split_ws cleanAuthor) AUTHORS with
              | Some key => (key, st)
              | None => createNewUser authorString st
              end
          end
  end.

(** A run of the resolver over a sequence of author strings. *)
Definition resolve_all (authors : list (option string)) (st : CreatedUsers)
  : CreatedUsers :=
  fold_left (fun s a => snd (getAuthorLogin a s)) authors st.

(** The ids of both pools, the fixed one first. *)
Definition all_ids (st : CreatedUsers) : list Z :=
  (map (fun e => a_id (snd e)) AUTHORS ++ map (fun e => a_id (snd e)) st)%list.

End Identity.

(** ** The platform and the environment of a run *)

(** What the code takes from the JavaScript runtime and Node as is: parsing
    and printing of dates, and the MD5 digest. *)
Class Platform : Type := {
  (** [new Date(text).toISOString()]; [None] when the date is invalid and
      the call throws a [RangeError]. *)
  date_toISOString : string -> option string;
  (** [new Date(text).toUTCString()]. *)
  date_toUTCString : string -> string;
  (** [crypto.createHash('md5').update(text).digest('hex')]. *)
  md5_hex : string -> string;
  (** [a.localeCompare(b)]. *)
  locale_compare : string -> string -> comparison
}.

(** What a run reads from outside: the clock and the random generator.
    A reading is indexed by the position of the post being processed. *)
Record Env : Type := mkEnv {
  (** [Date.now()]. *)
  date_now : nat -> Z;
  (** [Math.floor(Math.random() * 1000)]. *)
  random_offset : nat -> Z;
  (** [new Date().toISOString()]. *)
  now_iso : nat -> string;
  (** [new Date().toUTCString()] when the document is assembled: the
      generation timestamp. *)
  now_utc : string
}.

(** The same readings under another generation timestamp. *)
Definition with_now_utc (d : string) (e : Env) : Env :=
  mkEnv (date_now e) (random_offset e) (now_iso e) d.

(** ** Numbers read from text *)

Module Num.

Definition digit_val (radix : Z) (c : ascii) : option Z :=
  let n := Z.of_N (code c) in
  let v := if is_digit c then Some (n - 48)%Z
           else if is_lower c then Some (n - 87)%Z
           else if is_upper c then Some (n - 55)%Z
           else None in
  match v with
  | Some d => if (d <? radix)%Z then Some d else None
  | None => None
  end.

(** Value of the longest prefix of digits; [acc] is [None] until a digit
    has been read. *)
Fixpoint digits_val (radix : Z) (acc : option Z) (s : string) : option Z :=
  match s with
  | String c t =>
      match digit_val radix c with
      | Some d =>
          digits_val radix
            (Some (match acc with Some a => a * radix + d | None => d end)%Z) t
      | None => acc
      end
  | EmptyString => acc
  end.

(** [parseInt(s)] with no radix; [None] is [NaN]. *)
Definition parseInt (s : string) : option Z :=
  let s1 := trimStart s in
  let '(neg, s2) :=
    match s1 with
    | String "-" t => (true, t)
    | String "+" t => (false, t)
    | _ => (false, s1)
    end in
  let v :=
    match s2 with
    | String "0" (String x t) =>
        if Ascii.eqb x "x" || Ascii.eqb x "X"
        then digits_val 16 None t else digits_val 10 None s2
    | _ => digits_val 10 None s2
    end in
  match v with
  | Some z => Some (if neg then (- z)%Z else z)
  | None => None
  end.

(** A number inside a template literal. *)
Definition num_to_string (n : option Z) : string :=
  match n with
  | Some z => Z_to_string z
  | None => "NaN"
  end.

(** [n || d] on numbers: [NaN] and zero give way to the default. *)
Definition num_or (n : option Z) (d : Z) : Z :=
  match n with
  | Some z => if (z =? 0)%Z then d else z
  | None => d
  end.

End Num.

(** ** Slugs *)

Module Slug.

(** [[^\w\s-]] is deleted: what stays. *)
Definition is_slug_char (c : ascii) : bool :=
  is_word c || is_space c || (code c =? 45)%N.

Definition is_hyphen (c : ascii) : bool := (code c =? 45)%N.

(** [/\s+/g] and [/-+/g], both replaced by one hyphen. *)
Definition run_of (p : ascii -> bool) : matcher := fun s =>
  let (run, rest) := span p s in
  if is_empty run then None else Some ("-", rest).

(** [/^-|-$/g] replaced by nothing: one hyphen off the front, then one off
    the end. *)
Fixpoint strip_last_hyphen (s : string) : string :=
  match s with
  | EmptyString => EmptyString
  | String c t =>
      if is_hyphen c && is_empty t then EmptyString
      else String c (strip_last_hyphen t)
  end.

Definition strip_edge_hyphens (s : string) : string :=
  match s with
  | String c t => if is_hyphen c then strip_last_hyphen t
                  else strip_last_hyphen s
  | EmptyString => EmptyString
  end.

(** The chain shared by [generatePostId] and [generateSlug]. *)
Definition slugify (text : string) : string :=
  strip_edge_hyphens
    (replace_all (run_of is_hyphen)
      (replace_all (run_of is_space)
        (filter_chars is_slug_char (toLowerCase text)))).

(** The shorter chain of the taxonomy terms. *)
Definition term_slug (term : string) : string :=
  replace_all (run_of is_space)
    (filter_chars is_slug_char (toLowerCase term)).

End Slug.

(** ** Export serializer *)

Module Wxr.
Import Xml Identity Num Slug.

Section Serializer.
Context {P : Platform}.

(** [s.substring(a, b)] for [a <= b]. *)
Fixpoint drop (n : nat) (s : string) : string :=
  match n, s with
  | S n', String _ t => drop n' t
  | _, _ => s
  end.

Definition substring (a b : nat) (s : string) : string :=
  take (b - a) (drop a s).

(** [s.substring(start)]: a negative start counts as zero. *)
Definition substring_from (start : Z) (s : string) : string :=
  drop (Z.to_nat (Z.max 0 start)) s.

(** Replacement of a match tied to the end of the text. *)
Fixpoint replace_at_end (is_match : string -> bool) (rep : string)
    (s : string) : string :=
  if is_match s then rep
  else match s with
       | EmptyString => EmptyString
       | String c t => String c (replace_at_end is_match rep t)
       end.

(** [/\.\d{3}Z$/]. *)
Definition is_millis (s : string) : bool :=
  match strip_prefix "." s with
  | Some r =>
      match skip_n is_digit 3 r with
      | Some r' => String.eqb r' "Z"
      | None => false
      end
  | None => false
  end.

Definition is_utc_offset (s : string) : bool :=
  negb (is_empty s) && String.eqb s "+00:00".

Definition or_str (s d : string) : string := if is_empty s then d else s.

Definition formatWordPressDate (env : Env) (index : nat)
    (timestamp : option string) : Result string :=
  if negb (truthy timestamp)
  then Ok (replace_at_end is_millis "+00:00" (now_iso env index))
  else
    let ts := or_else timestamp EmptyString in
    let year := substring 0 4 ts in
    let month := substring 4 6 ts in
    let day := substring 6 8 ts in
    let hour := or_str (substring 8 10 ts) "12" in
    let minute := or_str (substring 10 12 ts) "00" in
    let second := or_str (substring 12 14 ts) "00" in
    match date_toISOString
            (year ++ "-" ++ month ++ "-" ++ day ++ "T"
                  ++ hour ++ ":" ++ minute ++ ":" ++ second ++ "Z") with
    | Some iso => Ok (replace_at_end is_millis "+00:00" iso)
    | None => Raise "Invalid time value"
    end.

Definition generateSlug (title : string) (postId : option string) : string :=
  if negb (is_empty title) && negb (is_empty (trim title))
  then take 200 (slugify title)
  else or_else postId "post".

(** [/^\d+$/.test(s)]. *)
Fixpoint only_digits (s : string) : bool :=
  match s with
  | EmptyString => true
  | String c t => is_digit c && only_digits t
  end.

Definition all_digits (s : string) : bool :=
  negb (is_empty s) && only_digits s.

(** [s.match(/post-(\d+)/)]: the group of the leftmost match. *)
Fixpoint match_post_number (s : string) : option string :=
  let here :=
    r <- strip_prefix "post-" s ;;
    (let (digits, _) := span is_digit r in
     if is_empty digits then None else Some digits) in
  match here with
  | Some digits => Some digits
  | None =>
      match s with
      | EmptyString => None
      | String _ t => match_post_number t
      end
  end.

(** The number behind [post-] in an id or in a class list, when the text
    has one. *)
Definition post_number_in (field : option string) : option string :=
  match field with
  | Some s =>
      if negb (is_empty s) && contains "post-" s
      then match_post_number s else None
  | None => None
  end.

Definition extractPostId (env : Env) (index : nat) (post : Post)
  : option Z :=
  if match id post with Some s => all_digits s | None => false end
  then parseInt (or_else (id post) EmptyString)
  else
    match post_number_in (id post) with
    | Some digits => parseInt digits
    | None =>
        match post_number_in (classes post) with
        | Some digits => parseInt digits
        | None =>
            if truthy (post_timestamp post)
            then Some (num_or
                         (parseInt (substring_from (-8)
                            (or_else (post_timestamp post) EmptyString)))
                         (date_now env index))
            else Some (date_now env index + random_offset env index)%Z
        end
    end.

(** Whether [extractPostId] finds the number in the record itself: in the
    id, in the classes, or in a timestamp that reads as a number other than
    zero. *)
Definition id_from_record (post : Post) : bool :=
  match id post with Some s => all_digits s | None => false end
  || match post_number_in (id post) with Some _ => true | None => false end
  || match post_number_in (classes post) with Some _ => true | None => false end
  || (truthy (post_timestamp post)
      && match parseInt (substring_from (-8)
                           (or_else (post_timestamp post) EmptyString)) with
         | Some z => negb (z =? 0)%Z
         | None => false
         end).

(** A post whose item needs no reading of the clock: it has a capture
    timestamp, and its number comes from the record. *)
Definition clock_free (post : Post) : bool :=
  truthy (post_timestamp post) && id_from_record post.

Definition createTaxonomyXml (terms : option (list string))
    (taxonomy : string) : string :=
  match terms with
  | None => EmptyString
  | Some l =>
      String.concat EmptyString
        (map (fun term =>
                let slug := term_slug term in
                String.concat EmptyString [
        nl; tab; tab; "<category domain="; dq; taxonomy; dq; " nicename=";
          dq; escapeXml slug; dq; ">"; cdata term; "</category>" ])
             l)
  end.

Definition merged_from_or_1 (post : Post) : Z :=
  match metadata post with
  | Some m => num_or (mergedFrom m) 1
  | None => 1%Z
  end.

Definition convertPostToWxr (env : Env) (post : Post) (index : nat)
    (st : CreatedUsers) : Result (string * CreatedUsers) :=
  let postId := extractPostId env index post in
  let title := or_else (title post) "Untitled Post" in
  let slug := generateSlug title (uniqueId post) in
  let content := or_else (content post) (or_else (fullHtml post) EmptyString) in
  let excerpt := or_else (excerpt post) EmptyString in
  let (authorLogin, st') := getAuthorLogin (author post) st in
  match formatWordPressDate env index (post_timestamp post) with
  | Raise msg => Raise msg
  | Ok publishDate =>
      let publishDateGmt := publishDate in
      let wpDate := replace_at_end is_utc_offset EmptyString publishDate in
      let wpDateGmt :=
        replace_at_end is_utc_offset EmptyString publishDateGmt in
      let categoriesXml := createTaxonomyXml (categories post) "category" in
      let tagsXml := createTaxonomyXml (tags post) "post_tag" in
      Ok (String.concat EmptyString [
        nl; tab; "<item>";
        nl; tab; tab; "<title>"; title; "</title>";
        nl; tab; tab; "<link>https://lnexun.com/"; slug; "/</link>";
        nl; tab; tab; "<pubDate>"; date_toUTCString publishDate;
          "</pubDate>";
        nl; tab; tab; "<dc:creator>"; cdata authorLogin; "</dc:creator>";
        nl; tab; tab; "<guid isPermaLink="; dq; "false"; dq;
          ">https://lnexun.com/?p="; num_to_string postId; "</guid>";
        nl; tab; tab; "<description></description>";
        nl; tab; tab; "<content:encoded>"; cdata content;
          "</content:encoded>";
        nl; tab; tab; "<excerpt:encoded>"; cdata excerpt;
          "</excerpt:encoded>";
        nl; tab; tab; "<wp:post_id>"; num_to_string postId; "</wp:post_id>";
        nl; tab; tab; "<wp:post_date>"; cdata wpDate; "</wp:post_date>";
        nl; tab; tab; "<wp:post_date_gmt>"; cdata wpDateGmt;
          "</wp:post_date_gmt>";
        nl; tab; tab; "<wp:comment_status>"; cdata "open";
          "</wp:comment_status>";
        nl; tab; tab; "<wp:ping_status>"; cdata "open"; "</wp:ping_status>";
        nl; tab; tab; "<wp:post_name>"; cdata slug; "</wp:post_name>";
        nl; tab; tab; "<wp:status>"; cdata "publish"; "</wp:status>";
        nl; tab; tab; "<wp:post_parent>0</wp:post_parent>";
        nl; tab; tab; "<wp:menu_order>0</wp:menu_order>";
        nl; tab; tab; "<wp:post_type>"; cdata "post"; "</wp:post_type>";
        nl; tab; tab; "<wp:post_password>"; cdata EmptyString;
          "</wp:post_password>";
        nl; tab; tab; "<wp:is_sticky>0</wp:is_sticky>"; categoriesXml;
          tagsXml;
        nl; tab; tab; "<wp:postmeta>";
        nl; tab; tab; tab; "<wp:meta_key>"; cdata "_edit_last";
          "</wp:meta_key>";
        nl; tab; tab; tab; "<wp:meta_value>"; cdata "1"; "</wp:meta_value>";
        nl; tab; tab; "</wp:postmeta>";
        nl; tab; tab; "<wp:postmeta>";
        nl; tab; tab; tab; "<wp:meta_key>"; cdata "_wp_old_slug";
          "</wp:meta_key>";
        nl; tab; tab; tab; "<wp:meta_value>";
          cdata (or_else (uniqueId post) slug); "</wp:meta_value>";
        nl; tab; tab; "</wp:postmeta>";
        nl; tab; tab; "<wp:postmeta>";
        nl; tab; tab; tab; "<wp:meta_key>"; cdata "_lnexun_import_source";
          "</wp:meta_key>";
        nl; tab; tab; tab; "<wp:meta_value>"; cdata "wayback_machine";
          "</wp:meta_value>";
        nl; tab; tab; "</wp:postmeta>";
        nl; tab; tab; "<wp:postmeta>";
        nl; tab; tab; tab; "<wp:meta_key>";
          cdata "_lnexun_original_timestamp"; "</wp:meta_key>";
        nl; tab; tab; tab; "<wp:meta_value>";
          cdata (or_else (post_timestamp post) EmptyString);
          "</wp:meta_value>";
        nl; tab; tab; "</wp:postmeta>";
        nl; tab; tab; "<wp:postmeta>";
        nl; tab; tab; tab; "<wp:meta_key>"; cdata "_lnexun_merged_from";
          "</wp:meta_key>";
        nl; tab; tab; tab; "<wp:meta_value>";
          cdata (Z_to_string (merged_from_or_1 post)); "</wp:meta_value>";
        nl; tab; tab; "</wp:postmeta>";
        nl; tab; "</item>" ], st')
  end.

Fixpoint mapi_from {A B : Type} (f : A -> nat -> B) (index : nat)
    (l : list A) : list B :=
  match l with
  | [] => []
  | x :: l' => f x index :: mapi_from f (S index) l'
  end.

Definition categoryDef (categoryCount : nat) (cat : string) (index : nat)
  : string :=
  let slug := term_slug cat in
  String.concat EmptyString [
    nl; tab; "<wp:category>";
    nl; tab; tab; "<wp:term_id>"; Z_to_string (Z.of_nat index + 1);
      "</wp:term_id>";
    nl; tab; tab; "<wp:category_nicename>"; escapeXml slug;
      "</wp:category_nicename>";
    nl; tab; tab; "<wp:category_parent></wp:category_parent>";
    nl; tab; tab; "<wp:cat_name>"; cdata cat; "</wp:cat_name>";
    nl; tab; "</wp:category>" ].

Definition tagDef (categoryCount : nat) (tag : string) (index : nat)
  : string :=
  let slug := term_slug tag in
  String.concat EmptyString [
    nl; tab; "<wp:tag>";
    nl; tab; tab; "<wp:term_id>";
      Z_to_string (Z.of_nat categoryCount + Z.of_nat index + 1);
      "</wp:term_id>";
    nl; tab; tab; "<wp:tag_slug>"; escapeXml slug; "</wp:tag_slug>";
    nl; tab; tab; "<wp:tag_name>"; cdata tag; "</wp:tag_name>";
    nl; tab; "</wp:tag>" ].

Definition authorDef (a : AuthorIdentity) : string :=
  String.concat EmptyString [
    nl; tab; "<wp:author><wp:author_id>"; Z_to_string (a_id a);
      "</wp:author_id><wp:author_login>"; cdata (login a);
      "</wp:author_login><wp:author_email>"; cdata (email a);
      "</wp:author_email><wp:author_display_name>"; cdata (display_name a);
      "</wp:author_display_name><wp:author_first_name>";
      cdata (first_name a); "</wp:author_first_name><wp:author_last_name>";
      cdata (last_name a); "</wp:author_last_name></wp:author>" ].

(** [posts.map(convertPostToWxr).join('')], the pool threaded through the
    calls; the first throw ends the run. *)
Fixpoint convert_posts (env : Env) (posts : list Post) (index : nat)
    (st : CreatedUsers) : Result (string * CreatedUsers) :=
  match posts with
  | [] => Ok (EmptyString, st)
  | post :: rest =>
      match convertPostToWxr env post index st with
      | Raise msg => Raise msg
      | Ok (xml, st') =>
          match convert_posts env rest (S index) st' with
          | Raise msg => Raise msg
          | Ok (xmls, st'') => Ok (xml ++ xmls, st'')
          end
      end
  end.

Definition siteUrl : string := "https://lnexun.com".
Definition siteName : string := "Natural Log of Exun".

Definition createWxrFile (env : Env) (posts : list Post) (st : CreatedUsers)
  : Result (string * CreatedUsers) :=
  let currentDate := now_utc env in
  let allCategories := collect categories posts in
  let allTags := collect tags posts in
  let categoryCount := List.length allCategories in
  let categoryDefs :=
    String.concat EmptyString
      (mapi_from (categoryDef categoryCount) 0 allCategories) in
  let tagDefs :=
    String.concat EmptyString (mapi_from (tagDef categoryCount) 0 allTags) in
  let allAuthors := (map snd AUTHORS ++ map snd st)%list in
  let authorDefs := String.concat EmptyString (map authorDef allAuthors) in
  match convert_posts env posts 0 st with
  | Raise msg => Raise msg
  | Ok (postsXml, st') =>
      Ok (String.concat EmptyString [
    "<?xml version="; dq; "1.0"; dq; " encoding="; dq; "UTF-8"; dq; " ?>";
    nl;
      "<!-- This is a WordPress eXtended RSS file generated by lnexun wayback scraper as seen on lnexun.com -->";
    nl; "<!-- generator="; dq; "WordPress/6.6.2"; dq; " created="; dq;
      currentDate; dq; " -->";
    nl; "<rss version="; dq; "2.0"; dq;
    nl; tab; "xmlns:excerpt="; dq;
      "http://wordpress.org/export/1.2/excerpt/"; dq;
    nl; tab; "xmlns:content="; dq;
      "http://purl.org/rss/1.0/modules/content/"; dq;
    nl; tab; "xmlns:wfw="; dq; "http://wellformedweb.org/CommentAPI/"; dq;
    nl; tab; "xmlns:dc="; dq; "http://purl.org/dc/elements/1.1/"; dq;
    nl; tab; "xmlns:wp="; dq; "http://wordpress.org/export/1.2/"; dq; ">";
    nl;
    nl; "<channel>";
    nl; tab; "<title>"; siteName; "</title>";
    nl; tab; "<link>"; siteUrl; "</link>";
    nl; tab;
      "<description>The Natural Log of Exun - Computer Club of DPS RKP</description>";
    nl; tab; "<pubDate>"; currentDate; "</pubDate>";
    nl; tab; "<language>en-US</language>";
    nl; tab; "<wp:wxr_version>1.2</wp:wxr_version>";
    nl; tab; "<wp:base_site_url>"; siteUrl; "</wp:base_site_url>";
    nl; tab; "<wp:base_blog_url>"; siteUrl; "</wp:base_blog_url>";
    nl;
    nl; tab; authorDefs;
    nl;
    nl; tab; categoryDefs;
    nl; tab; tagDefs;
    nl;
    nl; tab; "<generator>WordPress/6.6.2</generator>";
    nl;
    nl; tab; postsXml;
    nl; "</channel>";
    nl; "</rss>" ], st')
  end.

(** The filter of [convertToWxr]. *)
Definition is_valid_post (post : Post) : bool :=
  negb (match id post with
        | Some s => String.eqb s "error-post"
        | None => false
        end)
  && (match title post with
      | Some t => negb (is_empty (trim t))
      | None => false
      end
      || match content post with
         | Some c => (50 <? String.length c)%nat
         | None => false
         end).

(** One serialization run over the filtered posts: the pool starts empty,
    the first pass resolves every author, then the document is built. *)
Definition serialize (env : Env) (validPosts : list Post) : Result string :=
  let st := resolve_all (map author validPosts) [] in
  match createWxrFile env validPosts st with
  | Ok (doc, _) => Ok doc
  | Raise msg => Raise msg
  end.

Definition convertToWxr (env : Env) (posts : list Post) : Result string :=
  serialize env (filter is_valid_post posts).

End Serializer.

End Wxr.

(** ** Consolidator *)

Module Consolidator.
Import Normalizer Slug.

(** A JavaScript number as far as the statistics need it. *)
Inductive JsNumber : Type :=
| Finite (z : Z)
| PosInfinity
| NegInfinity
| NaN.

(** [Math.round(a / b)] on integers: a zero divisor gives an infinity, or
    [NaN] when the dividend is zero too; halves round up. *)
Definition round_div (a b : Z) : JsNumber :=
  if (b =? 0)%Z then
    if (a =? 0)%Z then NaN
    else if (0 <? a)%Z then PosInfinity else NegInfinity
  else Finite ((2 * a + b) / (2 * b))%Z.

Definition clean_opt (x : option string) : option string :=
  match x with
  | Some s => if is_empty s then x else Some (cleanWebArchiveUrls s)
  | None => None
  end.

Definition cleanPost (post : Post) : Post :=
  mkPost (id post) (classes post)
         (clean_opt (title post)) (clean_opt (content post))
         (clean_opt (excerpt post))
         (match date post with
          | Some d =>
              Some (mkDate (cleanWebArchiveUrls (d_text d)) (d_datetime d)
                           (clean_opt (d_html d)))
          | None => None
          end)
         (clean_opt (author post))
         (option_map (map cleanWebArchiveUrls) (categories post))
         (option_map (map cleanWebArchiveUrls) (tags post))
         (clean_opt (permalink post)) (clean_opt (fullHtml post))
         (match metadata post with
          | Some m =>
              Some (mkMeta (clean_opt (sourceUrl m)) (timestamp m)
                           (selector m) (extractedAt m) (m_type m)
                           (m_error m) (mergedFrom m) (sourceTimestamps m))
          | None => None
          end)
         (uniqueId post).

Section Keys.
Context {P : Platform}.

Definition is_placeholder_id (s : string) : bool :=
  String.eqb s "page-content" || String.eqb s "error-post"
  || startsWith "post-" s.

(** The slug of the title, when the post has a title and the slug is longer
    than three characters. *)
Definition title_slug (post : Post) : option string :=
  match title post with
  | Some t =>
      if negb (is_empty t) && negb (is_empty (trim t))
      then let titleSlug := slugify t in
           if (3 <? String.length titleSlug)%nat then Some titleSlug else None
      else None
  | None => None
  end.

Definition generatePostId (now : Z) (post : Post) : string :=
  if match id post with
     | Some s => negb (is_empty s) && negb (is_placeholder_id s)
     | None => false
     end
  then or_else (id post) EmptyString
  else
    match title_slug post with
    | Some titleSlug => titleSlug
    | None =>
        if truthy (content post)
        then "content-"
             ++ take 8 (md5_hex (take 500 (or_else (content post) EmptyString)))
        else "post-" ++ or_else (post_timestamp post) (Z_to_string now)
    end.

(** Whether [generatePostId] reaches its last line, the one that reads the
    clock when the post has no timestamp. *)
Definition key_reads_clock (post : Post) : bool :=
  negb (match id post with
        | Some s => negb (is_empty s) && negb (is_placeholder_id s)
        | None => false
        end)
  && match title_slug post with Some _ => false | None => true end
  && negb (truthy (content post))
  && negb (truthy (post_timestamp post)).

End Keys.

(** *** Merging a group *)

Definition content_size (p : Post) : nat :=
  String.length (or_else (content p) EmptyString)
  + String.length (or_else (fullHtml p) EmptyString).

(** [Array.prototype.sort] is stable; with the comparator of the source the
    larger posts come first and equal ones keep their order. *)
Fixpoint insert_desc (x : Post) (l : list Post) : list Post :=
  match l with
  | [] => [x]
  | y :: l' =>
      if (content_size x <? content_size y)%nat
      then y :: insert_desc x l'
      else x :: y :: l'
  end.

Definition sort_desc (l : list Post) : list Post :=
  fold_right insert_desc [] l.

(** [posts.map(p => p.metadata?.timestamp).filter(Boolean)]. *)
Definition member_timestamps (posts : list Post) : list string :=
  flat_map (fun p => if truthy (post_timestamp p)
                     then [or_else (post_timestamp p) EmptyString] else [])
           posts.

(** [mergePosts], with the array as the call leaves it: the sort is in
    place and the first element is the object that is updated and
    returned.  An empty array ends in a [TypeError]. *)
Definition mergePosts (posts : list Post) : Result (Post * list Post) :=
  match posts with
  | [only] => Ok (only, [only])
  | _ =>
      match sort_desc posts with
      | [] => Raise "Cannot set properties of undefined (setting 'categories')"
      | bestPost :: others =>
          let sorted := bestPost :: others in
          let allCategories := collect categories sorted in
          let allTags := collect tags sorted in
          let meta :=
            match metadata bestPost with
            | Some m => m
            | None => empty_metadata
            end in
          let merged :=
            set_metadata
              (Some (set_merge_info (Z.of_nat (List.length sorted))
                                    (member_timestamps sorted) meta))
              (set_tags (Some allTags)
                 (set_categories (Some allCategories) bestPost)) in
          Ok (merged, merged :: others)
      end
  end.

(** *** The whole consolidation *)

Record SnapshotResult : Type := mkSnapshot {
  s_timestamp : string;
  s_originalUrl : string;
  s_waybackUrl : string;
  s_posts : option (list Post);
  s_success : bool;
  s_error : option string;
  s_responseSize : Z;
  s_contentType : string
}.

Record Statistics : Type := mkStats {
  totalSnapshots : nat;
  successfulSnapshots : nat;
  totalPostsBeforeDedup : nat;
  uniquePosts : nat;
  duplicatesRemoved : nat;
  postsWithContent : nat;
  postsWithTitles : nat;
  averageContentLength : JsNumber;
  earliest : option string;
  latest : option string
}.

Record Consolidated : Type := mkConsolidated {
  consolidatedAt : string;
  statistics : Statistics;
  posts : list Post
}.

(** A snapshot is used when it succeeded and holds a post. *)
Definition contributes (s : SnapshotResult) : bool :=
  s_success s
  && match s_posts s with
     | Some (_ :: _) => true
     | _ => false
     end.

Definition snapshot_posts (s : SnapshotResult) : list Post :=
  match s_posts s with
  | Some l => l
  | None => []
  end.

(** [postGroups]: a [Map] from key to the posts of the group, both in
    insertion order. *)
Fixpoint group_add (key : string) (post : Post)
    (groups : list (string * list Post)) : list (string * list Post) :=
  match groups with
  | [] => [(key, [post])]
  | (k, g) :: rest =>
      if String.eqb key k then (k, (g ++ [post])%list) :: rest
      else (k, g) :: group_add key post rest
  end.

Section Consolidate.
Context {P : Platform}.

Fixpoint group_posts (env : Env) (index : nat) (allPosts : list Post)
    (groups : list (string * list Post)) : list (string * list Post) :=
  match allPosts with
  | [] => groups
  | post :: rest =>
      group_posts env (S index) rest
        (group_add (generatePostId (date_now env index) post) post groups)
  end.

Fixpoint merge_groups (groups : list (string * list Post))
  : Result (list Post) :=
  match groups with
  | [] => Ok []
  | (postId, members) :: rest =>
      match mergePosts members with
      | Raise msg => Raise msg
      | Ok (mergedPost, _) =>
          match merge_groups rest with
          | Raise msg => Raise msg
          | Ok l => Ok (set_uniqueId (Some postId) mergedPost :: l)
          end
      end
  end.

Definition sort_key (p : Post) : string := or_else (post_timestamp p) "0".

(** The final sort, newest first: [b.localeCompare(a)] is negative when
    [a] goes first. *)
Fixpoint insert_newest (x : Post) (l : list Post) : list Post :=
  match l with
  | [] => [x]
  | y :: l' =>
      match locale_compare (sort_key y) (sort_key x) with
      | Gt => y :: insert_newest x l'
      | _ => x :: y :: l'
      end
  end.

Definition sort_newest (l : list Post) : list Post :=
  fold_right insert_newest [] l.

Definition count {A : Type} (f : A -> bool) (l : list A) : nat :=
  List.length (filter f l).

Definition has_substantial_content (p : Post) : bool :=
  match content p with
  | Some c => negb (is_empty c) && (100 <? String.length c)%nat
  | None => false
  end.

Definition has_title (p : Post) : bool :=
  match title p with
  | Some t => negb (is_empty t) && negb (is_empty (trim t))
  | None => false
  end.

Definition pick_earliest (acc : option string) (p : Post) : option string :=
  match post_timestamp p with
  | Some t =>
      if negb (is_empty t)
         && (negb (truthy acc) || String.ltb t (or_else acc EmptyString))
      then Some t else acc
  | None => acc
  end.

Definition pick_latest (acc : option string) (p : Post) : option string :=
  match post_timestamp p with
  | Some t =>
      if negb (is_empty t)
         && (negb (truthy acc) || String.ltb (or_else acc EmptyString) t)
      then Some t else acc
  | None => acc
  end.

Definition computeStats (total successful before duplicates : nat)
    (unique : list Post) : Statistics :=
  mkStats total successful before (List.length unique) duplicates
    (count has_substantial_content unique)
    (count has_title unique)
    (round_div
       (fold_left
          (fun sum p =>
             (sum + Z.of_nat (String.length (or_else (content p) EmptyString)))%Z)
          unique 0%Z)
       (Z.of_nat (List.length unique)))
    (fold_left pick_earliest unique None)
    (fold_left pick_latest unique None).

(** [consolidateAllPosts] on the snapshots already read and parsed. *)
Definition consolidateAllPosts (env : Env) (snapshots : list SnapshotResult)
  : Result Consolidated :=
  let used := filter contributes snapshots in
  let allPosts := map cleanPost (flat_map snapshot_posts used) in
  let postGroups := group_posts env 0 allPosts [] in
  let duplicatesFound :=
    fold_left (fun n g => (n + (List.length (snd g) - 1))%nat) postGroups 0%nat
  in
  match merge_groups postGroups with
  | Raise msg => Raise msg
  | Ok merged =>
      let unique := sort_newest merged in
      Ok (mkConsolidated
            (now_iso env (List.length allPosts))
            (computeStats (List.length snapshots) (List.length used)
                          (List.length allPosts) duplicatesFound unique)
            unique)
  end.

End Consolidate.

End Consolidator.

(** ** Post extractor *)

Module Extractor.

(** What the field extractors read off one matched element. *)
Record Element : Type := mkElement {
  el_id : option string;
  el_class : option string;
  el_title : string;
  el_content : option string;
  el_excerpt : string;
  el_date : option DateInfo;
  el_author : string;
  el_categories : list string;
  el_tags : list string;
  el_permalink : string;
  el_html : option string
}.

(** What [extractPageContent] reads off the main block of the page. *)
Record PageBlock : Type := mkPageBlock {
  pb_title : string;
  pb_h1 : string;
  pb_html : option string
}.

(** The parsed document as the extractor sees it; every query may throw. *)
Record Document : Type := mkDocument {
  (** [typeof $ === 'function']. *)
  is_function : bool;
  (** [$('html').length]. *)
  probe_html : Result nat;
  (** [$(selector)], each matched element with what its field extractors
      give. *)
  query : string -> Result (list (Result Element));
  (** The first of the main-content containers, if the page has one. *)
  main_block : Result (option PageBlock)
}.

Definition postSelectors : list string :=
  [ "article"; ".post"; ".hentry"; ".entry";
    "[class*=" ++ dq ++ "post" ++ dq ++ "]";
    "#content .post"; ".content .post"; ".main .post" ].

Definition try_catch {A : Type} (body : Result A) (handler : string -> Result A)
  : Result A :=
  match body with
  | Ok a => Ok a
  | Raise msg => handler msg
  end.

Section Extract.
Variable env : Env.
Variable snapshot_index : nat.
Variables url timestamp : string.

Definition stamp (sel : string) (type err : option string) : Metadata :=
  mkMeta (Some url) (Some timestamp) (Some sel)
         (Some (now_iso env snapshot_index)) type err None None.

Definition element_post (sel : string) (index : nat) (e : Element) : Post :=
  mkPost (Some (or_else (el_id e) ("post-" ++ Z_to_string (Z.of_nat index))))
         (Some (or_else (el_class e) EmptyString))
         (Some (el_title e)) (el_content e) (Some (el_excerpt e))
         (el_date e) (Some (el_author e))
         (Some (el_categories e)) (Some (el_tags e))
         (Some (el_permalink e)) (el_html e)
         (Some (stamp sel None None)) None.

(** The [each] loop: an element whose extraction throws is skipped. *)
Fixpoint each_element (sel : string) (index : nat)
    (elements : list (Result Element)) : list Post :=
  match elements with
  | [] => []
  | Ok e :: rest =>
      element_post sel index e :: each_element sel (S index) rest
  | Raise _ :: rest => each_element sel (S index) rest
  end.

(** The loop over the selectors: the first that matches anything is used,
    one that throws is passed over.  [None] when none matched. *)
Fixpoint try_selectors (doc : Document) (selectors : list string)
  : option (list Post) :=
  match selectors with
  | [] => None
  | sel :: rest =>
      match query doc sel with
      | Ok (e :: es) => Some (each_element sel 0 (e :: es))
      | Ok [] => try_selectors doc rest
      | Raise _ => try_selectors doc rest
      end
  end.

Definition extractPageContent (doc : Document) : Result (option Post) :=
  match main_block doc with
  | Raise msg => Raise msg
  | Ok None => Ok None
  | Ok (Some b) =>
      let title :=
        if negb (is_empty (pb_title b)) then pb_title b
        else if negb (is_empty (pb_h1 b)) then pb_h1 b
        else "Page Content" in
      Ok (Some (mkPost (Some "page-content") (Some "page-content")
                       (Some (trim title)) (pb_html b) (Some EmptyString)
                       None (Some EmptyString) (Some []) (Some [])
                       (Some url) (pb_html b)
                       (Some (stamp "page-content" (Some "page") None))
                       None))
  end.

Definition error_post (message : string) : Post :=
  mkPost (Some "error-post") (Some "error") (Some "Extraction Error")
         (Some ("Failed to extract content: " ++ message))
         (Some EmptyString) None (Some EmptyString) (Some []) (Some [])
         (Some url) (Some EmptyString)
         (Some (stamp "error" None (Some message))) None.

Definition extractWordPressPosts (doc : Document) : Result (list Post) :=
  try_catch
    (if negb (is_function doc)
     then Raise "Cheerio $ function is not available"
     else
       match probe_html doc with
       | Raise msg => Raise ("Cheerio test failed: " ++ msg)
       | Ok _ =>
           match try_selectors doc postSelectors with
           | Some found => Ok found
           | None =>
               match try_catch (extractPageContent doc)
                               (fun _ => Ok None) with
               | Ok (Some pageContent) => Ok [pageContent]
               | _ => Ok []
               end
           end
       end)
    (fun message => Ok [error_post message]).

End Extract.

End Extractor.

(** ** A reference platform

    A concrete runtime for the examples: MD5 as RFC 1321 has it, on the
    UTF-8 bytes of the text; dates of the shape [YYYY-MM-DDTHH:MM:SS]
    followed by [Z] or [+00:00], in the years 0000 to 9999, with days past
    the end of a month carried over as the engine does.  Any other text is
    an invalid date here.  The properties below hold for every platform;
    this one only feeds the examples. *)

Module Md5.

Definition mask32 : Z := 4294967295.
Definition add32 (a b : Z) : Z := Z.land (a + b) mask32.
Definition not32 (a : Z) : Z := Z.lxor a mask32.
Definition rotl (x n : Z) : Z :=
  Z.land (Z.lor (Z.shiftl x n) (Z.shiftr x (32 - n))) mask32.

Definition K : list Z :=
  [
    3614090360; 3905402710; 606105819; 3250441966; 4118548399; 1200080426;
    2821735955; 4249261313; 1770035416; 2336552879; 4294925233; 2304563134;
    1804603682; 4254626195; 2792965006; 1236535329; 4129170786; 3225465664;
    643717713; 3921069994; 3593408605; 38016083; 3634488961; 3889429448;
    568446438; 3275163606; 4107603335; 1163531501; 2850285829; 4243563512;
    1735328473; 2368359562; 4294588738; 2272392833; 1839030562; 4259657740;
    2763975236; 1272893353; 4139469664; 3200236656; 681279174; 3936430074;
    3572445317; 76029189; 3654602809; 3873151461; 530742520; 3299628645;
    4096336452; 1126891415; 2878612391; 4237533241; 1700485571; 2399980690;
    4293915773; 2240044497; 1873313359; 4264355552; 2734768916; 1309151649;
    4149444226; 3174756917; 718787259; 3951481745 ]%Z.

Definition shifts : list Z :=
  [
    7; 12; 17; 22; 7; 12; 17; 22; 7; 12; 17; 22; 7; 12; 17; 22; 5; 9; 14; 20;
    5; 9; 14; 20; 5; 9; 14; 20; 5; 9; 14; 20; 4; 11; 16; 23; 4; 11; 16; 23;
    4; 11; 16; 23; 4; 11; 16; 23; 6; 10; 15; 21; 6; 10; 15; 21; 6; 10; 15;
    21; 6; 10; 15; 21 ]%Z.

(** The bytes Node feeds to the digest. *)
Fixpoint utf8 (s : string) : list Z :=
  match s with
  | EmptyString => []
  | String c t =>
      let n := Z.of_N (code c) in
      if (n <? 128)%Z then n :: utf8 t
      else Z.lor 192 (Z.shiftr n 6) :: Z.lor 128 (Z.land n 63) :: utf8 t
  end.

Fixpoint le_bytes (count : nat) (x : Z) : list Z :=
  match count with
  | O => []
  | S k => Z.land x 255 :: le_bytes k (Z.shiftr x 8)
  end.

Definition pad (msg : list Z) : list Z :=
  let len := Z.of_nat (List.length msg) in
  let zeros := Z.to_nat ((55 - len) mod 64) in
  (msg ++ [128%Z] ++ repeat 0%Z zeros ++ le_bytes 8 (8 * len))%list.

Fixpoint words (count : nat) (bytes : list Z) : list Z :=
  match count, bytes with
  | S k, b0 :: b1 :: b2 :: b3 :: rest =>
      (b0 + Z.shiftl b1 8 + Z.shiftl b2 16 + Z.shiftl b3 24)%Z :: words k rest
  | _, _ => []
  end.

Definition state : Type := (Z * Z * Z * Z)%type.

Definition step (M : list Z) (st : state) (i : nat) : state :=
  let '(a, b, c, d) := st in
  let '(f, g) :=
    if (i <? 16)%nat
    then (Z.lor (Z.land b c) (Z.land (not32 b) d), i)
    else if (i <? 32)%nat
    then (Z.lor (Z.land d b) (Z.land (not32 d) c), ((5 * i + 1) mod 16)%nat)
    else if (i <? 48)%nat
    then (Z.lxor b (Z.lxor c d), ((3 * i + 5) mod 16)%nat)
    else (Z.lxor c (Z.lor b (not32 d)), ((7 * i) mod 16)%nat) in
  let f' := add32 (add32 (add32 f a) (nth i K 0%Z)) (nth g M 0%Z) in
  (d, add32 b (rotl f' (nth i shifts 0%Z)), b, c).

Definition chunk (st : state) (M : list Z) : state :=
  let '(a0, b0, c0, d0) := st in
  let '(a, b, c, d) := fold_left (step M) (seq 0 64) st in
  (add32 a0 a, add32 b0 b, add32 c0 c, add32 d0 d).

Fixpoint chunks (fuel : nat) (st : state) (bytes : list Z) : state :=
  match fuel, bytes with
  | S k, _ :: _ => chunks k (chunk st (words 16 bytes)) (skipn 64 bytes)
  | _, _ => st
  end.

Definition hex_digit (n : Z) : ascii :=
  if (n <? 10)%Z then ascii_of_N (Z.to_N (48 + n))
  else ascii_of_N (Z.to_N (87 + n)).

Definition hex_byte (b : Z) : string :=
  String (hex_digit (Z.shiftr b 4))
         (String (hex_digit (Z.land b 15)) EmptyString).

Definition md5 (s : string) : string :=
  let bytes := pad (utf8 s) in
  let '(a, b, c, d) :=
    chunks (List.length bytes)
           (1732584193, 4023233417, 2562383102, 271733878)%Z bytes in
  String.concat EmptyString
    (map hex_byte (le_bytes 4 a ++ le_bytes 4 b ++ le_bytes 4 c
                             ++ le_bytes 4 d)%list).

End Md5.

Module RefDate.
Import Num.

Definition days_from_civil (y m d : Z) : Z :=
  let y := (if m <=? 2 then y - 1 else y)%Z in
  let era := (y / 400)%Z in
  let yoe := (y - era * 400)%Z in
  let doy := ((153 * (if 2 <? m then m - 3 else m + 9) + 2) / 5 + d - 1)%Z in
  let doe := (yoe * 365 + yoe / 4 - yoe / 100 + doy)%Z in
  (era * 146097 + doe - 719468)%Z.

Definition civil_from_days (z : Z) : Z * Z * Z :=
  let z := (z + 719468)%Z in
  let era := (z / 146097)%Z in
  let doe := (z - era * 146097)%Z in
  let yoe := ((doe - doe / 1460 + doe / 36524 - doe / 146096) / 365)%Z in
  let doy := (doe - (365 * yoe + yoe / 4 - yoe / 100))%Z in
  let mp := ((5 * doy + 2) / 153)%Z in
  let d := (doy - (153 * mp + 2) / 5 + 1)%Z in
  let m := (if mp <? 10 then mp + 3 else mp - 9)%Z in
  ((if m <=? 2 then yoe + era * 400 + 1 else yoe + era * 400)%Z, m, d).

(** Exactly [n] digits, as a number. *)
Definition number (n : nat) (s : string) : option (Z * string) :=
  match skip_n is_digit n s with
  | Some rest =>
      match digits_val 10 None (take n s) with
      | Some v => Some (v, rest)
      | None => None
      end
  | None => None
  end.

Definition within (lo hi x : Z) : bool := ((lo <=? x) && (x <=? hi))%Z.

(** Seconds since the epoch of a date of the supported shape. *)
Definition parse (text : string) : option Z :=
  y <- number 4 text ;;
  r <- strip_prefix "-" (snd y) ;;
  mo <- number 2 r ;;
  r <- strip_prefix "-" (snd mo) ;;
  d <- number 2 r ;;
  r <- strip_prefix "T" (snd d) ;;
  h <- number 2 r ;;
  r <- strip_prefix ":" (snd h) ;;
  mi <- number 2 r ;;
  r <- strip_prefix ":" (snd mi) ;;
  s <- number 2 r ;;
  if (String.eqb (snd s) "Z" || String.eqb (snd s) "+00:00")
     && within 1 12 (fst mo) && within 1 31 (fst d)
     && (within 0 23 (fst h)
         || ((fst h =? 24) && (fst mi =? 0) && (fst s =? 0))%Z)
     && within 0 59 (fst mi) && within 0 59 (fst s)
  then
    let t := (days_from_civil (fst y) (fst mo) (fst d) * 86400
              + fst h * 3600 + fst mi * 60 + fst s)%Z in
    if within 0 9999 (fst (fst (civil_from_days (t / 86400))))
    then Some t else None
  else None.

Definition padded (width : nat) (z : Z) : string :=
  let s := Z_to_string z in
  String.concat EmptyString (repeat "0" (width - String.length s)) ++ s.

Definition clock (t : Z) : string :=
  let secs := (t mod 86400)%Z in
  padded 2 (secs / 3600) ++ ":" ++ padded 2 (secs / 60 mod 60) ++ ":"
    ++ padded 2 (secs mod 60).

Definition toISOString (text : string) : option string :=
  t <- parse text ;;
  (let '(y, m, d) := civil_from_days (t / 86400) in
   Some (padded 4 y ++ "-" ++ padded 2 m ++ "-" ++ padded 2 d ++ "T"
           ++ clock t ++ ".000Z")).

Definition day_names : list string :=
  [ "Sun"; "Mon"; "Tue"; "Wed"; "Thu"; "Fri"; "Sat" ].

Definition month_names : list string :=
  [ "Jan"; "Feb"; "Mar"; "Apr"; "May"; "Jun";
    "Jul"; "Aug"; "Sep"; "Oct"; "Nov"; "Dec" ].

Definition toUTCString (text : string) : string :=
  match parse text with
  | None => "Invalid Date"
  | Some t =>
      let days := (t / 86400)%Z in
      let '(y, m, d) := civil_from_days days in
      nth (Z.to_nat ((days + 4) mod 7)) day_names EmptyString ++ ", "
        ++ padded 2 d ++ " "
        ++ nth (Z.to_nat (m - 1)) month_names EmptyString ++ " "
        ++ padded 4 y ++ " " ++ clock t ++ " GMT"
  end.

(** Comparison by code units, which is what [localeCompare] gives on the
    digit strings the consolidator sorts. *)
Definition compare_units (a b : string) : comparison := String.compare a b.

End RefDate.

Definition reference_platform : Platform :=
  Build_Platform RefDate.toISOString RefDate.toUTCString Md5.md5
                 RefDate.compare_units.

(** ** The wording of the design document

    Definitions that follow the text of the document rather than the code,
    to compare the code with. *)

Module Stated.

(** A list with each value kept once, at the place it is first seen. *)
Fixpoint first_seen (l : list string) : list string :=
  match l with
  | [] => []
  | x :: t => x :: filter (fun y => negb (String.eqb y x)) (first_seen t)
  end.

Definition terms (field : Post -> option (list string)) (p : Post)
  : list string :=
  match field p with
  | Some l => l
  | None => []
  end.

(** The union of a field over the members of a group, in first-seen order
    across the group, duplicates removed. *)
Definition union_of (field : Post -> option (list string))
    (group : list Post) : list string :=
  first_seen (flat_map (terms field) group).

End Stated.

(** ** Predicates of the statements *)

(** A pattern that uses up input whenever it matches. *)
Definition consuming (m : matcher) : Prop :=
  forall s rep rest,
    m s = Some (rep, rest) -> (String.length rest < String.length s)%nat.

(** The order of an array sorted by descending size. *)
Definition larger_first (a b : Post) : Prop :=
  (Consolidator.content_size b <= Consolidator.content_size a)%nat.

(** The fields [mergePosts] leaves alone. *)
Definition same_body (a b : Post) : Prop :=
  id a = id b /\ classes a = classes b /\ title a = title b
  /\ content a = content b /\ excerpt a = excerpt b /\ date a = date b
  /\ author a = author b /\ permalink a = permalink b
  /\ fullHtml a = fullHtml b /\ uniqueId a = uniqueId b.

(** Every group of the grouping map holds a post. *)
Definition inhabited_groups (groups : list (string * list Post)) : Prop :=
  Forall (fun g => snd g <> []) groups.


(** ** Examples shared by the statements below *)

Module Examples.

(** A run whose clock reads 2023-11-14 22:13:20 UTC. *)
Definition env_a : Env :=
  mkEnv (fun _ => 1700000000000%Z) (fun _ => 7%Z)
        (fun _ => "2023-11-14T22:13:20.000Z")
        "Tue, 14 Nov 2023 22:13:20 GMT".

(** The next run: one millisecond later on the clock, the generation
    timestamp held equal. *)
Definition env_b : Env :=
  mkEnv (fun _ => 1700000000001%Z) (fun _ => 7%Z)
        (fun _ => "2023-11-14T22:13:20.001Z")
        "Tue, 14 Nov 2023 22:13:20 GMT".

Definition with_text (i t c : option string) (ts : option string) : Post :=
  mkPost i None t c None None None None None None None
         (Some (mkMeta None ts None None None None None None)) None.

(** An archive prefix, and an address wrapped in it four times. *)
Definition wrap : string := "https://web.archive.org/web/20230322120550if_/".

Definition nested4 : string :=
  wrap ++ wrap ++ wrap ++ wrap ++ "https://example.com/x".

(** An image of an archived page: the archive rewrites the address of the
    image to a protocol-relative one under its own host. *)
Definition archived_image : string :=
  "<img src=" ++ dq
  ++ "//web.archive.org/web/20230322120550im_/http://www.lnexun.com/a.png"
  ++ dq ++ ">".

(** A record with a placeholder id and a capture timestamp, and one with
    a placeholder id and nothing else. *)
Definition stamped_placeholder : Post :=
  with_text (Some "post-0") None None (Some "20230330175424").

Definition empty_placeholder : Post :=
  with_text (Some "post-0") (Some EmptyString) (Some EmptyString) None.

(** The authors of four posts, the first of them met twice. *)
Definition unknown_authors : list (option string) :=
  [Some "Zed Q"; Some "Yan P"; Some "Zed Q"; Some "Xu R"].

Definition tom_post : Post :=
  with_text (Some "post-12") (Some "Tom & Jerry <3")
            (Some "<p>Hello</p>") (Some "20230330175424").

(** Two captures of one post, the shorter one first. *)
Definition short_capture : Post :=
  mkPost (Some "post-1") None (Some "Launch day") (Some "short") None None
         None (Some ["a"]) (Some ["news"]) None None
         (Some (mkMeta None (Some "20200101000000") None None None None
                       None None)) None.

Definition long_capture : Post :=
  mkPost (Some "post-1") None (Some "Launch day")
         (Some "a much longer capture") None None
         None (Some ["b"]) (Some ["update"; "news"]) None None
         (Some (mkMeta None (Some "20200601000000") None None None None
                       None None)) None.

Definition duplicate_group : list Post := [short_capture; long_capture].

(** A post that is alone in its group. *)
Definition lone_post : Post :=
  mkPost (Some "post-2") None (Some "Alone") (Some "text") None None
         None (Some ["a"; "a"]) (Some []) None None None None.

(** A post with a title and no capture timestamp. *)
Definition untimed_post : Post :=
  mkPost None None (Some "Hello world") (Some "<p>Hi</p>") None None
         (Some "Aurojit Panda") None None None None None None.

(** Documents: one that is not callable, one whose probe throws, one whose
    first selector throws and that matches nothing else, and one snapshot
    that failed. *)
Definition not_callable : Extractor.Document :=
  Extractor.mkDocument false (Ok 1%nat) (fun _ => Ok []) (Ok None).

Definition probe_throws : Extractor.Document :=
  Extractor.mkDocument true (Raise "boom") (fun _ => Ok []) (Ok None).

Definition selector_throws : Extractor.Document :=
  Extractor.mkDocument true (Ok 1%nat)
    (fun sel => if String.eqb sel "article"
                then Raise "Unmatched selector" else Ok [])
    (Ok None).

Definition failed_snapshot : Consolidator.SnapshotResult :=
  Consolidator.mkSnapshot "20230330175424" "http://www.lnexun.com/"
    "https://web.archive.org/web/20230330175424/http://www.lnexun.com/"
    (Some []) false (Some "timeout of 30000ms exceeded") 0 "unknown".

End Examples.

(** ** Further vocabulary of the statements *)

(** Every character of a text is of the class [p]. *)
Fixpoint all_chars (p : ascii -> bool) (s : string) : bool :=
  match s with
  | EmptyString => true
  | String c t => p c && all_chars p t
  end.

(** A text rewritten one character at a time. *)
Fixpoint flat_map_chars (f : ascii -> string) (s : string) : string :=
  match s with
  | EmptyString => EmptyString
  | String c t => f c ++ flat_map_chars f t
  end.

(** The entity [escapeXml] gives a character, or the character itself. *)
Definition escape_char (c : ascii) : string :=
  if Ascii.eqb c "&" then "&amp;"
  else if Ascii.eqb c "<" then "&lt;"
  else if Ascii.eqb c ">" then "&gt;"
  else if (code c =? 34)%N then "&quot;"
  else if Ascii.eqb c "'" then "&#039;"
  else String c EmptyString.

(** The characters that end or open markup or an attribute value. *)
Definition is_markup_char (c : ascii) : bool :=
  Ascii.eqb c "<" || Ascii.eqb c ">" || (code c =? 34)%N || Ascii.eqb c "'".

(** The characters of a slug: lower-case letters, digits, underscore and
    hyphen. *)
Definition is_slug_safe (c : ascii) : bool :=
  is_lower c || is_digit c || (code c =? 95)%N || (code c =? 45)%N.

(** The one substitution of [cdata]. *)
Definition close_mark : matcher := literal "]]>" "]]&gt;".

(** The shape of a finished slug: no two hyphens in a row, none at the
    front, none at the end. *)
Fixpoint no_double_hyphen (s : string) : bool :=
  match s with
  | EmptyString => true
  | String a t =>
      match t with
      | String b _ => negb (Slug.is_hyphen a && Slug.is_hyphen b)
      | EmptyString => true
      end && no_double_hyphen t
  end.

Definition starts_with_hyphen (s : string) : bool :=
  match s with
  | String c _ => Slug.is_hyphen c
  | EmptyString => false
  end.

Fixpoint ends_with_hyphen (s : string) : bool :=
  match s with
  | EmptyString => false
  | String c t => if is_empty t then Slug.is_hyphen c else ends_with_hyphen t
  end.

Definition well_shaped (s : string) : bool :=
  all_chars is_slug_safe s && no_double_hyphen s
  && negb (starts_with_hyphen s) && negb (ends_with_hyphen s).

(** ** Fetching a snapshot ([fetch_posts.js]) *)

Module Fetch.

Definition MAX_RETRIES : nat := 3.

(** [buildWaybackUrl]. *)
Definition buildWaybackUrl (timestamp originalUrl : string) : string :=
  "https://web.archive.org/web/" ++ timestamp ++ "/" ++ originalUrl.

Section Model.
Import Extractor Consolidator.

(** [response.data] as the checks of [fetchSnapshot] see it: a falsy
    value, a truthy value that is no string with what [typeof] says of
    it, or a text. *)
Inductive ResponseData : Type :=
| Falsy
| NonString (type_name : string)
| Text (s : string).

Record Response : Type := mkResponse {
  data : ResponseData;
  (** [response.headers['content-type']]. *)
  content_type : option string
}.

(** What the call reaches outside the program: the answer of the archive
    to the request of each attempt, and the parser. *)
Record Network : Type := mkNetwork {
  get : nat -> string -> Result Response;
  load : string -> Result Document
}.

Section Snapshot.
Variable env : Env.
Variable net : Network.
Variables timestamp originalUrl : string.

(** The body of the [try] block, at the attempt numbered [retryCount].
    The log lines and the pauses leave nothing in the result. *)
Definition attempt (retryCount : nat) : Result SnapshotResult :=
  let waybackUrl := buildWaybackUrl timestamp originalUrl in
  match get net retryCount waybackUrl with
  | Raise msg => Raise msg
  | Ok response =>
      match data response with
      | Falsy => Raise "No response data received"
      | NonString type_name =>
          Raise ("Invalid response data type: " ++ type_name)
      | Text html =>
          if is_empty html then Raise "No response data received"
          else
            match load net html with
            | Raise msg => Raise ("Failed to parse HTML: " ++ msg)
            | Ok doc =>
                if negb (is_function doc)
                then Raise "Cheerio failed to initialize properly"
                else
                  match extractWordPressPosts env retryCount waybackUrl
                                              timestamp doc with
                  | Raise msg => Raise msg
                  | Ok posts =>
                      Ok (mkSnapshot timestamp originalUrl waybackUrl
                            (Some posts) true None
                            (Z.of_nat (String.length html))
                            (or_else (content_type response) "unknown"))
                  end
            end
      end
  end.

(** The record returned when the last attempt has failed. *)
Definition failed (message : string) : SnapshotResult :=
  mkSnapshot timestamp originalUrl (buildWaybackUrl timestamp originalUrl)
             (Some []) false (Some message) 0 "unknown".

(** The recursion of [fetchSnapshot]; [remaining] is
    [MAX_RETRIES - retryCount], the retries still allowed. *)
Fixpoint retry (remaining retryCount : nat) : SnapshotResult :=
  match attempt retryCount with
  | Ok result => result
  | Raise message =>
      match remaining with
      | S remaining' => retry remaining' (S retryCount)
      | O => failed message
      end
  end.

Definition fetchSnapshot (retryCount : nat) : SnapshotResult :=
  retry (MAX_RETRIES - retryCount) retryCount.

End Snapshot.

End Model.

End Fetch.

(** A character other than the slash. *)
Definition not_slash (c : ascii) : bool := negb (Ascii.eqb c "/").

(** One of the two protocols an address may start with. *)
Definition is_scheme (s : string) : Prop := s = "http://" \/ s = "https://".

(** The state of the pool after at most [n] calls: no more than [n]
    identities, distinct keys, each identity under its login and with an
    id from 1001 to 1000 + [n]. *)
Definition pool_ok (n : nat) (st : Identity.CreatedUsers) : Prop :=
  (List.length st <= n)%nat
  /\ NoDup (map fst st)
  /\ Forall (fun e => login (snd e) = fst e
                      /\ (1000 < a_id (snd e) <= 1000 + Z.of_nat n)%Z) st.

(** The two lower-case property names an object literal inherits. *)
Definition inherited_name (l : string) : Prop :=
  l = "constructor" \/ l = "__proto__".

(** The value of a decimal numeral read from the left, as [parseInt]
    accumulates it. *)
Fixpoint uint_val (acc : Z) (d : Decimal.uint) : Z :=
  match d with
  | Decimal.Nil => acc
  | Decimal.D0 l => uint_val (acc * 10 + 0) l
  | Decimal.D1 l => uint_val (acc * 10 + 1) l
  | Decimal.D2 l => uint_val (acc * 10 + 2) l
  | Decimal.D3 l => uint_val (acc * 10 + 3) l
  | Decimal.D4 l => uint_val (acc * 10 + 4) l
  | Decimal.D5 l => uint_val (acc * 10 + 5) l
  | Decimal.D6 l => uint_val (acc * 10 + 6) l
  | Decimal.D7 l => uint_val (acc * 10 + 7) l
  | Decimal.D8 l => uint_val (acc * 10 + 8) l
  | Decimal.D9 l => uint_val (acc * 10 + 9) l
  end.

(** A post that [extractPostId] numbers by its capture timestamp: no number
    in the id or in the classes, and a timestamp of at most 15 digits (the
    range where JavaScript numbers are exact) that does not read as zero. *)
Definition numbered_by_timestamp (post : Post) (ts : string) : Prop :=
  match id post with Some s => Wxr.all_digits s | None => false end = false
  /\ Wxr.post_number_in (id post) = None
  /\ Wxr.post_number_in (classes post) = None
  /\ post_timestamp post = Some ts
  /\ Wxr.all_digits ts = true
  /\ (String.length ts <= 15)%nat
  /\ Num.parseInt ts <> Some 0%Z.

(** ** More examples *)

Module MoreExamples.

(** An element with no id attribute and nothing else of note. *)
Definition bare_element : Extractor.Element :=
  Extractor.mkElement None None "A title" None EmptyString None EmptyString
                      [] [] EmptyString None.

(** Two whole-page posts, captured at different instants. *)
Definition page_at (ts : string) : Post :=
  mkPost (Some "page-content") (Some "page-content") (Some "Home")
         (Some "<p>Welcome</p>") (Some EmptyString) None (Some EmptyString)
         (Some []) (Some []) (Some "u") (Some "<p>Welcome</p>")
         (Some (mkMeta (Some "u") (Some ts) (Some "page-content") None
                       (Some "page") None None None)) None.

Definition page_early : Post := page_at "20230330175424".
Definition page_late : Post := page_at "20230601000000".

End MoreExamples.

(** The text [formatWordPressDate] hands to [Date]: the digit groups of the
    timestamp, with noon for a time that is not there. *)
Definition date_text (ts : string) : string :=
  Wxr.substring 0 4 ts ++ "-" ++ Wxr.substring 4 6 ts ++ "-"
    ++ Wxr.substring 6 8 ts ++ "T"
    ++ Wxr.or_str (Wxr.substring 8 10 ts) "12" ++ ":"
    ++ Wxr.or_str (Wxr.substring 10 12 ts) "00" ++ ":"
    ++ Wxr.or_str (Wxr.substring 12 14 ts) "00" ++ "Z".

(** A post whose capture timestamp the platform cannot read as a date. *)
Definition bad_date {P : Platform} (post : Post) : Prop :=
  exists ts,
    post_timestamp post = Some ts /\ ts <> EmptyString
    /\ date_toISOString (date_text ts) = None.

Module MoreExamples2.

(** A post whose timestamp holds a year and nothing else. *)
Definition year_only_post : Post :=
  Examples.with_text (Some "post-3") (Some "A title") (Some "text")
                     (Some "2023").

End MoreExamples2.

(** The number of posts held by the groups. *)
Definition group_sizes (groups : list (string * list Post)) : nat :=
  list_sum (map (fun g => List.length (snd g)) groups).

(** The posts the grouping map holds under one key. *)
Definition members (key : string) (groups : list (string * list Post))
  : list Post :=
  flat_map (fun g => if String.eqb (fst g) key then snd g else []) groups.

(** The fields of a post that neither the merge nor the final numbering
    writes. *)
Definition kept_fields (a b : Post) : Prop :=
  id a = id b /\ classes a = classes b /\ title a = title b
  /\ content a = content b /\ excerpt a = excerpt b /\ date a = date b
  /\ author a = author b /\ permalink a = permalink b
  /\ fullHtml a = fullHtml b.

(** A post that names the capture it was read from. *)
Definition stamped (url ts : string) (p : Post) : Prop :=
  exists m,
    metadata p = Some m /\ sourceUrl m = Some url /\ timestamp m = Some ts.

(** A comparison that orders its arguments: swapping them reverses the
    answer, and not-after is transitive. *)
Definition consistent_order (cmp : string -> string -> comparison) : Prop :=
  (forall a b, cmp a b = CompOpp (cmp b a))
  /\ (forall a b c, cmp a b <> Gt -> cmp b c <> Gt -> cmp a c <> Gt).

(** [b] does not sort after [a] by capture timestamp. *)
Definition not_older {P : Platform} (a b : Post) : Prop :=
  locale_compare (Consolidator.sort_key b) (Consolidator.sort_key a) <> Gt.

Module MoreExamples3.

(** Two snapshots, the older one read first. *)
Definition two_snapshots : list Consolidator.SnapshotResult :=
  [ Consolidator.mkSnapshot "20200101000000" "http://www.lnexun.com/"
      "https://web.archive.org/web/20200101000000/http://www.lnexun.com/"
      (Some [Examples.short_capture]) true None 5 "text/html";
    Consolidator.mkSnapshot "20230330175424" "http://www.lnexun.com/"
      "https://web.archive.org/web/20230330175424/http://www.lnexun.com/"
      (Some [Examples.tom_post]) true None 12 "text/html" ].

End MoreExamples3.

(** One text is found inside another. *)
Definition occurs_in (x s : string) : Prop := exists a b, s = a ++ x ++ b.

(** Every value that [a] has in a list field, [b] has too. *)
Definition keeps_terms (field : Post -> option (list string)) (a b : Post)
  : Prop :=
  forall l c, field a = Some l -> In c l ->
    exists l', field b = Some l' /\ In c l'.

(** * Properties *)

(** ** Normaliser *)

Section ReplaceFacts.

(** More fuel than the length of the text never changes a replacement by
    a consuming pattern: [replace_all] has enough. *)
Lemma replace_fuel_enough (m : matcher) :
  consuming m ->
  forall n1 n2 s,
    (String.length s < n1)%nat -> (String.length s < n2)%nat ->
    replace_fuel m n1 s = replace_fuel m n2 s.
Proof.
  intro C. induction n1 as [|n1 IH]; intros n2 s H1 H2; [lia|].
  destruct n2 as [|n2]; [lia|]. simpl.
  destruct (m s) as [[rep rest]|] eqn:E.
  - f_equal. apply C in E. apply IH; lia.
  - destruct s as [|c t]; [reflexivity|]. simpl in H1, H2.
    f_equal. apply IH; lia.
Qed.

Lemma replace_all_fuel (m : matcher) (s : string) (extra : nat) :
  consuming m ->
  replace_fuel m (S (String.length s) + extra) s = replace_all m s.
Proof.
  intro C. unfold replace_all. apply replace_fuel_enough; [exact C| |]; lia.
Qed.

Lemma strip_prefix_length (p s r : string) :
  strip_prefix p s = Some r ->
  String.length s = (String.length p + String.length r)%nat.
Proof.
  revert s. induction p as [|a p IH]; intros s H; simpl in H.
  - now injection H as ->.
  - destruct s as [|b s]; [discriminate|].
    destruct (Ascii.eqb a b); [|discriminate].
    simpl. now rewrite (IH s H).
Qed.

Lemma span_length (p : ascii -> bool) (s a b : string) :
  span p s = (a, b) ->
  String.length s = (String.length a + String.length b)%nat.
Proof.
  revert a b. induction s as [|c t IH]; intros a b H; simpl in H.
  - now injection H as <- <-.
  - destruct (p c).
    + destruct (span p t) as [a' b']. injection H as <- <-.
      simpl. now rewrite (IH a' b' eq_refl).
    + now injection H as <- <-.
Qed.

Lemma skip_n_length (p : ascii -> bool) (n : nat) (s r : string) :
  skip_n p n s = Some r -> String.length s = (n + String.length r)%nat.
Proof.
  revert s. induction n as [|n IH]; intros s H; simpl in H.
  - now injection H as ->.
  - destruct s as [|c t]; [discriminate|].
    destruct (p c); [|discriminate]. simpl. now rewrite (IH t H).
Qed.

Lemma literal_consuming (p rep : string) :
  p <> EmptyString -> consuming (literal p rep).
Proof.
  intros N s rep' rest H. unfold literal in H.
  destruct (strip_prefix p s) as [r|] eqn:E; [|discriminate].
  injection H as _ <-. apply strip_prefix_length in E.
  destruct p; [congruence|]. simpl in E. lia.
Qed.

Lemma run_of_consuming (p : ascii -> bool) : consuming (Slug.run_of p).
Proof.
  intros s rep rest H. unfold Slug.run_of in H.
  destruct (span p s) as [run r] eqn:E.
  destruct run; simpl in H; [discriminate|].
  injection H as _ <-. apply span_length in E. simpl in E. lia.
Qed.

End ReplaceFacts.

Section NormalizerFacts.
Import Normalizer.

Lemma scheme_length (s t r : string) :
  scheme s = Some (t, r) -> (String.length r < String.length s)%nat.
Proof.
  unfold scheme. intro H.
  destruct (strip_prefix "https://" s) as [a|] eqn:E1.
  - injection H as _ <-. apply strip_prefix_length in E1. simpl in E1. lia.
  - destruct (strip_prefix "http://" s) as [a|] eqn:E2; [|discriminate].
    injection H as _ <-. apply strip_prefix_length in E2. simpl in E2. lia.
Qed.

Lemma archive_stamp_length (s r : string) :
  archive_stamp s = Some r -> (String.length r < String.length s)%nat.
Proof.
  unfold archive_stamp. intro H.
  destruct (strip_prefix "web.archive.org/web/" s) as [a|] eqn:E1;
    [|discriminate].
  destruct (skip_n is_digit 14 a) as [b|] eqn:E2; [|discriminate].
  destruct (span is_alpha_us b) as [u v] eqn:E3. cbn [snd] in H.
  apply strip_prefix_length in E1, H. apply skip_n_length in E2.
  apply span_length in E3. simpl in *. lia.
Qed.

(** None of the nine substitutions can match the empty text. *)
Lemma patterns_consuming : Forall consuming patterns.
Proof.
  unfold patterns.
  repeat constructor;
    try (apply literal_consuming; discriminate);
    intros s rep rest H.
  - unfold fullArchivePattern in H.
    destruct (scheme s) as [[t a]|] eqn:E1; [|discriminate].
    destruct (archive_stamp (snd (t, a))) as [b|] eqn:E2; [|discriminate].
    destruct (scheme b) as [[t' c]|] eqn:E3; [|discriminate].
    simpl in H. destruct (span is_url_char c) as [u v] eqn:E4.
    destruct (is_empty u); [discriminate|]. injection H as _ <-.
    apply scheme_length in E1, E3. apply archive_stamp_length in E2.
    apply span_length in E4. simpl in *. lia.
  - unfold basicArchivePattern in H.
    destruct (scheme s) as [[t a]|] eqn:E1; [|discriminate].
    destruct (archive_stamp (snd (t, a))) as [b|] eqn:E2; [|discriminate].
    destruct (span is_url_char b) as [u v] eqn:E4.
    apply scheme_length in E1. apply archive_stamp_length in E2.
    apply span_length in E4. simpl in *.
    destruct (is_empty u); [discriminate|].
    destruct (negb _ && negb _); injection H as _ <-; lia.
  - unfold remainingArchivePattern in H.
    destruct (archive_stamp s) as [b|] eqn:E; [|discriminate].
    injection H as _ <-. now apply archive_stamp_length.
  - unfold doubleProtocol in H.
    destruct (scheme s) as [[t a]|] eqn:E1; [|discriminate].
    destruct (scheme (snd (t, a))) as [[t' b]|] eqn:E2; [|discriminate].
    injection H as _ <-. apply scheme_length in E1, E2. simpl in *. lia.
  - unfold lnexunPort in H.
    destruct (scheme s) as [[t a]|] eqn:E1; [|discriminate].
    destruct (strip_prefix _ (snd (t, a))) as [b|] eqn:E2; [|discriminate].
    injection H as _ <-. apply scheme_length in E1.
    apply strip_prefix_length in E2. simpl in *. lia.
  - unfold lnexunWww in H.
    destruct (scheme s) as [[t a]|] eqn:E1; [|discriminate].
    destruct (strip_prefix _ (snd (t, a))) as [b|] eqn:E2; [|discriminate].
    injection H as _ <-. apply scheme_length in E1.
    apply strip_prefix_length in E2. simpl in *. lia.
Qed.

Lemma replace_fuel_no_match (m : matcher) :
  forall fuel s, no_match m s = true -> replace_fuel m fuel s = s.
Proof.
  induction fuel as [|fuel IH]; intros s H; [reflexivity|].
  simpl. destruct s as [|c t]; simpl in H.
  - destruct (m EmptyString) as [[rep rest]|]; [discriminate|reflexivity].
  - destruct (m (String c t)) as [[rep rest]|]; [discriminate|].
    now rewrite IH.
Qed.

Lemma replace_all_no_match (m : matcher) (s : string) :
  no_match m s = true -> replace_all m s = s.
Proof. apply replace_fuel_no_match. Qed.

Lemma settled_fixed (s : string) :
  settled s = true -> cleanWebArchiveUrls s = s.
Proof.
  unfold settled, cleanWebArchiveUrls, patterns. simpl forallb. intro H.
  repeat (apply andb_prop in H; destruct H as [?H H]).
  destruct (is_empty s); [reflexivity|].
  simpl fold_left.
  repeat (rewrite (replace_all_no_match _ s) by assumption).
  reflexivity.
Qed.

(** C5 fails by a defect of the code.  The pass that is there to clean
    up doubled protocols runs once, replaces three protocols in a row by
    two, and comes before the passes that write a protocol themselves;
    so the result of one call can hold a doubled protocol, which that very
    pass still matches and only a second call removes.  Shown at the image
    of an archived page and at an address wrapped four times. *)
Theorem normalize_leaves_doubled_protocol :
  cleanWebArchiveUrls Examples.archived_image
  = "<img src=" ++ dq ++ "https://https://lnexun.com/a.png" ++ dq ++ ">"
  /\ no_match doubleProtocol (cleanWebArchiveUrls Examples.archived_image)
     = false
  /\ cleanWebArchiveUrls (cleanWebArchiveUrls Examples.archived_image)
     = "<img src=" ++ dq ++ "https://lnexun.com/a.png" ++ dq ++ ">"
  /\ cleanWebArchiveUrls Examples.nested4 = "https://https://example.com/x"
  /\ no_match doubleProtocol (cleanWebArchiveUrls Examples.nested4) = false
  /\ cleanWebArchiveUrls (cleanWebArchiveUrls Examples.nested4)
     = "https://example.com/x"
  /\ cleanWebArchiveUrls (cleanWebArchiveUrls Examples.archived_image)
     <> cleanWebArchiveUrls Examples.archived_image
  /\ cleanWebArchiveUrls (cleanWebArchiveUrls Examples.nested4)
     <> cleanWebArchiveUrls Examples.nested4.
Proof.
  repeat split; try (vm_compute; reflexivity);
    intro H; vm_compute in H; discriminate H.
Qed.

End NormalizerFacts.

(** ** Identity resolver *)

Section IdentityFacts.
Import Identity.

(** C3 at the two keys of the table that hold capitals: the key is in the
    table, yet the resolver answers with a lower-cased login of its own
    making and adds an identity to the pool. *)
Theorem mixed_case_login_is_synthesized :
  map_has "MadhavNarayan" AUTHORS = true
  /\ getAuthorLogin (Some "MadhavNarayan") []
     = ("madhavnarayan",
        [("madhavnarayan",
          mkAuthor 1001 "madhavnarayan" "ananay+madhavnarayan@exunclan.com"
                   "MadhavNarayan" "MadhavNarayan" EmptyString)])
  /\ map_has "TanayVardhan" AUTHORS = true
  /\ getAuthorLogin (Some "TanayVardhan") []
     = ("tanayvardhan",
        [("tanayvardhan",
          mkAuthor 1001 "tanayvardhan" "ananay+tanayvardhan@exunclan.com"
                   "TanayVardhan" "TanayVardhan" EmptyString)]).
Proof. repeat split; vm_compute; reflexivity. Qed.

(** The keys of the table written in lower case do resolve to themselves,
    with nothing synthesized; two keys are not in lower case. *)
Lemma lower_case_logins_resolve :
  forallb (fun e =>
             let key := fst e in
             if String.eqb (toLowerCase key) key
             then let r := getAuthorLogin (Some key) [] in
                  String.eqb (fst r) key
                  && match snd r with [] => true | _ => false end
             else true) AUTHORS = true
  /\ map fst (filter (fun e => negb (String.eqb (toLowerCase (fst e)) (fst e)))
                     AUTHORS)
     = ["MadhavNarayan"; "TanayVardhan"].
Proof. split; vm_compute; reflexivity. Qed.

(** C2 at a first pass over four posts by three unknown authors, the
    first of them met twice: the pool ends with the id 1003 given to two
    identities. *)
Theorem synthesized_ids_collide :
  map (fun e => (fst e, a_id (snd e)))
      (resolve_all Examples.unknown_authors [])
  = [("zed.q", 1003%Z); ("yan.p", 1002%Z); ("xu.r", 1003%Z)]
  /\ ~ NoDup (all_ids (resolve_all Examples.unknown_authors [])).
Proof.
  split; [vm_compute; reflexivity|].
  intro H.
  assert (E : all_ids (resolve_all Examples.unknown_authors [])
              = (map (fun e => a_id (snd e)) AUTHORS
                   ++ [1003%Z; 1002%Z; 1003%Z])%list)
    by (vm_compute; reflexivity).
  rewrite E in H.
  apply NoDup_app_remove_l in H.
  inversion H as [|x l Hnotin _]; subst.
  apply Hnotin. right. left. reflexivity.
Qed.

End IdentityFacts.

(** ** Grouping key *)

Section KeyFacts.
Import Consolidator.
Context {P : Platform}.

(** C8, amended: two calls on the same record, whatever the clock reads at
    each, give the same key, unless the record has neither a usable id nor
    a title slug nor content nor a timestamp. *)
Theorem generatePostId_stable (post : Post) (now1 now2 : Z) :
  key_reads_clock post = false ->
  generatePostId now1 post = generatePostId now2 post.
Proof.
  unfold key_reads_clock, generatePostId. intro H.
  destruct (match id post with
            | Some s => negb (is_empty s) && negb (is_placeholder_id s)
            | None => false
            end); [reflexivity|].
  destruct (title_slug post); [reflexivity|].
  destruct (truthy (content post)); [reflexivity|].
  simpl in H. apply negb_false_iff in H.
  unfold truthy in H. unfold or_else.
  destruct (post_timestamp post) as [t|]; [|discriminate].
  destruct (is_empty t); [discriminate|reflexivity].
Qed.

End KeyFacts.

Lemma generatePostId_stable_witness :
  Consolidator.key_reads_clock Examples.stamped_placeholder = false
  /\ Consolidator.generatePostId (P := reference_platform) 1
       Examples.stamped_placeholder
     = Consolidator.generatePostId (P := reference_platform) 2
         Examples.stamped_placeholder.
Proof.
  split.
  - vm_compute. reflexivity.
  - apply (generatePostId_stable (P := reference_platform)).
    vm_compute. reflexivity.
Defined.

(** C8 as stated fails at a record with a placeholder id and no title,
    content or timestamp: the key is the clock reading of the call. *)
Lemma generatePostId_unstable :
  Consolidator.generatePostId (P := reference_platform) 1700000000000
    Examples.empty_placeholder
  = "post-1700000000000"
  /\ Consolidator.generatePostId (P := reference_platform) 1700000000001
       Examples.empty_placeholder
     = "post-1700000000001"
  /\ Consolidator.generatePostId (P := reference_platform) 1700000000000
       Examples.empty_placeholder
     <> Consolidator.generatePostId (P := reference_platform) 1700000000001
          Examples.empty_placeholder.
Proof.
  repeat split; try (vm_compute; reflexivity).
  intro H. vm_compute in H. discriminate H.
Qed.

(** ** Escaping of the item title *)

Section TitleFacts.
Import Wxr Xml.

(** Whatever the post, its item opens with the title as it stands. *)
Lemma title_interpolated_raw {P : Platform} (env : Env) (post : Post)
    (index : nat) (st st' : Identity.CreatedUsers) (xml : string) :
  convertPostToWxr env post index st = Ok (xml, st') ->
  exists rest,
    xml = nl ++ tab ++ "<item>" ++ nl ++ tab ++ tab ++ "<title>"
             ++ or_else (title post) "Untitled Post" ++ "</title>" ++ rest.
Proof.
  unfold convertPostToWxr. intro H.
  destruct (Identity.getAuthorLogin (author post) st) as [authorLogin st1].
  destruct (formatWordPressDate env index (post_timestamp post))
    as [publishDate|]; [|discriminate].
  injection H as <- _.
  eexists. cbn [String.concat]. reflexivity.
Qed.

(** C6 at a title with an ampersand and an angle bracket: the item carries
    the title as it is, and its escaped form nowhere. *)
Theorem title_emitted_unescaped :
  exists xml st,
    convertPostToWxr (P := reference_platform) Examples.env_a Examples.tom_post 0 []
    = Ok (xml, st)
    /\ contains "<title>Tom & Jerry <3</title>" xml = true
    /\ contains (escapeXml "Tom & Jerry <3") xml = false
    /\ escapeXml "Tom & Jerry <3" = "Tom &amp; Jerry &lt;3".
Proof.
  eexists. eexists. split; [vm_compute; reflexivity|].
  repeat split; vm_compute; reflexivity.
Qed.

End TitleFacts.

(** ** Merging a group *)

Section MergeFacts.
Import Consolidator Stated.
Lemma insert_desc_perm (x : Post) (l : list Post) :
  Permutation (insert_desc x l) (x :: l).
Proof.
  induction l as [|y l IH]; simpl; [apply Permutation_refl|].
  destruct (content_size x <? content_size y)%nat.
  - eapply perm_trans; [apply perm_skip, IH|apply perm_swap].
  - apply Permutation_refl.
Qed.

Lemma sort_desc_perm (l : list Post) : Permutation (sort_desc l) l.
Proof.
  induction l as [|x l IH]; simpl; [constructor|].
  eapply perm_trans; [apply insert_desc_perm|now apply perm_skip].
Qed.

Lemma sort_desc_length (l : list Post) :
  List.length (sort_desc l) = List.length l.
Proof. apply Permutation_length, sort_desc_perm. Qed.

Lemma insert_desc_sorted (x : Post) (l : list Post) :
  StronglySorted larger_first l -> StronglySorted larger_first (insert_desc x l).
Proof.
  induction 1 as [|y l Hs IH Hy]; simpl.
  - repeat constructor.
  - destruct (content_size x <? content_size y)%nat eqn:E.
    + apply Nat.ltb_lt in E. constructor; [exact IH|].
      eapply Permutation_Forall;
        [apply Permutation_sym, insert_desc_perm|].
      constructor; [unfold larger_first; lia|exact Hy].
    + apply Nat.ltb_ge in E. constructor.
      * now constructor.
      * constructor; [exact E|].
        eapply Forall_impl; [|exact Hy].
        unfold larger_first. intros; lia.
Qed.

Lemma sort_desc_sorted (l : list Post) :
  StronglySorted larger_first (sort_desc l).
Proof.
  induction l as [|x l IH]; simpl; [constructor|].
  now apply insert_desc_sorted.
Qed.

(** The sort is stable: the posts of any one size keep their order. *)
Lemma insert_desc_stable (k : nat) (x : Post) (l : list Post) :
  filter (fun p => (content_size p =? k)%nat) (insert_desc x l)
  = filter (fun p => (content_size p =? k)%nat) (x :: l).
Proof.
  induction l as [|y l IH]; [reflexivity|].
  simpl insert_desc.
  destruct (content_size x <? content_size y)%nat eqn:E; [|reflexivity].
  apply Nat.ltb_lt in E.
  change (filter (fun p => (content_size p =? k)%nat) (y :: insert_desc x l))
    with (if (content_size y =? k)%nat
          then y :: filter (fun p => (content_size p =? k)%nat)
                           (insert_desc x l)
          else filter (fun p => (content_size p =? k)%nat) (insert_desc x l)).
  rewrite IH. simpl.
  destruct (content_size x =? k)%nat eqn:X, (content_size y =? k)%nat eqn:Y;
    try reflexivity.
  apply Nat.eqb_eq in X, Y. lia.
Qed.

Lemma sort_desc_stable (k : nat) (l : list Post) :
  filter (fun p => (content_size p =? k)%nat) (sort_desc l)
  = filter (fun p => (content_size p =? k)%nat) l.
Proof.
  induction l as [|x l IH]; [reflexivity|].
  change (sort_desc (x :: l)) with (insert_desc x (sort_desc l)).
  rewrite insert_desc_stable. simpl. now rewrite IH.
Qed.

(** The head of the sorted array is the first of the largest members. *)
Lemma sort_desc_head (l : list Post) :
  l <> [] ->
  exists best others before after,
    sort_desc l = best :: others
    /\ l = (before ++ best :: after)%list
    /\ (forall p, In p before -> (content_size p < content_size best)%nat)
    /\ (forall p, In p after -> (content_size p <= content_size best)%nat).
Proof.
  induction l as [|x t IH]; [congruence|]. intros _.
  destruct t as [|y t'].
  - exists x, [], [], []. simpl. repeat split; intros ? [].
  - destruct IH as (b & o & l1 & l2 & Hs & Hl & H1 & H2); [discriminate|].
    change (sort_desc (x :: y :: t'))
      with (insert_desc x (sort_desc (y :: t'))).
    rewrite Hs. simpl.
    destruct (content_size x <? content_size b)%nat eqn:E.
    + apply Nat.ltb_lt in E.
      exists b, (insert_desc x o), (x :: l1), l2.
      repeat split.
      * rewrite Hl. reflexivity.
      * intros p [<-|Hp]; [exact E|now apply H1].
      * exact H2.
    + apply Nat.ltb_ge in E.
      exists x, (b :: o), [], (y :: t').
      repeat split; [intros ? []|].
      intros p Hp. rewrite Hl in Hp.
      apply in_app_or in Hp. destruct Hp as [Hp|[<-|Hp]].
      * apply H1 in Hp. lia.
      * exact E.
      * apply H2 in Hp. lia.
Qed.

(** The set of the source and the first-seen list of the document agree. *)
Lemma filter_absorb (p q : string -> bool) (l : list string) :
  (forall y, p y = true -> q y = true) ->
  filter p (filter q l) = filter p l.
Proof.
  intro H. induction l as [|y l IH]; simpl; [reflexivity|].
  destruct (q y) eqn:Q; simpl.
  - now rewrite IH.
  - destruct (p y) eqn:Py; [|exact IH].
    apply H in Py. congruence.
Qed.

Lemma filter_swap (p q : string -> bool) (l : list string) :
  filter p (filter q l) = filter q (filter p l).
Proof.
  induction l as [|y l IH]; simpl; [reflexivity|].
  destruct (q y) eqn:Q, (p y) eqn:Py; simpl; rewrite ?Q, ?Py, IH; reflexivity.
Qed.

Lemma filter_both (p q : string -> bool) (l : list string) :
  filter p (filter q l) = filter (fun y => q y && p y) l.
Proof.
  induction l as [|y l IH]; simpl; [reflexivity|].
  destruct (q y); simpl; [destruct (p y)|]; now rewrite IH.
Qed.

Lemma first_seen_filter (p : string -> bool) (l : list string) :
  first_seen (filter p l) = filter p (first_seen l).
Proof.
  induction l as [|x t IH]; simpl; [reflexivity|].
  destruct (p x) eqn:Px; simpl.
  - rewrite IH. f_equal. apply filter_swap.
  - rewrite IH. symmetry. apply filter_absorb.
    intros y Hy. destruct (String.eqb_spec y x) as [->|]; [congruence|].
    reflexivity.
Qed.

Lemma set_add_all_spec (l acc : list string) :
  set_add_all l acc
  = (acc ++ first_seen (filter (fun y => negb (includes y acc)) l))%list.
Proof.
  revert acc. induction l as [|x t IH]; intro acc.
  - simpl. now rewrite app_nil_r.
  - change (set_add_all (x :: t) acc) with (set_add_all t (set_add x acc)).
    unfold set_add. simpl filter.
    destruct (includes x acc) eqn:E; simpl negb; cbv iota.
    + apply IH.
    + rewrite IH, <- app_assoc. simpl. do 2 f_equal.
      rewrite <- first_seen_filter. f_equal.
      rewrite filter_both. apply filter_ext. intro y.
      unfold includes. rewrite existsb_app. simpl.
      now rewrite orb_false_r, negb_orb.
Qed.

Lemma collect_union (field : Post -> option (list string))
    (group : list Post) :
  collect field group = union_of field group.
Proof.
  unfold collect, union_of.
  assert (G : forall acc,
             fold_left (fun acc post =>
                          match field post with
                          | Some l => set_add_all l acc
                          | None => acc
                          end) group acc
             = set_add_all (flat_map (terms field) group) acc).
  { induction group as [|p g IH]; intro acc; [reflexivity|].
    simpl. rewrite IH. unfold set_add_all.
    rewrite fold_left_app. unfold terms.
    destruct (field p); reflexivity. }
  rewrite G, set_add_all_spec. simpl.
  f_equal. clear G.
  induction (flat_map (terms field) group) as [|y l IH]; [reflexivity|].
  simpl. f_equal. exact IH.
Qed.

Lemma first_seen_In (c : string) (l : list string) :
  In c (first_seen l) <-> In c l.
Proof.
  induction l as [|x t IH]; simpl; [tauto|].
  rewrite filter_In, IH.
  destruct (String.eqb_spec c x) as [->|N]; simpl.
  - intuition.
  - intuition congruence.
Qed.

Lemma first_seen_NoDup (l : list string) : NoDup (first_seen l).
Proof.
  induction l as [|x t IH]; simpl; constructor.
  - rewrite filter_In. intros [_ H]. now rewrite String.eqb_refl in H.
  - now apply NoDup_filter.
Qed.

(** What [mergePosts] does to a group of two or more. *)
Lemma mergePosts_unfold (group : list Post) :
  (2 <= List.length group)%nat ->
  exists best others,
    sort_desc group = best :: others
    /\ mergePosts group
       = Ok (let merged :=
               set_metadata
                 (Some (set_merge_info (Z.of_nat (List.length group))
                          (member_timestamps (best :: others))
                          (match metadata best with
                           | Some m => m
                           | None => empty_metadata
                           end)))
                 (set_tags (Some (collect tags (best :: others)))
                    (set_categories
                       (Some (collect categories (best :: others))) best))
             in (merged, merged :: others)).
Proof.
  intro H.
  destruct (sort_desc group) as [|best others] eqn:E.
  - apply (f_equal (@List.length Post)) in E.
    rewrite sort_desc_length in E. simpl in E. lia.
  - exists best, others. split; [reflexivity|].
    unfold mergePosts. rewrite E.
    assert (L : List.length (best :: others) = List.length group)
      by (rewrite <- E; apply sort_desc_length).
    rewrite L.
    destruct group as [|a [|b g]]; simpl in H; try lia. reflexivity.
Qed.

(** C4, amended: for a group of two or more, the merged categories and
    tags are the union of the members', each value once, in first-seen
    order across the group as the sort has left it (largest member first);
    nothing a member has is lost, and [mergedFrom] is the group size. *)
Theorem merge_unions_terms (group : list Post) :
  (2 <= List.length group)%nat ->
  exists merged after,
    mergePosts group = Ok (merged, after)
    /\ categories merged = Some (union_of categories (sort_desc group))
    /\ tags merged = Some (union_of tags (sort_desc group))
    /\ (forall p c, In p group -> In c (terms categories p) ->
                    In c (terms categories merged))
    /\ (forall p t, In p group -> In t (terms tags p) ->
                    In t (terms tags merged))
    /\ NoDup (terms categories merged) /\ NoDup (terms tags merged)
    /\ match metadata merged with
       | Some m => mergedFrom m = Some (Z.of_nat (List.length group))
       | None => False
       end.
Proof.
  intro H. destruct (mergePosts_unfold group H) as (best & others & E & M).
  eexists. eexists. split; [exact M|]. cbv zeta.
  rewrite E, !collect_union.
  assert (I : forall field p c,
             In p group -> In c (terms field p) ->
             In c (union_of field (best :: others))).
  { intros field p c Hp Hc. unfold union_of.
    apply first_seen_In, in_flat_map. exists p. split; [|exact Hc].
    rewrite <- E.
    eapply Permutation_in; [apply Permutation_sym, sort_desc_perm|exact Hp]. }
  repeat split.
  - intros p c. apply (I categories).
  - intros p t. apply (I tags).
  - apply first_seen_NoDup.
  - apply first_seen_NoDup.
Qed.

Lemma merge_unions_terms_witness :
  exists merged after,
    mergePosts Examples.duplicate_group = Ok (merged, after)
    /\ tags merged = Some ["update"; "news"]
    /\ match metadata merged with
       | Some m => mergedFrom m = Some 2%Z
       | None => False
       end.
Proof.
  destruct (merge_unions_terms Examples.duplicate_group)
    as (merged & after & M & _ & T & _ & _ & _ & _ & F).
  - simpl. lia.
  - exists merged, after. repeat split; [exact M| |exact F].
    rewrite T. vm_compute. reflexivity.
Defined.

(** C4 as stated fails on the order: with the shorter capture first in the
    group, the merged categories start with the longer capture's. *)
Lemma merge_order_is_not_group_order :
  exists merged after,
    mergePosts Examples.duplicate_group = Ok (merged, after)
    /\ categories merged = Some ["b"; "a"]
    /\ union_of categories Examples.duplicate_group = ["a"; "b"]
    /\ categories merged
       <> Some (union_of categories Examples.duplicate_group).
Proof.
  eexists. eexists. split; [vm_compute; reflexivity|].
  repeat split; try (vm_compute; reflexivity).
  intro H. vm_compute in H. discriminate H.
Qed.

(** C9, amended: for a group of two or more, [mergePosts] returns the
    first of the members whose content and markup together are longest,
    its other fields as they were; the array is left sorted by that size,
    largest first, and the returned member, now first in it, has its
    categories, tags, merge count and source timestamps overwritten. *)
Theorem mergePosts_frame (group : list Post) :
  (2 <= List.length group)%nat ->
  exists best others merged before after,
    mergePosts group = Ok (merged, merged :: others)
    /\ group = (before ++ best :: after)%list
    /\ (forall p, In p before -> (content_size p < content_size best)%nat)
    /\ (forall p, In p after -> (content_size p <= content_size best)%nat)
    /\ same_body best merged
    /\ Permutation group (best :: others)
    /\ StronglySorted larger_first (best :: others)
    /\ (forall k,
          filter (fun p => (content_size p =? k)%nat) (best :: others)
          = filter (fun p => (content_size p =? k)%nat) group)
    /\ categories merged = Some (collect categories (best :: others))
    /\ tags merged = Some (collect tags (best :: others))
    /\ exists m,
         metadata merged = Some m
         /\ mergedFrom m = Some (Z.of_nat (List.length group))
         /\ sourceTimestamps m = Some (member_timestamps (best :: others))
         /\ forall m0, metadata best = Some m0 ->
              sourceUrl m = sourceUrl m0 /\ timestamp m = timestamp m0
              /\ selector m = selector m0 /\ extractedAt m = extractedAt m0
              /\ m_type m = m_type m0 /\ m_error m = m_error m0.
Proof.
  intro H. destruct (mergePosts_unfold group H) as (best & others & E & M).
  destruct (sort_desc_head group) as (b & o & l1 & l2 & E' & G & H1 & H2).
  { destruct group; [simpl in H; lia|discriminate]. }
  rewrite E in E'. injection E' as <- <-.
  exists best, others. eexists. exists l1, l2.
  split; [exact M|]. cbv zeta.
  repeat split; try assumption.
  - rewrite <- E. apply Permutation_sym, sort_desc_perm.
  - rewrite <- E. apply sort_desc_sorted.
  - intro k. rewrite <- E. apply sort_desc_stable.
  - eexists. split; [reflexivity|]. simpl.
    split; [reflexivity|]. split; [reflexivity|].
    intros m0 Hm. rewrite Hm. repeat split.
Qed.

Lemma mergePosts_frame_witness :
  exists merged others,
    mergePosts Examples.duplicate_group = Ok (merged, merged :: others)
    /\ content merged = Some "a much longer capture"
    /\ others = [Examples.short_capture].
Proof.
  destruct (mergePosts_frame Examples.duplicate_group)
    as (best & others & merged & before & after & M & _).
  - simpl. lia.
  - exists merged, others. split; [exact M|].
    vm_compute in M. injection M as E1 E2 E3.
    rewrite <- E1, <- E3. split; reflexivity.
Defined.

(** C9 as stated fails on a group of one: the post comes back as it is,
    its categories not made unique and no merge count written. *)
Lemma mergePosts_single_untouched :
  mergePosts [Examples.lone_post] = Ok (Examples.lone_post, [Examples.lone_post])
  /\ categories Examples.lone_post = Some ["a"; "a"]
  /\ collect categories [Examples.lone_post] = ["a"]
  /\ metadata Examples.lone_post = None.
Proof. repeat split; vm_compute; reflexivity. Qed.

End MergeFacts.

(** ** Post extractor *)

Section ExtractorFacts.
Import Extractor.
Variable env : Env.
Variable snapshot_index : nat.
Variables url timestamp : string.

(** C7, amended: the extractor never raises; when the document handle is
    not callable or the probe query throws, it returns the sentinel alone,
    the failure message in its content and in [metadata.error]. *)
Theorem extractor_never_raises (doc : Document) :
  (exists found,
      extractWordPressPosts env snapshot_index url timestamp doc = Ok found)
  /\ (is_function doc = false ->
      extractWordPressPosts env snapshot_index url timestamp doc
      = Ok [error_post env snapshot_index url timestamp
              "Cheerio $ function is not available"])
  /\ (forall msg,
        is_function doc = true -> probe_html doc = Raise msg ->
        extractWordPressPosts env snapshot_index url timestamp doc
        = Ok [error_post env snapshot_index url timestamp
                ("Cheerio test failed: " ++ msg)])
  /\ (forall message,
        content (error_post env snapshot_index url timestamp message)
        = Some ("Failed to extract content: " ++ message)
        /\ match metadata (error_post env snapshot_index url timestamp
                             message) with
           | Some m => m_error m = Some message
           | None => False
           end).
Proof.
  unfold extractWordPressPosts, try_catch. repeat split.
  - destruct (is_function doc); cbn [negb]; [|eexists; reflexivity].
    destruct (probe_html doc); [|eexists; reflexivity].
    destruct (try_selectors env snapshot_index url timestamp doc postSelectors);
      [eexists; reflexivity|].
    destruct (extractPageContent env snapshot_index url timestamp doc)
      as [[pc|]|]; eexists; reflexivity.
  - intros ->. reflexivity.
  - intros msg -> ->. reflexivity.
Qed.

End ExtractorFacts.

Lemma extractor_never_raises_witness :
  Extractor.extractWordPressPosts Examples.env_a 0 "u" "20230330175424"
    Examples.not_callable
  = Ok [Extractor.error_post Examples.env_a 0 "u" "20230330175424"
          "Cheerio $ function is not available"]
  /\ Extractor.extractWordPressPosts Examples.env_a 0 "u" "20230330175424"
       Examples.probe_throws
     = Ok [Extractor.error_post Examples.env_a 0 "u" "20230330175424"
             "Cheerio test failed: boom"].
Proof.
  split.
  - apply (extractor_never_raises Examples.env_a 0 "u" "20230330175424"
             Examples.not_callable). reflexivity.
  - apply (extractor_never_raises Examples.env_a 0 "u" "20230330175424"
             Examples.probe_throws); reflexivity.
Defined.

(** C7 as stated fails for a failure of a selector query, which comes
    before any element is processed: it is passed over, and a page that
    matches nothing else yields no post at all, not the sentinel. *)
Lemma selector_failure_is_swallowed :
  Extractor.query Examples.selector_throws "article"
  = Raise "Unmatched selector"
  /\ Extractor.extractWordPressPosts Examples.env_a 0 "u" "20230330175424"
       Examples.selector_throws
     = Ok [].
Proof. split; vm_compute; reflexivity. Qed.

(** ** Statistics *)

Section StatisticsFacts.
Import Consolidator.
Context {P : Platform}.

Lemma mergePosts_ok (members : list Post) :
  members <> [] -> exists r, mergePosts members = Ok r.
Proof.
  intro H. destruct members as [|a [|b g]]; [congruence| |].
  - eexists. reflexivity.
  - destruct (mergePosts_unfold (a :: b :: g)) as (x & y & _ & M);
      [simpl; lia|].
    eexists. exact M.
Qed.

Lemma group_add_inhabited key post groups :
  inhabited_groups groups -> inhabited_groups (group_add key post groups).
Proof.
  induction 1 as [|[k g] rest Hg Hrest IH]; simpl.
  - repeat constructor. discriminate.
  - destruct (String.eqb key k); constructor; simpl in *; auto.
    destruct g; discriminate.
Qed.

Lemma group_posts_inhabited env allPosts :
  forall index groups,
    inhabited_groups groups ->
    inhabited_groups (group_posts env index allPosts groups).
Proof.
  induction allPosts as [|p rest IH]; intros index groups H; simpl; auto.
  apply IH, group_add_inhabited, H.
Qed.

Lemma merge_groups_ok groups :
  inhabited_groups groups -> exists merged, merge_groups groups = Ok merged.
Proof.
  induction 1 as [|[k g] rest Hg Hrest [merged IH]]; simpl.
  - eexists. reflexivity.
  - destruct (mergePosts_ok g Hg) as [[m after] ->]. rewrite IH.
    eexists. reflexivity.
Qed.

Lemma filter_none {A : Type} (f : A -> bool) (l : list A) :
  (forall x, In x l -> f x = false) -> filter f l = [].
Proof.
  induction l as [|x l IH]; intro H; simpl; [reflexivity|].
  rewrite (H x) by (left; reflexivity).
  apply IH. intros y Hy. apply H. now right.
Qed.

(** C10: consolidation completes, and when it ends with no post the
    average content length is [NaN], not zero, and both ends of the date
    range are [null]; this is the case when no snapshot contributes. *)
Theorem zero_posts_statistics (env : Env) (snapshots : list SnapshotResult) :
  exists r,
    consolidateAllPosts env snapshots = Ok r
    /\ (posts r = [] ->
        uniquePosts (statistics r) = 0%nat
        /\ averageContentLength (statistics r) = NaN
        /\ averageContentLength (statistics r) <> Finite 0
        /\ earliest (statistics r) = None
        /\ latest (statistics r) = None)
    /\ ((forall s, In s snapshots -> contributes s = false) -> posts r = []).
Proof.
  unfold consolidateAllPosts.
  set (all := map cleanPost
                  (flat_map snapshot_posts (filter contributes snapshots))).
  destruct (merge_groups_ok (group_posts env 0 all []))
    as [merged M]; [apply group_posts_inhabited; constructor|].
  rewrite M. eexists. split; [reflexivity|]. simpl. split.
  - intros ->. simpl. repeat split. discriminate.
  - intro H. subst all. rewrite (filter_none _ _ H) in M. simpl in M.
    injection M as <-. reflexivity.
Qed.

End StatisticsFacts.

Lemma zero_posts_statistics_witness :
  exists r,
    Consolidator.consolidateAllPosts (P := reference_platform)
      Examples.env_a [Examples.failed_snapshot] = Ok r
    /\ Consolidator.posts r = []
    /\ Consolidator.averageContentLength (Consolidator.statistics r)
       = Consolidator.NaN
    /\ Consolidator.earliest (Consolidator.statistics r) = None
    /\ Consolidator.latest (Consolidator.statistics r) = None.
Proof.
  destruct (zero_posts_statistics (P := reference_platform)
              Examples.env_a [Examples.failed_snapshot])
    as (r & R & Z & E).
  assert (N : Consolidator.posts r = []).
  { apply E. intros s [<-|[]]. reflexivity. }
  exists r. destruct (Z N) as (_ & A & _ & B & C).
  repeat split; assumption.
Defined.

(** ** Repeatability of the export *)

Section SerializerFacts.
Import Wxr Identity.
Context {P : Platform}.

Lemma extractPostId_env (e1 e2 : Env) (index : nat) (post : Post) :
  id_from_record post = true ->
  extractPostId e1 index post = extractPostId e2 index post.
Proof.
  unfold id_from_record, extractPostId. intro H.
  destruct (match id post with Some s => all_digits s | None => false end);
    [reflexivity|].
  destruct (post_number_in (id post)); [reflexivity|].
  destruct (post_number_in (classes post)); [reflexivity|].
  simpl in H.
  destruct (truthy (post_timestamp post)); [|discriminate].
  simpl in H. unfold Num.num_or.
  destruct (Num.parseInt _) as [z|]; [|discriminate].
  destruct (z =? 0)%Z; [discriminate|reflexivity].
Qed.

Lemma formatWordPressDate_env (e1 e2 : Env) (index : nat)
    (ts : option string) :
  truthy ts = true ->
  formatWordPressDate e1 index ts = formatWordPressDate e2 index ts.
Proof. unfold formatWordPressDate. intros ->. reflexivity. Qed.

Lemma convertPostToWxr_env (e1 e2 : Env) (post : Post) (index : nat)
    (st : CreatedUsers) :
  clock_free post = true ->
  convertPostToWxr e1 post index st = convertPostToWxr e2 post index st.
Proof.
  unfold clock_free. intro H. apply andb_prop in H. destruct H as [T I].
  unfold convertPostToWxr.
  rewrite (extractPostId_env e1 e2 index post I).
  rewrite (formatWordPressDate_env e1 e2 index _ T).
  reflexivity.
Qed.

Lemma convert_posts_env (e1 e2 : Env) (posts : list Post) :
  forallb clock_free posts = true ->
  forall index st,
    convert_posts e1 posts index st = convert_posts e2 posts index st.
Proof.
  induction posts as [|p rest IH]; intros H index st; [reflexivity|].
  simpl in H. apply andb_prop in H. destruct H as [Hp Hrest].
  simpl. rewrite (convertPostToWxr_env e1 e2 p index st Hp).
  destruct (convertPostToWxr e2 p index st) as [[xml st']|]; [|reflexivity].
  now rewrite IH.
Qed.

(** C1, amended: two runs over the same posts, each from an empty pool,
    give the same document once the generation timestamp is set aside,
    and the same post ids, provided every post has a capture timestamp
    and a number that comes from its id, its classes or that timestamp. *)
Theorem serialize_repeatable (e1 e2 : Env) (d : string) (posts : list Post) :
  forallb clock_free posts = true ->
  serialize (with_now_utc d e1) posts = serialize (with_now_utc d e2) posts
  /\ forall index post,
       In post posts ->
       extractPostId e1 index post = extractPostId e2 index post.
Proof.
  intro H. split.
  - unfold serialize, createWxrFile.
    rewrite (convert_posts_env (with_now_utc d e1) (with_now_utc d e2) posts H).
    reflexivity.
  - intros index post Hin. apply extractPostId_env.
    rewrite forallb_forall in H. apply H in Hin.
    unfold clock_free in Hin. apply andb_prop in Hin. tauto.
Qed.

End SerializerFacts.

Lemma serialize_repeatable_witness :
  Wxr.serialize (P := reference_platform)
    (with_now_utc "now" Examples.env_a) [Examples.tom_post]
  = Wxr.serialize (P := reference_platform)
      (with_now_utc "now" Examples.env_b) [Examples.tom_post].
Proof.
  apply (serialize_repeatable (P := reference_platform)
           Examples.env_a Examples.env_b "now" [Examples.tom_post]).
  vm_compute. reflexivity.
Defined.

(** C1 as stated fails at a post without a capture timestamp: its post id
    is the clock reading plus a random offset, so two runs that agree on
    the generation timestamp still differ. *)
Lemma serialize_depends_on_clock :
  Wxr.is_valid_post Examples.untimed_post = true
  /\ now_utc Examples.env_a = now_utc Examples.env_b
  /\ Wxr.extractPostId Examples.env_a 0 Examples.untimed_post
     = Some 1700000000007%Z
  /\ Wxr.extractPostId Examples.env_b 0 Examples.untimed_post
     = Some 1700000000008%Z
  /\ Wxr.serialize (P := reference_platform) Examples.env_a
       [Examples.untimed_post]
     <> Wxr.serialize (P := reference_platform) Examples.env_b
          [Examples.untimed_post].
Proof.
  repeat split; try (vm_compute; reflexivity).
  intro H.
  assert (D : match Wxr.serialize (P := reference_platform) Examples.env_a
                      [Examples.untimed_post],
                    Wxr.serialize (P := reference_platform) Examples.env_b
                      [Examples.untimed_post] with
              | Ok a, Ok b => String.eqb a b
              | _, _ => true
              end = false) by (vm_compute; reflexivity).
  rewrite H in D.
  destruct (Wxr.serialize Examples.env_b [Examples.untimed_post]);
    [rewrite String.eqb_refl in D|]; discriminate D.
Qed.

(** * Further properties *)

(** ** Texts *)

Section TextFacts.

Lemma append_assoc (a b c : string) : (a ++ b) ++ c = a ++ b ++ c.
Proof. induction a as [|x a IH]; simpl; [reflexivity|now rewrite IH]. Qed.

Lemma append_nil_r (a : string) : a ++ EmptyString = a.
Proof. induction a as [|x a IH]; simpl; [reflexivity|now rewrite IH]. Qed.

Lemma append_length (a b : string) :
  String.length (a ++ b) = (String.length a + String.length b)%nat.
Proof. induction a as [|x a IH]; simpl; [reflexivity|now rewrite IH]. Qed.

Lemma all_chars_app (p : ascii -> bool) (a b : string) :
  all_chars p (a ++ b) = all_chars p a && all_chars p b.
Proof.
  induction a as [|x a IH]; simpl; [reflexivity|].
  now rewrite IH, andb_assoc.
Qed.

Lemma all_chars_impl (p q : ascii -> bool) (s : string) :
  (forall c, p c = true -> q c = true) ->
  all_chars p s = true -> all_chars q s = true.
Proof.
  intro H. induction s as [|c t IH]; simpl; [reflexivity|].
  intro A. apply andb_prop in A. destruct A as [A B].
  now rewrite (H c A), IH.
Qed.

Lemma flat_map_chars_app (f : ascii -> string) (a b : string) :
  flat_map_chars f (a ++ b) = flat_map_chars f a ++ flat_map_chars f b.
Proof.
  induction a as [|x a IH]; simpl; [reflexivity|].
  now rewrite IH, append_assoc.
Qed.

Lemma flat_map_chars_ext (f g : ascii -> string) (s : string) :
  (forall c, f c = g c) -> flat_map_chars f s = flat_map_chars g s.
Proof.
  intro H. induction s as [|c t IH]; simpl; [reflexivity|].
  now rewrite H, IH.
Qed.

Lemma flat_map_chars_compose (f g : ascii -> string) (s : string) :
  flat_map_chars f (flat_map_chars g s)
  = flat_map_chars (fun c => flat_map_chars f (g c)) s.
Proof.
  induction s as [|c t IH]; simpl; [reflexivity|].
  now rewrite flat_map_chars_app, IH.
Qed.

(** A global replacement of one character is a character-wise rewrite. *)
Lemma replace_char_fuel (c : ascii) (rep : string) :
  forall n s,
    (String.length s < n)%nat ->
    replace_fuel (literal (String c EmptyString) rep) n s
    = flat_map_chars
        (fun x => if Ascii.eqb c x then rep else String x EmptyString) s.
Proof.
  induction n as [|n IH]; intros s H; [lia|].
  destruct s as [|b t]; [reflexivity|].
  simpl in H. cbn [replace_fuel flat_map_chars].
  unfold literal at 1. cbn [strip_prefix].
  destruct (Ascii.eqb c b).
  - now rewrite IH by lia.
  - cbn [append]. now rewrite IH by lia.
Qed.

Lemma replace_char (c : ascii) (rep : string) (s : string) :
  replace_all (literal (String c EmptyString) rep) s
  = flat_map_chars
      (fun x => if Ascii.eqb c x then rep else String x EmptyString) s.
Proof. apply replace_char_fuel. lia. Qed.

End TextFacts.

(** ** Escaping *)

Section EscapeFacts.
Import Xml.

Lemma escape_char_passes (c : ascii) :
  flat_map_chars (fun x => if Ascii.eqb "'" x then "&#039;"
                           else String x EmptyString)
    (flat_map_chars (fun x => if Ascii.eqb (ascii_of_nat 34) x then "&quot;"
                              else String x EmptyString)
       (flat_map_chars (fun x => if Ascii.eqb ">" x then "&gt;"
                                 else String x EmptyString)
          (flat_map_chars (fun x => if Ascii.eqb "<" x then "&lt;"
                                    else String x EmptyString)
             (if Ascii.eqb "&" c then "&amp;" else String c EmptyString))))
  = escape_char c.
Proof.
  destruct c as [[] [] [] [] [] [] [] []]; vm_compute; reflexivity.
Qed.

Lemma escape_char_clean (c : ascii) :
  all_chars (fun x => negb (is_markup_char x)) (escape_char c) = true.
Proof.
  destruct c as [[] [] [] [] [] [] [] []]; vm_compute; reflexivity.
Qed.

(** X1.  The five passes of [escapeXml] amount to rewriting every
    character on its own, so no entity written by one pass is escaped
    again by a later one; and the result holds no angle bracket and no
    quote. *)
Theorem escapeXml_charwise (unsafe : string) :
  escapeXml unsafe = flat_map_chars escape_char unsafe
  /\ all_chars (fun c => negb (is_markup_char c)) (escapeXml unsafe) = true.
Proof.
  assert (E : escapeXml unsafe = flat_map_chars escape_char unsafe).
  { unfold escapeXml, dq. rewrite !replace_char.
    rewrite !flat_map_chars_compose.
    apply flat_map_chars_ext. intro c.
    rewrite <- !flat_map_chars_compose. apply escape_char_passes. }
  split; [exact E|]. rewrite E. clear E.
  induction unsafe as [|c t IH]; simpl; [reflexivity|].
  now rewrite all_chars_app, escape_char_clean, IH.
Qed.

End EscapeFacts.

(** ** CDATA sections *)

Section CdataFacts.
Import Xml.

Lemma strip_prefix_app (p s r : string) :
  strip_prefix p s = Some r -> s = p ++ r.
Proof.
  revert s. induction p as [|a p IH]; intros s H; simpl in H.
  - now injection H as ->.
  - destruct s as [|b s]; [discriminate|].
    destruct (Ascii.eqb_spec a b) as [->|]; [|discriminate].
    simpl. now rewrite (IH s H).
Qed.

Lemma strip_prefix_take (p s : string) :
  take (String.length p) s = p -> exists r, strip_prefix p s = Some r.
Proof.
  revert s. induction p as [|a p IH]; intros s H; simpl.
  - now exists s.
  - destruct s as [|b s]; simpl in H; [discriminate|].
    injection H as -> H. rewrite Ascii.eqb_refl. now apply IH.
Qed.

Lemma take_strip_prefix (p s r : string) :
  strip_prefix p s = Some r -> take (String.length p) s = p.
Proof.
  revert s. induction p as [|a p IH]; intros s H; simpl in *.
  - now destruct s.
  - destruct s as [|b s]; [discriminate|].
    destruct (Ascii.eqb_spec a b) as [->|]; [|discriminate].
    simpl. now rewrite (IH s H).
Qed.

(** The replacement starts as the match does: the first two characters of
    the text stay. *)
Lemma close_mark_head :
  forall n s k,
    (String.length s < n)%nat -> (k <= 2)%nat ->
    take k (replace_fuel close_mark n s) = take k s.
Proof.
  induction n as [|n IH]; intros s k H K; [lia|].
  cbn [replace_fuel]. unfold close_mark at 1, literal.
  destruct (strip_prefix "]]>" s) as [rest|] eqn:E.
  - apply strip_prefix_app in E. subst s.
    destruct k as [|[|[|k]]]; try lia; reflexivity.
  - destruct s as [|c t]; [reflexivity|].
    destruct k as [|k]; [reflexivity|]. simpl in H. simpl.
    f_equal. apply IH; lia.
Qed.

Lemma close_mark_gone :
  forall n s,
    (String.length s < n)%nat ->
    contains "]]>" (replace_fuel close_mark n s) = false.
Proof.
  induction n as [|n IH]; intros s H; [lia|].
  cbn [replace_fuel]. unfold close_mark at 1, literal.
  destruct (strip_prefix "]]>" s) as [rest|] eqn:E.
  - pose proof (strip_prefix_length _ _ _ E) as L. simpl in L.
    assert (R : contains "]]>" (replace_fuel close_mark n rest) = false)
      by (apply IH; lia).
    revert R. generalize (replace_fuel close_mark n rest). intros y R.
    cbn. unfold startsWith. 
    destruct y as [|y0 y']; cbn; [reflexivity|].
    cbn in R. exact R.
  - destruct s as [|c t]; [reflexivity|]. simpl in H.
    cbn [contains]. rewrite (IH t) by lia. rewrite orb_false_r.
    unfold startsWith.
    destruct (strip_prefix "]]>" (String c (replace_fuel close_mark n t)))
      as [r|] eqn:F; [|reflexivity].
    apply take_strip_prefix in F. simpl String.length in F.
    change (take 3 (String c (replace_fuel close_mark n t)))
      with (String c (take 2 (replace_fuel close_mark n t))) in F.
    rewrite close_mark_head in F by lia.
    destruct (strip_prefix_take "]]>" (String c t) F) as [r' F'].
    congruence.
Qed.

Lemma contains_no_match (p rep : string) (s : string) :
  contains p s = false -> no_match (literal p rep) s = true.
Proof.
  induction s as [|c t IH]; cbn [contains no_match]; unfold literal, startsWith;
    destruct (strip_prefix p _); simpl; try discriminate; auto.
Qed.

(** X2.  A CDATA section made by [cdata] cannot be cut short: between
    the opening and the closing mark the closing mark does not occur, and
    a text that never held it is carried unchanged. *)
Theorem cdata_never_closes_early (content : string) :
  content <> EmptyString ->
  exists body,
    cdata content = "<![CDATA[" ++ body ++ "]]>"
    /\ contains "]]>" body = false
    /\ (contains "]]>" content = false -> body = content).
Proof.
  intro N. exists (replace_all close_mark content). repeat split.
  - unfold cdata. destruct content; [congruence|reflexivity].
  - apply close_mark_gone. lia.
  - intro C. apply replace_all_no_match, contains_no_match, C.
Qed.

Lemma cdata_never_closes_early_witness :
  exists body,
    cdata "a]]>b" = "<![CDATA[" ++ body ++ "]]>"
    /\ contains "]]>" body = false.
Proof.
  destruct (cdata_never_closes_early "a]]>b") as (body & E & C & _).
  - discriminate.
  - exists body. split; assumption.
Defined.

End CdataFacts.

(** ** Slugs *)

Section SlugFacts.
Import Slug.

Lemma lower_char_class (c : ascii) :
  is_slug_char (lower_char c) = true ->
  is_slug_safe (lower_char c) || is_space (lower_char c) = true.
Proof.
  destruct c as [[] [] [] [] [] [] [] []]; vm_compute; intro H;
    first [reflexivity | discriminate H].
Qed.

Lemma lowered_filtered_class (t : string) :
  all_chars (fun c => is_slug_safe c || is_space c)
            (filter_chars is_slug_char (toLowerCase t)) = true.
Proof.
  induction t as [|c t IH]; [reflexivity|].
  unfold toLowerCase in *. cbn [map_chars filter_chars].
  destruct (is_slug_char (lower_char c)) eqn:E; [|exact IH].
  cbn [all_chars]. now rewrite (lower_char_class c E), IH.
Qed.

Lemma span_all_chars (q p : ascii -> bool) (s : string) :
  all_chars q s = true -> all_chars q (snd (span p s)) = true.
Proof.
  induction s as [|c t IH]; [reflexivity|].
  cbn [all_chars span]. intro H. apply andb_prop in H. destruct H as [A B].
  destruct (p c).
  - destruct (span p t) as [a b]. exact (IH B).
  - cbn [snd all_chars]. now rewrite A, B.
Qed.

(** The runs of a class replaced by a hyphen: what is left is a hyphen or a
    character outside the class. *)
Lemma run_of_class (p q q' : ascii -> bool) :
  (forall c, q c = true -> p c = false -> q' c = true) ->
  q' "-"%char = true ->
  forall n s,
    (String.length s < n)%nat ->
    all_chars q s = true ->
    all_chars q' (replace_fuel (run_of p) n s) = true.
Proof.
  intros Q H. induction n as [|n IH]; intros s L A; [lia|].
  cbn [replace_fuel]. unfold run_of at 1.
  destruct (span p s) as [run rest] eqn:E.
  destruct (is_empty run) eqn:R.
  - destruct s as [|c t]; [reflexivity|].
    cbn [all_chars] in *. apply andb_prop in A. destruct A as [A B].
    simpl in L. rewrite (IH t) by (lia || assumption).
    rewrite andb_true_r. apply Q; [exact A|].
    cbn [span] in E. destruct (p c); [|reflexivity].
    destruct (span p t). injection E as <- _. discriminate R.
  - pose proof (span_length _ _ _ _ E) as SL.
    pose proof (span_all_chars q p s A) as SA. rewrite E in SA.
    cbn [snd] in SA.
    destruct run; [discriminate R|]. simpl in SL.
    cbn [append all_chars]. rewrite H. apply IH; [lia|exact SA].
Qed.

Lemma strip_last_hyphen_class (q : ascii -> bool) (s : string) :
  all_chars q s = true -> all_chars q (strip_last_hyphen s) = true.
Proof.
  induction s as [|c t IH]; [reflexivity|].
  cbn [all_chars strip_last_hyphen]. intro H.
  apply andb_prop in H. destruct H as [A B].
  destruct (is_hyphen c && is_empty t); [reflexivity|].
  cbn [all_chars]. now rewrite A, IH.
Qed.

Lemma strip_edge_hyphens_class (q : ascii -> bool) (s : string) :
  all_chars q s = true -> all_chars q (strip_edge_hyphens s) = true.
Proof.
  destruct s as [|c t]; [reflexivity|]. unfold strip_edge_hyphens.
  intro H. destruct (is_hyphen c).
  - cbn [all_chars] in H. apply andb_prop in H.
    now apply strip_last_hyphen_class.
  - now apply strip_last_hyphen_class.
Qed.

Lemma take_class (q : ascii -> bool) (n : nat) (s : string) :
  all_chars q s = true -> all_chars q (take n s) = true.
Proof.
  revert s. induction n as [|n IH]; intros [|c t] H; try reflexivity.
  cbn [all_chars take] in *. apply andb_prop in H. destruct H as [A B].
  now rewrite A, IH.
Qed.

Lemma take_length (n : nat) (s : string) :
  (String.length (take n s) <= n)%nat.
Proof.
  revert s. induction n as [|n IH]; intros [|c t]; simpl; try lia.
  specialize (IH t). lia.
Qed.

Lemma slugify_class (text : string) :
  all_chars is_slug_safe (slugify text) = true.
Proof.
  unfold slugify. apply strip_edge_hyphens_class.
  apply (run_of_class is_hyphen is_slug_safe is_slug_safe);
    [auto|reflexivity|lia|].
  apply (run_of_class is_space (fun c => is_slug_safe c || is_space c)
                      is_slug_safe);
    [|reflexivity|lia|apply lowered_filtered_class].
  intros c H S. rewrite S in H. now rewrite orb_false_r in H.
Qed.

(** X3.  The slug of a title that is not blank has at most 200
    characters, all of them lower-case letters, digits, underscores or
    hyphens; the grouping key taken from a title is made of the same
    characters and is longer than three. *)
Theorem generateSlug_url_safe (text : string) (postId : option string) :
  trim text <> EmptyString ->
  all_chars is_slug_safe (Wxr.generateSlug text postId) = true
  /\ (String.length (Wxr.generateSlug text postId) <= 200)%nat
  /\ forall post key,
       Consolidator.title_slug post = Some key ->
       all_chars is_slug_safe key = true /\ (3 < String.length key)%nat.
Proof.
  intro N. unfold Wxr.generateSlug.
  assert (T : negb (is_empty text) && negb (is_empty (trim text)) = true).
  { destruct text as [|c t]; [now elim N|].
    destruct (trim (String c t)); [now elim N|reflexivity]. }
  rewrite T.
  split; [apply take_class, slugify_class|].
  split; [apply take_length|].
  intros post key. unfold Consolidator.title_slug.
  destruct (title post) as [t|]; [|discriminate].
  destruct (negb (is_empty t) && negb (is_empty (trim t))); [|discriminate].
  destruct (3 <? String.length (slugify t))%nat eqn:L; [|discriminate].
  intro E. injection E as <-.
  split; [apply slugify_class|now apply Nat.ltb_lt].
Qed.

Lemma generateSlug_url_safe_witness :
  all_chars is_slug_safe (Wxr.generateSlug "Tom & Jerry <3" None) = true
  /\ (String.length (Wxr.generateSlug "Tom & Jerry <3" None) <= 200)%nat.
Proof.
  destruct (generateSlug_url_safe "Tom & Jerry <3" None) as (A & B & _).
  - vm_compute. discriminate.
  - split; assumption.
Defined.

End SlugFacts.

Section SlugShape.
Import Slug.

Lemma span_rest_head (p : ascii -> bool) (s run rest : string) :
  span p s = (run, rest) ->
  match rest with String c _ => p c = false | EmptyString => True end.
Proof.
  revert run rest. induction s as [|c t IH]; intros run rest E;
    cbn [span] in E.
  - injection E as _ <-. exact I.
  - destruct (p c) eqn:Pc.
    + destruct (span p t) as [a b]. injection E as _ <-.
      now apply (IH a b).
    + injection E as _ <-. exact Pc.
Qed.

Lemma collapse_head :
  forall n s,
    (String.length s < n)%nat ->
    starts_with_hyphen (replace_fuel (run_of is_hyphen) n s)
    = starts_with_hyphen s.
Proof.
  intros [|n] s L; [lia|]. cbn [replace_fuel]. unfold run_of at 1.
  destruct s as [|c t]; [reflexivity|]. cbn [span].
  destruct (is_hyphen c) eqn:H.
  - destruct (span is_hyphen t) as [a b]. cbn. now rewrite H.
  - cbn. now rewrite H.
Qed.

Lemma collapse_no_double :
  forall n s,
    (String.length s < n)%nat ->
    no_double_hyphen (replace_fuel (run_of is_hyphen) n s) = true.
Proof.
  induction n as [|n IH]; intros s L; [lia|].
  cbn [replace_fuel]. unfold run_of at 1.
  destruct (span is_hyphen s) as [run rest] eqn:E.
  destruct (is_empty run) eqn:R.
  - destruct s as [|c t]; [reflexivity|]. simpl in L.
    assert (Hc : is_hyphen c = false).
    { cbn [span] in E. destruct (is_hyphen c); [|reflexivity].
      destruct (span is_hyphen t). injection E as <- _. discriminate R. }
    cbn [no_double_hyphen]. rewrite Hc, IH by lia.
    now destruct (replace_fuel (run_of is_hyphen) n t).
  - pose proof (span_length _ _ _ _ E) as SL.
    pose proof (span_rest_head _ _ _ _ E) as RH.
    destruct run; [discriminate R|]. simpl in SL.
    assert (LR : (String.length rest < n)%nat) by lia.
    pose proof (collapse_head n rest LR) as CH.
    pose proof (IH rest LR) as ND.
    cbn [append no_double_hyphen]. rewrite ND, andb_true_r.
    destruct (replace_fuel (run_of is_hyphen) n rest) as [|y ys];
      [reflexivity|].
    cbn [starts_with_hyphen] in CH. rewrite CH.
    destruct rest as [|r rs]; cbn [starts_with_hyphen].
    + now rewrite andb_false_r.
    + rewrite RH. now rewrite andb_false_r.
Qed.

Lemma no_double_tail (c : ascii) (t : string) :
  no_double_hyphen (String c t) = true -> no_double_hyphen t = true.
Proof. cbn [no_double_hyphen]. intro H. now apply andb_prop in H. Qed.

Lemma strip_last_empty (s : string) :
  strip_last_hyphen s = EmptyString ->
  s = EmptyString \/ exists c, s = String c EmptyString /\ is_hyphen c = true.
Proof.
  destruct s as [|c t]; [now left|]. cbn [strip_last_hyphen].
  destruct (is_hyphen c) eqn:H, t; simpl; try discriminate.
  intros _. right. now exists c.
Qed.

Lemma strip_last_no_double (s : string) :
  no_double_hyphen s = true -> no_double_hyphen (strip_last_hyphen s) = true.
Proof.
  induction s as [|c t IH]; [reflexivity|]. intro H.
  cbn [strip_last_hyphen].
  destruct (is_hyphen c && is_empty t) eqn:E; [reflexivity|].
  pose proof (no_double_tail _ _ H) as T. specialize (IH T).
  cbn [no_double_hyphen] in *. rewrite IH, andb_true_r.
  destruct t as [|b t']; [reflexivity|].
  apply andb_prop in H. destruct H as [H _].
  cbn [strip_last_hyphen].
  destruct (is_hyphen b && is_empty t'); [reflexivity|exact H].
Qed.

Lemma strip_last_ends (s : string) :
  no_double_hyphen s = true -> ends_with_hyphen (strip_last_hyphen s) = false.
Proof.
  induction s as [|c t IH]; [reflexivity|]. intro H.
  cbn [strip_last_hyphen].
  destruct (is_hyphen c && is_empty t) eqn:E; [reflexivity|].
  pose proof (no_double_tail _ _ H) as T. specialize (IH T).
  cbn [ends_with_hyphen].
  destruct (strip_last_hyphen t) as [|y ys] eqn:S; [|exact IH].
  cbn [is_empty].
  destruct (strip_last_empty t S) as [->|(b & -> & Hb)].
  - cbn in E. now rewrite andb_true_r in E.
  - cbn [no_double_hyphen] in H. rewrite Hb in H.
    rewrite andb_true_r in H. cbn in H.
    destruct (is_hyphen c); [discriminate H|reflexivity].
Qed.

Lemma strip_last_head (s : string) :
  starts_with_hyphen s = false ->
  starts_with_hyphen (strip_last_hyphen s) = false.
Proof.
  destruct s as [|c t]; [reflexivity|]. cbn. intro H. now rewrite H.
Qed.

Lemma slugify_shape (text : string) : well_shaped (slugify text) = true.
Proof.
  unfold well_shaped. rewrite slugify_class. cbn [andb].
  unfold slugify.
  set (x := replace_all (run_of is_hyphen) _).
  assert (ND : no_double_hyphen x = true)
    by (apply collapse_no_double; lia).
  assert (G : forall y, no_double_hyphen y = true ->
                        starts_with_hyphen y = false ->
                        no_double_hyphen (strip_last_hyphen y)
                        && negb (starts_with_hyphen (strip_last_hyphen y))
                        && negb (ends_with_hyphen (strip_last_hyphen y))
                        = true).
  { intros y N S.
    now rewrite strip_last_no_double, strip_last_head, strip_last_ends. }
  destruct x as [|c t]; [reflexivity|]. unfold strip_edge_hyphens.
  destruct (is_hyphen c) eqn:H.
  - apply G; [now apply no_double_tail in ND|].
    destruct t as [|b t']; [reflexivity|].
    cbn [no_double_hyphen] in ND. rewrite H in ND. cbn in ND.
    cbn. destruct (is_hyphen b); [discriminate ND|reflexivity].
  - apply G; [exact ND|exact H].
Qed.

(** A well-shaped text is its own slug. *)
Lemma safe_char_fixed (c : ascii) :
  is_slug_safe c = true ->
  lower_char c = c /\ is_slug_char c = true /\ is_space c = false.
Proof.
  destruct c as [[] [] [] [] [] [] [] []]; vm_compute; intro H;
    first [discriminate H | repeat split].
Qed.

Lemma lowered_filtered_fixed (s : string) :
  all_chars is_slug_safe s = true ->
  filter_chars is_slug_char (toLowerCase s) = s.
Proof.
  induction s as [|c t IH]; [reflexivity|]. cbn [all_chars]. intro H.
  apply andb_prop in H. destruct H as [A B].
  destruct (safe_char_fixed c A) as (L & F & _).
  unfold toLowerCase in *. cbn [map_chars filter_chars].
  now rewrite L, F, IH.
Qed.

Lemma no_space_no_match (s : string) :
  all_chars is_slug_safe s = true -> no_match (run_of is_space) s = true.
Proof.
  induction s as [|c t IH]; [reflexivity|]. cbn [all_chars]. intro H.
  apply andb_prop in H. destruct H as [A B].
  destruct (safe_char_fixed c A) as (_ & _ & S).
  cbn [no_match]. unfold run_of at 1. cbn [span]. rewrite S. cbn.
  now apply IH.
Qed.

Lemma is_hyphen_eq (c : ascii) : is_hyphen c = true -> c = "-"%char.
Proof.
  destruct c as [[] [] [] [] [] [] [] []]; vm_compute; intro H;
    first [discriminate H | reflexivity].
Qed.

Lemma collapse_fixed :
  forall n s,
    (String.length s < n)%nat ->
    no_double_hyphen s = true ->
    replace_fuel (run_of is_hyphen) n s = s.
Proof.
  induction n as [|n IH]; intros s L ND; [lia|].
  destruct s as [|c t]; [reflexivity|]. simpl in L.
  pose proof (no_double_tail _ _ ND) as T.
  cbn [replace_fuel]. unfold run_of at 1. cbn [span].
  destruct (is_hyphen c) eqn:H.
  - pose proof (is_hyphen_eq c H) as ->.
    destruct t as [|b t'].
    + cbn. destruct n; [lia|reflexivity].
    + cbn [no_double_hyphen] in ND. rewrite H in ND.
      apply andb_prop in ND. destruct ND as [Hb _]. cbn in Hb.
      apply negb_true_iff in Hb. cbn [span]. rewrite Hb.
      cbn [is_empty append]. now rewrite IH by (lia || assumption).
  - cbn [is_empty]. now rewrite IH by (lia || assumption).
Qed.

Lemma strip_last_fixed (s : string) :
  ends_with_hyphen s = false -> strip_last_hyphen s = s.
Proof.
  induction s as [|c t IH]; [reflexivity|].
  cbn [ends_with_hyphen strip_last_hyphen].
  destruct t as [|b t'].
  - cbn. intros ->. reflexivity.
  - cbn [is_empty]. rewrite andb_false_r. intro H. now rewrite IH.
Qed.

(** X4.  A slug never starts or ends with a hyphen and never has two
    in a row; a text of that shape is its own slug, so taking the slug of
    a slug changes nothing. *)
Theorem slugify_idempotent (text : string) :
  well_shaped (slugify text) = true
  /\ slugify (slugify text) = slugify text
  /\ forall s, well_shaped s = true -> slugify s = s.
Proof.
  assert (F : forall s, well_shaped s = true -> slugify s = s).
  { intros s W. unfold well_shaped in W.
    apply andb_prop in W. destruct W as [W E].
    apply andb_prop in W. destruct W as [W S].
    apply andb_prop in W. destruct W as [A ND].
    apply negb_true_iff in S, E.
    unfold slugify. rewrite (lowered_filtered_fixed s A).
    rewrite (replace_all_no_match _ s (no_space_no_match s A)).
    unfold replace_all. rewrite collapse_fixed by (lia || assumption).
    destruct s as [|c t]; [reflexivity|]. unfold strip_edge_hyphens.
    cbn [starts_with_hyphen] in S. rewrite S.
    now apply strip_last_fixed. }
  split; [apply slugify_shape|].
  split; [apply F, slugify_shape|exact F].
Qed.

Lemma slugify_idempotent_witness :
  slugify "tom-jerry-3" = "tom-jerry-3".
Proof.
  apply (slugify_idempotent EmptyString). vm_compute. reflexivity.
Defined.

End SlugShape.

(** ** More on the normaliser *)

Section NormalizerMore.
Import Normalizer.

Lemma no_match_outside (m : matcher) (q : ascii -> bool) :
  (forall x rep rest, m x = Some (rep, rest) -> all_chars q x = false) ->
  forall s, all_chars q s = true -> no_match m s = true.
Proof.
  intros H. induction s as [|c t IH]; intro A; cbn [no_match].
  - destruct (m EmptyString) as [[rep rest]|] eqn:E; [|reflexivity].
    apply H in E. congruence.
  - destruct (m (String c t)) as [[rep rest]|] eqn:E.
    + apply H in E. congruence.
    + cbn [all_chars] in A. apply andb_prop in A. now apply IH.
Qed.

Lemma scheme_app (s t r : string) : scheme s = Some (t, r) -> s = t ++ r.
Proof.
  unfold scheme. intro H.
  destruct (strip_prefix "https://" s) as [a|] eqn:E1.
  - injection H as <- <-. now apply strip_prefix_app.
  - destruct (strip_prefix "http://" s) as [a|] eqn:E2; [|discriminate].
    injection H as <- <-. now apply strip_prefix_app.
Qed.

Lemma scheme_slash (s t r : string) :
  scheme s = Some (t, r) -> all_chars not_slash s = false.
Proof.
  unfold scheme. intro H.
  destruct (strip_prefix "https://" s) as [a|] eqn:E1.
  - apply strip_prefix_app in E1. subst s. reflexivity.
  - destruct (strip_prefix "http://" s) as [a|] eqn:E2; [|discriminate].
    apply strip_prefix_app in E2. subst s. reflexivity.
Qed.

Lemma archive_stamp_slash (s r : string) :
  archive_stamp s = Some r -> all_chars not_slash s = false.
Proof.
  unfold archive_stamp. intro H.
  destruct (strip_prefix "web.archive.org/web/" s) as [a|] eqn:E;
    [|discriminate].
  apply strip_prefix_app in E. subst s. reflexivity.
Qed.

Lemma literal_slash (p rep x r rest : string) :
  all_chars not_slash p = false ->
  literal p rep x = Some (r, rest) -> all_chars not_slash x = false.
Proof.
  intros N H. unfold literal in H.
  destruct (strip_prefix p x) as [a|] eqn:E; [|discriminate].
  apply strip_prefix_app in E. subst x.
  now rewrite all_chars_app, N.
Qed.

Lemma patterns_need_slash :
  Forall (fun m => forall x rep rest,
              m x = Some (rep, rest) -> all_chars not_slash x = false)
         patterns.
Proof.
  unfold patterns.
  repeat constructor; intros x rep rest H;
    try (eapply literal_slash; [|exact H]; reflexivity).
  - unfold fullArchivePattern in H.
    destruct (scheme x) as [[t a]|] eqn:E; [|discriminate].
    now apply scheme_slash in E.
  - unfold basicArchivePattern in H.
    destruct (scheme x) as [[t a]|] eqn:E; [|discriminate].
    now apply scheme_slash in E.
  - unfold remainingArchivePattern in H.
    destruct (archive_stamp x) as [a|] eqn:E; [|discriminate].
    now apply archive_stamp_slash in E.
  - unfold doubleProtocol in H.
    destruct (scheme x) as [[t a]|] eqn:E; [|discriminate].
    now apply scheme_slash in E.
  - unfold lnexunPort in H.
    destruct (scheme x) as [[t a]|] eqn:E; [|discriminate].
    now apply scheme_slash in E.
  - unfold lnexunWww in H.
    destruct (scheme x) as [[t a]|] eqn:E; [|discriminate].
    now apply scheme_slash in E.
Qed.

(** X5.  A text without a slash is handed back as it is: every
    substitution of the normaliser needs one. *)
Theorem slash_free_text_untouched (text : string) :
  all_chars not_slash text = true -> cleanWebArchiveUrls text = text.
Proof.
  intro H. apply settled_fixed. unfold settled.
  apply forallb_forall. intros m Hm.
  pose proof patterns_need_slash as F. rewrite Forall_forall in F.
  eapply no_match_outside; [apply F, Hm|exact H].
Qed.

Lemma slash_free_text_untouched_witness :
  cleanWebArchiveUrls "Tom & Jerry: archive.org http www" 
  = "Tom & Jerry: archive.org http www".
Proof.
  apply slash_free_text_untouched. vm_compute. reflexivity.
Defined.

(** *** Unwrapping *)

Lemma strip_prefix_append (p r : string) : strip_prefix p (p ++ r) = Some r.
Proof.
  induction p as [|a p IH]; [reflexivity|].
  cbn [append strip_prefix]. now rewrite Ascii.eqb_refl.
Qed.

Lemma skip_n_append (p : ascii -> bool) (a r : string) :
  all_chars p a = true -> skip_n p (String.length a) (a ++ r) = Some r.
Proof.
  induction a as [|c a IH]; [reflexivity|]. cbn [all_chars]. intro H.
  apply andb_prop in H. destruct H as [A B].
  cbn [String.length append skip_n]. rewrite A. now apply IH.
Qed.

Lemma span_append (p : ascii -> bool) (a : string) (c : ascii) (r : string) :
  all_chars p a = true -> p c = false ->
  span p (a ++ String c r) = (a, String c r).
Proof.
  intros A C. induction a as [|x a IH].
  - cbn [append span]. now rewrite C.
  - cbn [all_chars] in A. apply andb_prop in A. destruct A as [A B].
    cbn [append span]. now rewrite A, (IH B).
Qed.

Lemma span_whole (p : ascii -> bool) (s : string) :
  all_chars p s = true -> span p s = (s, EmptyString).
Proof.
  induction s as [|c t IH]; [reflexivity|]. cbn [all_chars]. intro H.
  apply andb_prop in H. destruct H as [A B].
  cbn [span]. now rewrite A, (IH B).
Qed.

Lemma scheme_of (sch r : string) :
  is_scheme sch -> scheme (sch ++ r) = Some (sch, r).
Proof.
  unfold scheme. intros [->| ->].
  - cbn [append]. cbn [strip_prefix]. cbn.
    reflexivity.
  - now rewrite (strip_prefix_append "https://" r).
Qed.

Lemma archive_stamp_of (ts flags r : string) :
  String.length ts = 14%nat -> all_chars is_digit ts = true ->
  all_chars is_alpha_us flags = true ->
  archive_stamp ("web.archive.org/web/" ++ ts ++ flags ++ "/" ++ r) = Some r.
Proof.
  intros L D F. unfold archive_stamp.
  rewrite (strip_prefix_append "web.archive.org/web/").
  rewrite <- L, (skip_n_append is_digit ts _ D).
  change (flags ++ "/" ++ r) with (flags ++ String "/" r).
  rewrite (span_append is_alpha_us flags "/" r F eq_refl).
  reflexivity.
Qed.

Lemma replace_fuel_empty (m : matcher) (n : nat) :
  m EmptyString = None -> replace_fuel m n EmptyString = EmptyString.
Proof. intro H. destruct n; [reflexivity|]. cbn. now rewrite H. Qed.

(** X6.  An address wrapped in one archive prefix (either protocol, a
    14-digit stamp, any flags) comes back as the address itself, provided
    the address has a protocol, holds no quote, white space or closing
    parenthesis, and is itself in normal form; in particular the archive
    address built by [buildWaybackUrl] normalises to the original. *)
Theorem wrapped_url_unwraps (sch ts flags usch body : string) :
  is_scheme sch -> String.length ts = 14%nat ->
  all_chars is_digit ts = true -> all_chars is_alpha_us flags = true ->
  is_scheme usch -> body <> EmptyString ->
  all_chars is_url_char body = true ->
  settled (usch ++ body) = true ->
  cleanWebArchiveUrls
    (sch ++ "web.archive.org/web/" ++ ts ++ flags ++ "/" ++ usch ++ body)
  = usch ++ body
  /\ (flags = EmptyString -> sch = "https://" ->
      cleanWebArchiveUrls (Fetch.buildWaybackUrl ts (usch ++ body))
      = usch ++ body).
Proof.
  intros S L D F U N C T.
  assert (M : fullArchivePattern
                (sch ++ "web.archive.org/web/" ++ ts ++ flags ++ "/"
                     ++ usch ++ body)
              = Some (usch ++ body, EmptyString)).
  { unfold fullArchivePattern. rewrite (scheme_of sch _ S). cbn [snd].
    rewrite (archive_stamp_of ts flags _ L D F).
    rewrite (scheme_of usch body U). cbn [snd fst].
    rewrite (span_whole _ body C).
    destruct body; [congruence|reflexivity]. }
  assert (E : cleanWebArchiveUrls
                (sch ++ "web.archive.org/web/" ++ ts ++ flags ++ "/"
                     ++ usch ++ body) = usch ++ body).
  { unfold cleanWebArchiveUrls.
    assert (NE : is_empty (sch ++ "web.archive.org/web/" ++ ts ++ flags
                               ++ "/" ++ usch ++ body) = false)
      by (destruct S as [->| ->]; reflexivity).
    rewrite NE. unfold patterns. cbn [fold_left].
    assert (R1 : replace_all fullArchivePattern
                   (sch ++ "web.archive.org/web/" ++ ts ++ flags ++ "/"
                        ++ usch ++ body) = usch ++ body).
    { unfold replace_all. cbn [replace_fuel]. rewrite M.
      rewrite replace_fuel_empty by reflexivity. apply append_nil_r. }
    rewrite R1.
    unfold settled, patterns in T. cbn [forallb] in T.
    repeat (apply andb_prop in T; destruct T as [?H T]).
    repeat (rewrite (replace_all_no_match _ (usch ++ body)) by assumption).
    reflexivity. }
  split; [exact E|].
  intros -> ->. exact E.
Qed.

Lemma wrapped_url_unwraps_witness :
  cleanWebArchiveUrls
    (Fetch.buildWaybackUrl "20230322120550" "https://drive.google.com/x")
  = "https://drive.google.com/x".
Proof.
  apply (wrapped_url_unwraps "https://" "20230322120550" EmptyString
           "https://" "drive.google.com/x");
    first [reflexivity | right; reflexivity | discriminate].
Defined.

End NormalizerMore.

(** ** More on the identity pool *)

Section PoolFacts.
Import Identity.

Lemma map_set_length {V : Type} (k : string) (v : V) (m : list (string * V)) :
  (List.length m <= List.length (map_set k v m) <= S (List.length m))%nat.
Proof.
  induction m as [|[k' v'] m IH]; simpl; [lia|].
  destruct (String.eqb k k'); simpl; lia.
Qed.

Lemma map_set_Forall {V : Type} (Q : string * V -> Prop) (k : string) (v : V)
    (m : list (string * V)) :
  Forall Q m -> Q (k, v) -> Forall Q (map_set k v m).
Proof.
  intros F H. induction F as [|[k' v'] m Hx F IH]; simpl.
  - now constructor.
  - destruct (String.eqb k k'); constructor; assumption.
Qed.

Lemma map_has_In {V : Type} (k : string) (m : list (string * V)) :
  map_has k m = true <-> In k (map fst m).
Proof.
  induction m as [|[k' v'] m IH]; simpl; [split; [discriminate|tauto]|].
  rewrite orb_true_iff, IH, String.eqb_eq. intuition.
Qed.

Lemma map_set_keys {V : Type} (k : string) (v : V) (m : list (string * V)) :
  map fst (map_set k v m)
  = if map_has k m then map fst m else (map fst m ++ [k])%list.
Proof.
  induction m as [|[k' v'] m IH]; simpl; [reflexivity|].
  destruct (String.eqb_spec k k') as [->|N]; simpl; [reflexivity|].
  rewrite IH. now destruct (map_has k m).
Qed.

Lemma map_set_NoDup {V : Type} (k : string) (v : V) (m : list (string * V)) :
  NoDup (map fst m) -> NoDup (map fst (map_set k v m)).
Proof.
  intro H. rewrite map_set_keys.
  destruct (map_has k m) eqn:E; [exact H|].
  apply NoDup_app; [exact H|repeat constructor; intros []|].
  intros x Hx [<-|[]]. apply map_has_In in Hx. congruence.
Qed.

Lemma map_has_set {V : Type} (k k' : string) (v : V) (m : list (string * V)) :
  map_has k (map_set k' v m) = map_has k m || String.eqb k k'.
Proof.
  induction m as [|[k0 v0] m IH]; simpl; [now rewrite orb_false_r|].
  destruct (String.eqb_spec k' k0) as [->|N]; simpl.
  - destruct (String.eqb k k0); simpl;
      rewrite ?orb_false_r, ?orb_true_r; reflexivity.
  - rewrite IH. now rewrite orb_assoc.
Qed.

(** What a call of the resolver does to the pool: nothing, or one [set]
    of an identity whose login is its key and whose id is the size of
    the pool plus 1001. *)
Lemma getAuthorLogin_step (a : option string) (st : CreatedUsers) :
  snd (getAuthorLogin a st) = st
  \/ exists u,
       getAuthorLogin a st = (login u, map_set (login u) u st)
       /\ a_id u = (1000 + Z.of_nat (List.length st) + 1)%Z.
Proof.
  unfold getAuthorLogin.
  destruct a as [a|]; [|now left].
  destruct (is_empty a || is_empty (trim a)) eqn:E; [now left|].
  destruct (authors_lookup_truthy _); [now left|].
  destruct (exact_match _ _); [now left|].
  destruct (word_match _ _); [now left|].
  right. unfold createNewUser. rewrite E. cbv zeta.
  lazymatch goal with
  | |- exists u, (_, map_set _ ?U _) = _ /\ _ => exists U
  end.
  split; reflexivity.
Qed.

Lemma getAuthorLogin_pool_ok (a : option string) (n : nat)
    (st : CreatedUsers) :
  pool_ok n st -> pool_ok (S n) (snd (getAuthorLogin a st)).
Proof.
  intros (L & N & F).
  assert (W : pool_ok (S n) st).
  { repeat split; [lia|exact N|].
    eapply Forall_impl; [|exact F]. intros e [A B]. split; [exact A|lia]. }
  destruct (getAuthorLogin_step a st) as [->|(u & -> & I)]; [exact W|].
  destruct W as (_ & _ & F'). cbn [snd]. repeat split.
  - pose proof (map_set_length (login u) u st). lia.
  - now apply map_set_NoDup.
  - apply map_set_Forall; [exact F'|]. cbn [fst snd]. split; [reflexivity|lia].
Qed.

Lemma resolve_all_pool_ok (authors : list (option string)) :
  forall n st,
    pool_ok n st ->
    pool_ok (n + List.length authors) (resolve_all authors st).
Proof.
  unfold resolve_all.
  induction authors as [|a l IH]; intros n st H; simpl.
  - now rewrite Nat.add_0_r.
  - replace (n + S (List.length l))%nat with (S n + List.length l)%nat by lia.
    apply IH. now apply getAuthorLogin_pool_ok.
Qed.

Lemma fixed_ids_small :
  Forall (fun e => (a_id (snd e) <= 73)%Z) AUTHORS.
Proof.
  apply Forall_forall. intros e H.
  assert (B : forallb (fun e => (a_id (snd e) <=? 73)%Z) AUTHORS = true)
    by (vm_compute; reflexivity).
  rewrite forallb_forall in B. apply Z.leb_le. now apply B.
Qed.

(** X7.  In a run from an empty pool every synthesized id lies above
    1000 and at most 1000 plus the number of calls made, so none equals an
    id of the fixed table, whose ids end at 73. *)
Theorem synthesized_ids_above_fixed (authors : list (option string))
    (e : string * AuthorIdentity) :
  In e (resolve_all authors []) ->
  (1000 < a_id (snd e) <= 1000 + Z.of_nat (List.length authors))%Z
  /\ ~ In (a_id (snd e)) (map (fun f => a_id (snd f)) AUTHORS).
Proof.
  intro H.
  destruct (resolve_all_pool_ok authors 0 []) as (_ & _ & F).
  { repeat split; [simpl; lia|constructor|constructor]. }
  rewrite Forall_forall in F. destruct (F e H) as [_ R]. simpl in R.
  split; [exact R|].
  intro I. apply in_map_iff in I. destruct I as (f & Ef & If).
  pose proof fixed_ids_small as S. rewrite Forall_forall in S.
  specialize (S f If). lia.
Qed.

Lemma synthesized_ids_above_fixed_witness :
  (1000 < 1002 <= 1000 + Z.of_nat (List.length Examples.unknown_authors))%Z
  /\ ~ In 1002%Z (map (fun f => a_id (snd f)) AUTHORS).
Proof.
  apply (synthesized_ids_above_fixed Examples.unknown_authors
           ("yan.p", mkAuthor 1002 "yan.p" "ananay+yanp@exunclan.com"
                              "Yan P" "Yan" "P")).
  right. left. reflexivity.
Defined.

(** X8.  The logins of the pool stay distinct, each identity is filed
    under its own login, and the pool never holds more identities than
    calls were made. *)
Theorem pool_logins_distinct (authors : list (option string)) :
  NoDup (map fst (resolve_all authors []))
  /\ Forall (fun e => login (snd e) = fst e) (resolve_all authors [])
  /\ (List.length (resolve_all authors []) <= List.length authors)%nat.
Proof.
  destruct (resolve_all_pool_ok authors 0 []) as (L & N & F).
  { repeat split; [simpl; lia|constructor|constructor]. }
  repeat split; [exact N| |exact L].
  eapply Forall_impl; [|exact F]. now intros e [A _].
Qed.

(** *** Logins *)

Lemma exact_match_key (c : string) (entries : list (string * AuthorIdentity))
    (k : string) :
  exact_match c entries = Some k -> map_has k entries = true.
Proof.
  induction entries as [|[k' a] l IH]; [discriminate|].
  cbn [exact_match map_has].
  destruct (_ || _ || _ || _).
  - intro H. injection H as ->. now rewrite String.eqb_refl.
  - intro H. rewrite (IH H). apply orb_true_r.
Qed.

Lemma word_match_key (w : list string)
    (entries : list (string * AuthorIdentity)) (k : string) :
  word_match w entries = Some k -> map_has k entries = true.
Proof.
  induction entries as [|[k' a] l IH]; [discriminate|].
  cbn [word_match map_has].
  destruct (_ && _ && _ && _).
  - intro H. injection H as ->. now rewrite String.eqb_refl.
  - destruct (_ && _).
    + intro H. injection H as ->. now rewrite String.eqb_refl.
    + intro H. rewrite (IH H). apply orb_true_r.
Qed.

Lemma getAuthorLogin_fst (a : option string) (st1 st2 : CreatedUsers) :
  fst (getAuthorLogin a st1) = fst (getAuthorLogin a st2).
Proof.
  unfold getAuthorLogin.
  destruct a as [a|]; [|reflexivity].
  destruct (is_empty a || is_empty (trim a)) eqn:E; [reflexivity|].
  destruct (authors_lookup_truthy _); [reflexivity|].
  destruct (exact_match _ _); [reflexivity|].
  destruct (word_match _ _); [reflexivity|].
  unfold createNewUser. rewrite E. reflexivity.
Qed.

Lemma getAuthorLogin_declared (a : option string) (st : CreatedUsers) :
  inherited_name (fst (getAuthorLogin a st))
  \/ map_has (fst (getAuthorLogin a st)) AUTHORS = true
  \/ map_has (fst (getAuthorLogin a st)) (snd (getAuthorLogin a st)) = true.
Proof.
  assert (AD : map_has "admin" AUTHORS = true) by (vm_compute; reflexivity).
  unfold getAuthorLogin.
  destruct a as [a|]; [|now right; left].
  destruct (is_empty a || is_empty (trim a)) eqn:E; [now right; left|].
  destruct (authors_lookup_truthy _) eqn:T.
  { unfold authors_lookup_truthy in T. cbn [fst].
    apply orb_prop in T. destruct T as [T|T].
    - apply orb_prop in T. destruct T as [T|T].
      + now right; left.
      + left. left. now apply String.eqb_eq.
    - left. right. now apply String.eqb_eq. }
  destruct (exact_match _ _) eqn:X.
  { right. left. cbn [fst]. eapply exact_match_key, X. }
  destruct (word_match _ _) eqn:Y.
  { right. left. cbn [fst]. eapply word_match_key, Y. }
  right. right. unfold createNewUser. rewrite E. cbn [fst snd].
  now rewrite map_has_set, String.eqb_refl, orb_true_r.
Qed.

Lemma getAuthorLogin_keeps (a : option string) (st : CreatedUsers)
    (k : string) :
  map_has k st = true -> map_has k (snd (getAuthorLogin a st)) = true.
Proof.
  intro H. destruct (getAuthorLogin_step a st) as [->|(u & -> & _)];
    [exact H|].
  cbn [snd]. now rewrite map_has_set, H.
Qed.

Lemma resolve_all_keeps (authors : list (option string)) :
  forall st k, map_has k st = true -> map_has k (resolve_all authors st) = true.
Proof.
  unfold resolve_all.
  induction authors as [|a l IH]; intros st k H; [exact H|].
  simpl. now apply IH, getAuthorLogin_keeps.
Qed.

(** X9.  Whatever the pool holds at the call, the login the resolver
    answers with for an author of the posts is, after the first pass over
    those authors, a key of the fixed table or of the pool, unless it is
    one of the two names every object inherits. *)
Theorem first_pass_declares_logins (authors : list (option string))
    (a : option string) (st : CreatedUsers) :
  In a authors ->
  inherited_name (fst (getAuthorLogin a st))
  \/ map_has (fst (getAuthorLogin a st)) AUTHORS = true
  \/ map_has (fst (getAuthorLogin a st)) (resolve_all authors []) = true.
Proof.
  intro H.
  assert (G : forall st0,
             inherited_name (fst (getAuthorLogin a st))
             \/ map_has (fst (getAuthorLogin a st)) AUTHORS = true
             \/ map_has (fst (getAuthorLogin a st)) (resolve_all authors st0)
                = true).
  { induction authors as [|b l IH]; [destruct H|]. intro st0.
    unfold resolve_all. cbn [fold_left]. fold (resolve_all l).
    destruct H as [->|H].
    - rewrite (getAuthorLogin_fst a st st0).
      destruct (getAuthorLogin_declared a st0) as [D|[D|D]]; auto.
      right. right. now apply resolve_all_keeps.
    - apply (IH H). }
  apply G.
Qed.

Lemma first_pass_declares_logins_witness :
  inherited_name (fst (getAuthorLogin (Some "Xu R") []))
  \/ map_has (fst (getAuthorLogin (Some "Xu R") [])) AUTHORS = true
  \/ map_has (fst (getAuthorLogin (Some "Xu R") []))
             (resolve_all Examples.unknown_authors []) = true.
Proof.
  apply (first_pass_declares_logins Examples.unknown_authors).
  right. right. right. left. reflexivity.
Defined.

End PoolFacts.

(** ** Numbers of posts *)

Section NumberFacts.
Import Num Wxr.

Lemma digit_facts (c : ascii) :
  is_digit c = true ->
  is_space c = false
  /\ Ascii.eqb c "x" = false /\ Ascii.eqb c "X" = false
  /\ exists d, digit_val 10 c = Some d /\ (0 <= d < 10)%Z
               /\ d = (Z.of_N (code c) - 48)%Z.
Proof.
  destruct c as [[] [] [] [] [] [] [] []]; vm_compute; intro H;
    first [discriminate H
          | repeat split; eexists; repeat split; discriminate].
Qed.

Lemma digits_val_some (s : string) (acc : Z) :
  only_digits s = true -> exists z, digits_val 10 (Some acc) s = Some z.
Proof.
  revert acc. induction s as [|c t IH]; intros acc H; [now exists acc|].
  cbn [only_digits] in H. apply andb_prop in H. destruct H as [D O].
  destruct (digit_facts c D) as (_ & _ & _ & d & E & _).
  cbn [digits_val]. rewrite E. apply IH, O.
Qed.

(** On a text of digits [parseInt] reads all of it in base ten. *)
Lemma parseInt_digits (s : string) :
  all_digits s = true -> parseInt s = digits_val 10 None s.
Proof.
  unfold all_digits. destruct s as [|c t]; [discriminate|].
  cbn [is_empty negb andb only_digits]. intro H.
  apply andb_prop in H. destruct H as [D O].
  destruct (digit_facts c D) as (S & _ & _ & d & E & _).
  unfold parseInt. cbn [trimStart]. rewrite S.
  assert (V : match t with
              | String x t' =>
                  Ascii.eqb x "x" || Ascii.eqb x "X" = false
              | EmptyString => True
              end).
  { destruct t as [|x t']; [exact I|].
    cbn [only_digits] in O. apply andb_prop in O. destruct O as [Dx _].
    destruct (digit_facts x Dx) as (_ & X1 & X2 & _). now rewrite X1, X2. }
  destruct c as [[] [] [] [] [] [] [] []]; try discriminate D;
    destruct t as [|x t']; try rewrite V;
    destruct (digits_val 10 None _); reflexivity.
Qed.

Lemma parseInt_digits_some (s : string) :
  all_digits s = true -> exists z, parseInt s = Some z /\ (0 <= z)%Z.
Proof.
  intro H. rewrite (parseInt_digits s H).
  unfold all_digits in H. destruct s as [|c t]; [discriminate|].
  cbn [is_empty negb andb only_digits] in H.
  apply andb_prop in H. destruct H as [D O].
  destruct (digit_facts c D) as (_ & _ & _ & d & E & R & _).
  cbn [digits_val]. rewrite E.
  assert (G : forall t acc, (0 <= acc)%Z -> only_digits t = true ->
                exists z, digits_val 10 (Some acc) t = Some z /\ (0 <= z)%Z).
  { clear. induction t as [|c t IH]; intros acc A O; [now exists acc|].
    cbn [only_digits] in O. apply andb_prop in O. destruct O as [D O].
    destruct (digit_facts c D) as (_ & _ & _ & d & E & R & _).
    cbn [digits_val]. rewrite E. apply IH; [lia|exact O]. }
  apply G; [lia|exact O].
Qed.

Lemma span_digits (s : string) :
  only_digits (fst (span is_digit s)) = true.
Proof.
  induction s as [|c t IH]; [reflexivity|]. cbn [span].
  destruct (is_digit c) eqn:D; [|reflexivity].
  destruct (span is_digit t). cbn [fst only_digits] in *. now rewrite D.
Qed.

Lemma match_post_number_digits (s digits : string) :
  match_post_number s = Some digits -> all_digits digits = true.
Proof.
  induction s as [|c t IH]; cbn [match_post_number].
  - destruct (strip_prefix "post-" EmptyString); [|discriminate].
    destruct (span is_digit s) as [d r] eqn:E.
    pose proof (span_digits s) as SD. rewrite E in SD.
    destruct (is_empty d) eqn:N; [discriminate|].
    intro H. injection H as <-. unfold all_digits. now rewrite N.
  - destruct (strip_prefix "post-" (String c t)) as [r|].
    + destruct (span is_digit r) as [d r'] eqn:E.
      pose proof (span_digits r) as SD. rewrite E in SD.
      destruct (is_empty d) eqn:N; [exact IH|].
      intro H. injection H as <-. unfold all_digits. now rewrite N.
    + exact IH.
Qed.

Lemma post_number_in_digits (field : option string) (digits : string) :
  post_number_in field = Some digits -> all_digits digits = true.
Proof.
  unfold post_number_in. destruct field as [s|]; [|discriminate].
  destruct (negb (is_empty s) && contains "post-" s); [|discriminate].
  apply match_post_number_digits.
Qed.

(** X10.  [extractPostId] always answers with a number: the post id
    written into an item is never [NaN]. *)
Theorem extractPostId_is_a_number (env : Env) (index : nat) (post : Post) :
  exists z, extractPostId env index post = Some z.
Proof.
  unfold extractPostId.
  destruct (match id post with Some s => all_digits s | None => false end)
    eqn:A.
  { destruct (id post) as [i|]; [|discriminate].
    destruct (parseInt_digits_some i A) as (z & E & _).
    assert (O : or_else (Some i) EmptyString = i)
      by (destruct i; [discriminate A|reflexivity]).
    rewrite O. eauto. }
  destruct (post_number_in (id post)) as [d|] eqn:M.
  { apply post_number_in_digits in M.
    destruct (parseInt_digits_some d M) as (z & E & _). eauto. }
  destruct (post_number_in (classes post)) as [d|] eqn:M'.
  { apply post_number_in_digits in M'.
    destruct (parseInt_digits_some d M') as (z & E & _). eauto. }
  destruct (truthy (post_timestamp post)); eauto.
Qed.

(** *** Printing and reading back *)

Lemma string_of_uint_digits (d : Decimal.uint) :
  only_digits (NilEmpty.string_of_uint d) = true.
Proof. induction d; cbn; auto. Qed.

Lemma digits_val_uint (d : Decimal.uint) (acc : Z) :
  digits_val 10 (Some acc) (NilEmpty.string_of_uint d)
  = Some (uint_val acc d).
Proof. revert acc. induction d; intro acc; cbn; auto. Qed.

Lemma digits_val_uint_none (d : Decimal.uint) :
  d <> Decimal.Nil ->
  digits_val 10 None (NilEmpty.string_of_uint d) = Some (uint_val 0 d).
Proof. destruct d; intro N; [congruence| ..]; cbn; apply digits_val_uint. Qed.

Lemma uint_val_pos (d : Decimal.uint) (p : positive) :
  uint_val (Zpos p) d = Zpos (Pos.of_uint_acc d p).
Proof.
  revert p. induction d; intro p; cbn [uint_val Pos.of_uint_acc];
    [reflexivity| ..];
    match goal with
    | |- uint_val ?a _ = Zpos (Pos.of_uint_acc _ ?q) =>
        replace a with (Zpos q) by lia
    end; apply IHd.
Qed.

Lemma uint_val_zero (d : Decimal.uint) :
  uint_val 0 d = Z.of_N (Pos.of_uint d).
Proof.
  induction d; cbn [uint_val Pos.of_uint]; [reflexivity|exact IHd| ..];
    cbn [Z.mul Z.add]; apply uint_val_pos.
Qed.

Lemma to_uint_not_nil (p : positive) : Pos.to_uint p <> Decimal.Nil.
Proof.
  intro H. pose proof (DecimalPos.Unsigned.of_to p) as E.
  rewrite H in E. discriminate E.
Qed.

Lemma render_nat_digits (n : nat) :
  all_digits (Z_to_string (Z.of_nat n)) = true
  /\ parseInt (Z_to_string (Z.of_nat n)) = Some (Z.of_nat n).
Proof.
  unfold Z_to_string. destruct (Z.of_nat n) as [|p|p] eqn:E; [| |lia].
  - split; reflexivity.
  - cbn [Z.to_int NilEmpty.string_of_int].
    assert (A : all_digits (NilEmpty.string_of_uint (Pos.to_uint p)) = true).
    { unfold all_digits. rewrite string_of_uint_digits, andb_true_r.
      pose proof (to_uint_not_nil p) as N.
      destruct (Pos.to_uint p); [congruence| ..]; reflexivity. }
    split; [exact A|].
    rewrite (parseInt_digits _ A).
    rewrite digits_val_uint_none by apply to_uint_not_nil.
    now rewrite uint_val_zero, DecimalPos.Unsigned.of_to.
Qed.

(** *** Numbers of posts *)

Lemma only_digits_all_chars (s : string) :
  only_digits s = all_chars is_digit s.
Proof. induction s as [|c t IH]; cbn; [reflexivity|now rewrite IH]. Qed.

Lemma match_post_number_here (digits : string) :
  all_digits digits = true ->
  match_post_number ("post-" ++ digits) = Some digits.
Proof.
  unfold all_digits. intro H. apply andb_prop in H. destruct H as [N O].
  rewrite only_digits_all_chars in O.
  change ("post-" ++ digits) with (String "p" ("ost-" ++ digits)).
  cbn [match_post_number].
  change (String "p" ("ost-" ++ digits)) with ("post-" ++ digits).
  rewrite strip_prefix_append, (span_whole _ _ O).
  now destruct digits.
Qed.

Lemma placeholder_id_number (env : Env) (k : nat) (post : Post)
    (digits : string) :
  id post = Some ("post-" ++ digits) ->
  all_digits digits = true ->
  extractPostId env k post = parseInt digits.
Proof.
  intros I A. unfold extractPostId, post_number_in. rewrite I.
  change (all_digits ("post-" ++ digits)) with false. cbn iota.
  assert (C : negb (is_empty ("post-" ++ digits))
              && contains "post-" ("post-" ++ digits) = true).
  { change ("post-" ++ digits) with (String "p" ("ost-" ++ digits)).
    cbn [is_empty negb andb contains].
    change (String "p" ("ost-" ++ digits)) with ("post-" ++ digits).
    unfold startsWith. now rewrite strip_prefix_append. }
  now rewrite C, (match_post_number_here digits A).
Qed.

Section ElementNumbers.
Variables (env : Env) (snapshot_index : nat) (url timestamp : string).

(** X11.  An element that has no id attribute is given the id
    [post-<index>] by the extractor, and the export reads its post id back
    from it: the post id is the position of the element on its page,
    whatever the snapshot, also after [cleanPost]. *)
Theorem idless_element_numbered_by_position (sel : string) (index : nat)
    (e : Extractor.Element) (run : Env) (k : nat) :
  truthy (Extractor.el_id e) = false ->
  extractPostId run k
    (Consolidator.cleanPost
       (Extractor.element_post env snapshot_index url timestamp sel index e))
  = Some (Z.of_nat index).
Proof.
  intro T.
  destruct (render_nat_digits index) as [A R].
  rewrite (placeholder_id_number run k _ (Z_to_string (Z.of_nat index)));
    [exact R| |exact A].
  cbn [Consolidator.cleanPost Extractor.element_post id].
  unfold or_else. unfold truthy in T.
  destruct (Extractor.el_id e) as [i|]; [|reflexivity].
  destruct (is_empty i); [reflexivity|discriminate T].
Qed.

End ElementNumbers.

Lemma idless_element_numbered_by_position_witness :
  extractPostId Examples.env_b 0
    (Consolidator.cleanPost
       (Extractor.element_post Examples.env_a 0 "u" "20230330175424"
          "article" 7 MoreExamples.bare_element))
  = Some 7%Z.
Proof.
  apply (idless_element_numbered_by_position Examples.env_a 0 "u"
           "20230330175424" "article" 7 MoreExamples.bare_element).
  reflexivity.
Defined.

(** *** Posts numbered by their timestamp *)

Lemma digit_val_inj (c1 c2 : ascii) (d : Z) :
  is_digit c1 = true -> is_digit c2 = true ->
  digit_val 10 c1 = Some d -> digit_val 10 c2 = Some d -> c1 = c2.
Proof.
  intros D1 D2 E1 E2.
  destruct (digit_facts c1 D1) as (_ & _ & _ & d1 & F1 & _ & V1).
  destruct (digit_facts c2 D2) as (_ & _ & _ & d2 & F2 & _ & V2).
  assert (d1 = d) by congruence. assert (d2 = d) by congruence.
  assert (C : code c1 = code c2) by (unfold code in *; lia).
  unfold code in C.
  rewrite <- (ascii_N_embedding c1), <- (ascii_N_embedding c2).
  now rewrite C.
Qed.

Lemma digits_val_inj (t1 : string) :
  forall t2 a1 a2,
    only_digits t1 = true -> only_digits t2 = true ->
    String.length t1 = String.length t2 ->
    digits_val 10 (Some a1) t1 = digits_val 10 (Some a2) t2 ->
    a1 = a2 /\ t1 = t2.
Proof.
  induction t1 as [|c1 t1 IH]; intros [|c2 t2] a1 a2 O1 O2 L H;
    try discriminate L.
  - cbn in H. injection H as ->. now split.
  - cbn [only_digits] in O1, O2.
    apply andb_prop in O1, O2. destruct O1 as [D1 O1], O2 as [D2 O2].
    destruct (digit_facts c1 D1) as (_ & _ & _ & d1 & E1 & R1 & _).
    destruct (digit_facts c2 D2) as (_ & _ & _ & d2 & E2 & R2 & _).
    cbn [digits_val] in H. rewrite E1, E2 in H.
    injection L as L.
    destruct (IH t2 _ _ O1 O2 L H) as [A ->].
    assert (a1 = a2 /\ d1 = d2) as [-> ->] by lia.
    split; [reflexivity|]. f_equal.
    now apply (digit_val_inj c1 c2 d2).
Qed.

Lemma parseInt_inj (t1 t2 : string) :
  all_digits t1 = true -> all_digits t2 = true ->
  String.length t1 = String.length t2 ->
  parseInt t1 = parseInt t2 -> t1 = t2.
Proof.
  intros A1 A2 L H.
  rewrite (parseInt_digits t1 A1), (parseInt_digits t2 A2) in H.
  unfold all_digits in A1, A2.
  destruct t1 as [|c1 t1], t2 as [|c2 t2]; try discriminate.
  cbn [is_empty negb andb only_digits] in A1, A2.
  apply andb_prop in A1, A2. destruct A1 as [D1 O1], A2 as [D2 O2].
  destruct (digit_facts c1 D1) as (_ & _ & _ & d1 & E1 & R1 & _).
  destruct (digit_facts c2 D2) as (_ & _ & _ & d2 & E2 & R2 & _).
  cbn [digits_val] in H. rewrite E1, E2 in H. injection L as L.
  destruct (digits_val_inj t1 t2 _ _ O1 O2 L H) as [-> ->].
  f_equal. now apply (digit_val_inj c1 c2 d2).
Qed.

Lemma numbered_by_timestamp_id (env : Env) (k : nat) (post : Post)
    (ts : string) :
  numbered_by_timestamp post ts ->
  extractPostId env k post = parseInt ts.
Proof.
  intros (A & I & C & T & D & _ & NZ).
  unfold extractPostId. rewrite A, I, C, T.
  assert (N : truthy (Some ts) = true)
    by (unfold all_digits in D; now destruct ts).
  rewrite N.
  assert (O : or_else (Some ts) EmptyString = ts)
    by (unfold all_digits in D; now destruct ts).
  rewrite O. unfold substring_from.
  change (drop (Z.to_nat (Z.max 0 (-8))) ts) with ts.
  destruct (parseInt_digits_some ts D) as (z & E & _).
  rewrite E in *. unfold num_or.
  destruct (Z.eqb_spec z 0) as [->|]; [congruence|reflexivity].
Qed.

(** X12.  A post with no number in its id or classes is numbered by
    its whole capture timestamp read as a number (the negative start of
    [substring] counts as zero, so not by its last eight digits); two such
    posts whose timestamps have the same length get the same post id only
    if the timestamps are equal. *)
Theorem timestamp_numbers_distinct (e1 e2 : Env) (k1 k2 : nat)
    (p q : Post) (tp tq : string) :
  numbered_by_timestamp p tp -> numbered_by_timestamp q tq ->
  String.length tp = String.length tq ->
  extractPostId e1 k1 p = parseInt tp
  /\ (extractPostId e1 k1 p = extractPostId e2 k2 q -> tp = tq).
Proof.
  intros P Q L.
  rewrite (numbered_by_timestamp_id e1 k1 p tp P).
  rewrite (numbered_by_timestamp_id e2 k2 q tq Q).
  split; [reflexivity|].
  destruct P as (_ & _ & _ & _ & Dp & _), Q as (_ & _ & _ & _ & Dq & _).
  now apply parseInt_inj.
Qed.

Lemma timestamp_numbers_distinct_witness :
  extractPostId Examples.env_a 0 MoreExamples.page_early
  = parseInt "20230330175424"
  /\ (extractPostId Examples.env_a 0 MoreExamples.page_early
      = extractPostId Examples.env_b 1 MoreExamples.page_late ->
      "20230330175424" = "20230601000000").
Proof.
  apply (timestamp_numbers_distinct Examples.env_a Examples.env_b 0 1
           MoreExamples.page_early MoreExamples.page_late);
    [| |reflexivity];
    (repeat split; try reflexivity; [simpl; lia|vm_compute; discriminate]).
Defined.

End NumberFacts.

(** ** Failure and dates of the export *)

Section ExportErrors.
Import Wxr Identity.
Context {P : Platform}.

Lemma formatWordPressDate_text (env : Env) (index : nat) (ts : string) :
  ts <> EmptyString ->
  formatWordPressDate env index (Some ts)
  = match date_toISOString (date_text ts) with
    | Some iso => Ok (replace_at_end is_millis "+00:00" iso)
    | None => Raise "Invalid time value"
    end.
Proof.
  intro N. unfold formatWordPressDate, truthy, or_else.
  destruct ts; [congruence|reflexivity].
Qed.

Lemma formatWordPressDate_cases (env : Env) (index : nat) (post : Post) :
  (bad_date post
   /\ formatWordPressDate env index (post_timestamp post)
      = Raise "Invalid time value")
  \/ (~ bad_date post
      /\ exists d, formatWordPressDate env index (post_timestamp post) = Ok d).
Proof.
  unfold bad_date.
  destruct (post_timestamp post) as [ts|] eqn:T.
  - destruct (String.eqb_spec ts EmptyString) as [->|N].
    + right. split; [|eexists; reflexivity].
      intros (x & X & N & _). congruence.
    + rewrite (formatWordPressDate_text env index ts N).
      destruct (date_toISOString (date_text ts)) as [iso|] eqn:D.
      * right. split; [|eexists; reflexivity].
        intros (x & X & _ & B). congruence.
      * left. split; [|reflexivity]. exists ts. now repeat split.
  - right. split; [|eexists; reflexivity].
    intros (x & X & _). discriminate.
Qed.

Lemma convert_posts_outcome (env : Env) (posts : list Post) :
  forall index st,
    (Exists bad_date posts
     /\ convert_posts env posts index st = Raise "Invalid time value")
    \/ (Forall (fun p => ~ bad_date p) posts
        /\ exists r, convert_posts env posts index st = Ok r).
Proof.
  induction posts as [|p rest IH]; intros index st.
  - right. split; [constructor|eexists; reflexivity].
  - cbn [convert_posts]. unfold convertPostToWxr.
    destruct (getAuthorLogin (author p) st) as [l st'].
    destruct (formatWordPressDate_cases env index p) as [[B ->]|[B [d ->]]].
    + left. split; [now left|reflexivity].
    + destruct (IH (S index) st') as [[E ->]|[F [[xml st''] ->]]].
      * left. split; [now right|reflexivity].
      * right. split; [now constructor|eexists; reflexivity].
Qed.

(** X13.  One post whose capture timestamp the platform cannot read as
    a date aborts the whole export with [Invalid time value] and no
    document; if there is no such post the export gives a document. *)
Theorem serialize_fails_on_bad_date (env : Env) (posts : list Post) :
  (Exists bad_date posts
   /\ serialize env posts = Raise "Invalid time value")
  \/ (Forall (fun p => ~ bad_date p) posts
      /\ exists doc, serialize env posts = Ok doc).
Proof.
  unfold serialize, createWxrFile.
  destruct (convert_posts_outcome env posts 0
              (resolve_all (map author posts) []))
    as [[E ->]|[F [[xml st] ->]]].
  - left. now split.
  - right. split; [exact F|eexists; reflexivity].
Qed.

(** *** The date of an item *)

Lemma is_millis_length (s : string) :
  is_millis s = true -> String.length s = 5%nat.
Proof.
  unfold is_millis.
  destruct (strip_prefix "." s) as [r|] eqn:E; [|discriminate].
  destruct (skip_n is_digit 3 r) as [r'|] eqn:F; [|discriminate].
  intro H. apply String.eqb_eq in H. subst r'.
  apply strip_prefix_length in E. apply skip_n_length in F.
  simpl in *. lia.
Qed.

Lemma replace_at_end_suffix (is_match : string -> bool) (n : nat)
    (rep x suffix : string) :
  (forall s, is_match s = true -> String.length s = n) ->
  is_match suffix = true ->
  replace_at_end is_match rep (x ++ suffix) = x ++ rep.
Proof.
  intros L M. induction x as [|c x IH].
  - cbn [append]. destruct suffix; cbn [replace_at_end]; now rewrite M.
  - cbn [append replace_at_end].
    destruct (is_match (String c (x ++ suffix))) eqn:E.
    + apply L in E. apply L in M. cbn [String.length] in E.
      rewrite append_length in E. lia.
    + now rewrite IH.
Qed.

(** X14.  The date of an item is the ISO text of the capture instant
    with the milliseconds replaced by [+00:00], and [wp:post_date] is that
    text without the offset; a timestamp of eight digits stands for noon
    of its day. *)
Theorem item_date_drops_millis_and_zone (env : Env) (index : nat)
    (ts x ms : string) :
  ts <> EmptyString ->
  String.length ms = 3%nat -> all_chars is_digit ms = true ->
  date_toISOString (date_text ts) = Some (x ++ "." ++ ms ++ "Z") ->
  formatWordPressDate env index (Some ts) = Ok (x ++ "+00:00")
  /\ replace_at_end is_utc_offset EmptyString (x ++ "+00:00") = x
  /\ (String.length ts = 8%nat ->
      date_text ts
      = substring 0 4 ts ++ "-" ++ substring 4 6 ts ++ "-"
          ++ substring 6 8 ts ++ "T12:00:00Z").
Proof.
  intros N L D E. split; [|split].
  - rewrite (formatWordPressDate_text env index ts N), E. f_equal.
    apply (replace_at_end_suffix is_millis 5); [apply is_millis_length|].
    unfold is_millis. rewrite (strip_prefix_append "." (ms ++ "Z")).
    rewrite <- L, (skip_n_append is_digit ms "Z" D). reflexivity.
  - rewrite (replace_at_end_suffix is_utc_offset 6 EmptyString x "+00:00");
      [apply append_nil_r| |reflexivity].
    intros s H. unfold is_utc_offset in H. apply andb_prop in H.
    destruct H as [_ H]. apply String.eqb_eq in H. now subst s.
  - intro L8.
    destruct ts as [|c1 [|c2 [|c3 [|c4 [|c5 [|c6 [|c7 [|c8 [|c9 t]]]]]]]]];
      try discriminate L8.
    reflexivity.
Qed.

End ExportErrors.

Lemma serialize_fails_on_bad_date_witness :
  Wxr.serialize (P := reference_platform) Examples.env_a
    [Examples.tom_post; MoreExamples2.year_only_post]
  = Raise "Invalid time value".
Proof.
  destruct (serialize_fails_on_bad_date (P := reference_platform)
              Examples.env_a
              [Examples.tom_post; MoreExamples2.year_only_post])
    as [[_ R]|[F _]]; [exact R|].
  exfalso. inversion F as [|p l _ F']. inversion F' as [|q l' B _].
  apply B. exists "2023". split; [reflexivity|]. split; [discriminate|].
  vm_compute. reflexivity.
Defined.

Lemma item_date_drops_millis_and_zone_witness :
  Wxr.formatWordPressDate (P := reference_platform) Examples.env_a 0
    (Some "20230330175424")
  = Ok "2023-03-30T17:54:24+00:00".
Proof.
  apply (item_date_drops_millis_and_zone (P := reference_platform)
           Examples.env_a 0 "20230330175424" "2023-03-30T17:54:24" "000");
    first [discriminate | reflexivity].
Defined.

(** ** Accounting and identifiers of the consolidation *)

Section ConsolidationFacts.
Import Consolidator Identity.
Context {P : Platform}.

Lemma group_add_sizes key post groups :
  group_sizes (group_add key post groups) = S (group_sizes groups).
Proof.
  unfold group_sizes.
  induction groups as [|[k g] rest IH]; simpl; [reflexivity|].
  destruct (String.eqb key k); simpl.
  - rewrite length_app. simpl. lia.
  - rewrite IH. lia.
Qed.

Lemma group_add_keys key post (groups : list (string * list Post)) :
  map fst (group_add key post groups)
  = if map_has key groups then map fst groups
    else (map fst groups ++ [key])%list.
Proof.
  induction groups as [|[k g] rest IH]; simpl; [reflexivity|].
  destruct (String.eqb_spec key k) as [->|N]; simpl; [reflexivity|].
  rewrite IH. now destruct (map_has key rest).
Qed.

Lemma group_add_NoDup key post (groups : list (string * list Post)) :
  NoDup (map fst groups) -> NoDup (map fst (group_add key post groups)).
Proof.
  intro H. rewrite group_add_keys.
  destruct (map_has key groups) eqn:E; [exact H|].
  apply NoDup_app; [exact H|repeat constructor; intros []|].
  intros x Hx [<-|[]]. apply map_has_In in Hx. congruence.
Qed.

Lemma group_add_perm key post (groups : list (string * list Post)) :
  Permutation (flat_map snd (group_add key post groups))
              (post :: flat_map snd groups).
Proof.
  induction groups as [|[k g] rest IH]; simpl; [reflexivity|].
  destruct (String.eqb key k); simpl.
  - rewrite <- app_assoc. simpl.
    symmetry. apply Permutation_middle.
  - rewrite IH. symmetry. apply (Permutation_middle g).
Qed.

Lemma group_posts_facts env allPosts :
  forall index groups,
    NoDup (map fst groups) ->
    let result := group_posts env index allPosts groups in
    NoDup (map fst result)
    /\ group_sizes result = (group_sizes groups + List.length allPosts)%nat
    /\ Permutation (flat_map snd result)
                   (flat_map snd groups ++ allPosts).
Proof.
  induction allPosts as [|p rest IH]; intros index groups N; cbn zeta.
  - cbn [group_posts]. rewrite app_nil_r, Nat.add_0_r. now repeat split.
  - cbn [group_posts].
    destruct (IH (S index)
                 (group_add (generatePostId (date_now env index) p) p groups)
                 (group_add_NoDup _ _ _ N)) as (A & B & C).
    repeat split; [exact A| |].
    + rewrite B, group_add_sizes. simpl. lia.
    + rewrite C, group_add_perm. simpl.
      rewrite <- Permutation_middle. reflexivity.
Qed.

Lemma group_add_key_in key post (groups : list (string * list Post)) k :
  In k (map fst (group_add key post groups))
  <-> In k (map fst groups) \/ k = key.
Proof.
  rewrite group_add_keys. destruct (map_has key groups) eqn:E.
  - split; [now left|]. intros [H|E']; [exact H|]. subst k.
    now apply map_has_In.
  - rewrite in_app_iff. simpl. intuition.
Qed.

Lemma group_posts_keys env allPosts :
  forall index groups k,
    In k (map fst (group_posts env index allPosts groups))
    <-> In k (map fst groups)
        \/ exists i p, nth_error allPosts i = Some p
                       /\ generatePostId (date_now env (index + i)) p = k.
Proof.
  induction allPosts as [|p rest IH]; intros index groups k.
  - cbn [group_posts]. split; [now left|].
    intros [H|(i & q & H & _)]; [exact H|]. now destruct i.
  - cbn [group_posts]. rewrite IH, group_add_key_in. split.
    + intros [[H|E]|(i & q & H & E)]; [| subst k |].
      * now left.
      * right. exists 0%nat, p. now rewrite Nat.add_0_r.
      * right. exists (S i), q. split; [exact H|].
        now rewrite <- Nat.add_succ_comm.
    + intros [H|(i & q & H & E)]; [now left; left|].
      destruct i as [|i].
      * injection H as <-. rewrite Nat.add_0_r in E. left; right. now symmetry.
      * right. exists i, q. split; [exact H|].
        now rewrite Nat.add_succ_comm.
Qed.

Lemma NoDup_map_Some {A} (l : list A) : NoDup l -> NoDup (map Some l).
Proof.
  induction 1 as [|x l N _ IH]; simpl; constructor; [|exact IH].
  intro H. apply in_map_iff in H. destruct H as (y & E & Hy).
  injection E as ->. contradiction.
Qed.

Lemma merge_groups_facts groups merged :
  merge_groups groups = Ok merged ->
  List.length merged = List.length groups
  /\ map uniqueId merged = map (fun g => Some (fst g)) groups.
Proof.
  revert merged. induction groups as [|[k g] rest IH]; intros merged H.
  - injection H as <-. now split.
  - cbn [merge_groups] in H.
    destruct (mergePosts g) as [[m after]|]; [|discriminate].
    destruct (merge_groups rest) as [l|]; [|discriminate].
    injection H as <-. destruct (IH l eq_refl) as [A B].
    split; simpl; [now rewrite A|now rewrite B].
Qed.

Lemma insert_newest_perm x l : Permutation (insert_newest x l) (x :: l).
Proof.
  induction l as [|y l IH]; simpl; [reflexivity|].
  destruct (locale_compare (sort_key y) (sort_key x)); try reflexivity.
  rewrite IH. apply perm_swap.
Qed.

Lemma sort_newest_perm l : Permutation (sort_newest l) l.
Proof.
  induction l as [|x l IH]; simpl; [reflexivity|].
  now rewrite insert_newest_perm, IH.
Qed.

Lemma duplicates_count (groups : list (string * list Post)) :
  inhabited_groups groups ->
  forall acc,
    (fold_left (fun n g => (n + (List.length (snd g) - 1))%nat) groups acc
     + List.length groups = acc + group_sizes groups)%nat.
Proof.
  unfold group_sizes.
  induction 1 as [|[k g] rest Hg Hrest IH]; intro acc; simpl; [lia|].
  rewrite <- Nat.add_succ_comm. 
  specialize (IH (acc + (List.length g - 1))%nat).
  simpl in Hg. destruct g; [congruence|]. simpl in *. lia.
Qed.

(** X15.  The consolidation always returns, and its statistics add up:
    the posts written plus the duplicates removed are the posts read
    from the contributing snapshots, the list written has as many posts
    as [uniquePosts] says, and the successful snapshots are counted
    among all of them. *)
Theorem consolidation_accounts_for_every_post (env : Env)
    (snapshots : list SnapshotResult) :
  exists r,
    consolidateAllPosts env snapshots = Ok r
    /\ (uniquePosts (statistics r) + duplicatesRemoved (statistics r)
        = totalPostsBeforeDedup (statistics r))%nat
    /\ List.length (posts r) = uniquePosts (statistics r)
    /\ totalPostsBeforeDedup (statistics r)
       = List.length (flat_map snapshot_posts (filter contributes snapshots))
    /\ totalSnapshots (statistics r) = List.length snapshots
    /\ (successfulSnapshots (statistics r) <= totalSnapshots (statistics r))%nat.
Proof.
  unfold consolidateAllPosts.
  set (all := map cleanPost
                  (flat_map snapshot_posts (filter contributes snapshots))).
  set (groups := group_posts env 0 all []).
  assert (I : inhabited_groups groups)
    by (apply group_posts_inhabited; constructor).
  destruct (merge_groups_ok groups I) as [merged M].
  rewrite M. eexists. split; [reflexivity|].
  destruct (merge_groups_facts groups merged M) as [L _].
  destruct (group_posts_facts env all 0 [] (NoDup_nil _)) as (_ & S & _).
  fold groups in S. cbn in S.
  pose proof (duplicates_count groups I 0) as D.
  pose proof (Permutation_length (sort_newest_perm merged)) as SL.
  cbn [statistics posts computeStats uniquePosts duplicatesRemoved
       totalPostsBeforeDedup totalSnapshots successfulSnapshots].
  repeat split.
  - lia.
  - subst all. now rewrite length_map.
  - apply filter_length_le.
Qed.

(** X16.  No two posts of the consolidated list carry the same
    [uniqueId], and the identifiers written are exactly the grouping
    keys computed for the cleaned input posts, each at its position. *)
Theorem unique_ids_are_distinct (env : Env)
    (snapshots : list SnapshotResult) :
  exists r,
    consolidateAllPosts env snapshots = Ok r
    /\ NoDup (map uniqueId (posts r))
    /\ forall v,
         In v (map uniqueId (posts r))
         <-> exists i p,
               nth_error
                 (map cleanPost
                    (flat_map snapshot_posts (filter contributes snapshots)))
                 i = Some p
               /\ v = Some (generatePostId (date_now env i) p).
Proof.
  unfold consolidateAllPosts.
  set (all := map cleanPost
                  (flat_map snapshot_posts (filter contributes snapshots))).
  set (groups := group_posts env 0 all []).
  assert (I : inhabited_groups groups)
    by (apply group_posts_inhabited; constructor).
  destruct (merge_groups_ok groups I) as [merged M].
  rewrite M. eexists. split; [reflexivity|]. cbn [posts].
  destruct (merge_groups_facts groups merged M) as [_ U].
  destruct (group_posts_facts env all 0 [] (NoDup_nil _)) as (N & _ & _).
  fold groups in N.
  assert (PU : Permutation (map uniqueId (sort_newest merged))
                           (map Some (map fst groups))).
  { rewrite map_map, <- U. apply Permutation_map, sort_newest_perm. }
  split.
  - eapply Permutation_NoDup; [symmetry; exact PU|].
    now apply NoDup_map_Some.
  - intro v. split.
    + intro H. apply (Permutation_in _ PU) in H.
      apply in_map_iff in H. destruct H as (k & <- & Hk).
      apply group_posts_keys in Hk. destruct Hk as [[]|(i & p & H & E)].
      exists i, p. split; [exact H|]. now rewrite <- E.
    + intros (i & p & H & ->).
      apply (Permutation_in _ (Permutation_sym PU)).
      apply in_map. apply group_posts_keys. right. now exists i, p.
Qed.

End ConsolidationFacts.

(** ** The date range of the statistics *)

Section DateRange.
Import Consolidator.

Lemma compare_no_gt_trans (a b c : string) :
  String.compare a b <> Gt -> String.compare b c <> Gt ->
  String.compare a c <> Gt.
Proof.
  revert b c. induction a as [|x a IH]; intros [|y b] [|z c]; simpl;
    try congruence.
  unfold Ascii.compare.
  destruct (N.compare_spec (N_of_ascii x) (N_of_ascii y)) as [E1|L1|G1];
    destruct (N.compare_spec (N_of_ascii y) (N_of_ascii z)) as [E2|L2|G2];
    try congruence; intros H1 H2.
  - rewrite E1, E2, N.compare_refl. now apply (IH b).
  - rewrite E1. apply N.compare_lt_iff in L2. now rewrite L2.
  - rewrite <- E2. apply N.compare_lt_iff in L1. now rewrite L1.
  - assert (L : (N_of_ascii x < N_of_ascii z)%N) by lia.
    apply N.compare_lt_iff in L. now rewrite L.
Qed.

Lemma ltb_false_iff (a b : string) :
  String.ltb a b = false <-> String.compare b a <> Gt.
Proof.
  unfold String.ltb. rewrite (String.compare_antisym b a).
  destruct (String.compare a b); simpl; split; congruence.
Qed.

Lemma ltb_irrefl (a : string) : String.ltb a a = false.
Proof.
  unfold String.ltb.
  assert (E : String.compare a a = Eq).
  { induction a as [|x a IH]; simpl; [reflexivity|].
    unfold Ascii.compare. now rewrite N.compare_refl. }
  now rewrite E.
Qed.

Lemma ltb_true_no_gt (a b : string) :
  String.ltb a b = true -> String.compare a b <> Gt.
Proof. unfold String.ltb. destruct (String.compare a b); congruence. Qed.

(** The two folds read only the truthy timestamps. *)
Lemma pick_earliest_fold (unique : list Post) :
  forall acc,
    fold_left pick_earliest unique acc
    = fold_left (fun acc t =>
                   if negb (truthy acc) || String.ltb t (or_else acc EmptyString)
                   then Some t else acc)
                (member_timestamps unique) acc.
Proof.
  unfold member_timestamps.
  induction unique as [|p rest IH]; intro acc; [reflexivity|].
  cbn [fold_left flat_map]. rewrite fold_left_app, IH. f_equal.
  unfold pick_earliest.
  destruct (post_timestamp p) as [t|]; [|reflexivity].
  change (truthy (Some t)) with (negb (is_empty t)).
  destruct (is_empty t) eqn:E; [reflexivity|].
  change (or_else (Some t) EmptyString)
    with (if is_empty t then EmptyString else t).
  rewrite E. reflexivity.
Qed.

Lemma pick_latest_fold (unique : list Post) :
  forall acc,
    fold_left pick_latest unique acc
    = fold_left (fun acc t =>
                   if negb (truthy acc) || String.ltb (or_else acc EmptyString) t
                   then Some t else acc)
                (member_timestamps unique) acc.
Proof.
  unfold member_timestamps.
  induction unique as [|p rest IH]; intro acc; [reflexivity|].
  cbn [fold_left flat_map]. rewrite fold_left_app, IH. f_equal.
  unfold pick_latest.
  destruct (post_timestamp p) as [t|]; [|reflexivity].
  change (truthy (Some t)) with (negb (is_empty t)).
  destruct (is_empty t) eqn:E; [reflexivity|].
  change (or_else (Some t) EmptyString)
    with (if is_empty t then EmptyString else t).
  rewrite E. reflexivity.
Qed.

Lemma member_timestamps_truthy (unique : list Post) :
  Forall (fun t => is_empty t = false) (member_timestamps unique).
Proof.
  unfold member_timestamps. induction unique as [|p rest IH]; simpl;
    [constructor|].
  apply Forall_app. split; [|exact IH].
  unfold truthy, or_else. destruct (post_timestamp p) as [t|]; [|constructor].
  destruct (is_empty t) eqn:E; simpl; repeat constructor. exact E.
Qed.

Lemma least_fold (ts : list string) :
  Forall (fun t => is_empty t = false) ts ->
  forall m, is_empty m = false ->
    exists e,
      fold_left (fun acc t =>
                   if negb (truthy acc) || String.ltb t (or_else acc EmptyString)
                   then Some t else acc) ts (Some m) = Some e
      /\ (e = m \/ In e ts)
      /\ String.compare e m <> Gt
      /\ forall t, In t ts -> String.compare e t <> Gt.
Proof.
  induction 1 as [|t ts Ht _ IH]; intros m Hm.
  - exists m. repeat split; [now left| |intros _ []].
    rewrite <- ltb_false_iff. apply ltb_irrefl.
  - cbn [fold_left]. unfold truthy at 2, or_else at 2. rewrite Hm.
    cbn [negb orb].
    destruct (String.ltb t m) eqn:L.
    + destruct (IH t Ht) as (e & E & I & B & A).
      exists e. split; [exact E|]. repeat split.
      * right. destruct I as [->|I]; [now left|now right].
      * apply (compare_no_gt_trans e t m); [exact B|].
        now apply ltb_true_no_gt.
      * intros u [<-|Hu]; [exact B|now apply A].
    + destruct (IH m Hm) as (e & E & I & B & A).
      exists e. split; [exact E|]. repeat split.
      * destruct I as [->|I]; [now left|now right; right].
      * exact B.
      * intros u [<-|Hu]; [|now apply A].
        apply (compare_no_gt_trans e m t); [exact B|].
        now apply ltb_false_iff.
Qed.

Lemma greatest_fold (ts : list string) :
  Forall (fun t => is_empty t = false) ts ->
  forall m, is_empty m = false ->
    exists l,
      fold_left (fun acc t =>
                   if negb (truthy acc) || String.ltb (or_else acc EmptyString) t
                   then Some t else acc) ts (Some m) = Some l
      /\ (l = m \/ In l ts)
      /\ String.compare m l <> Gt
      /\ forall t, In t ts -> String.compare t l <> Gt.
Proof.
  induction 1 as [|t ts Ht _ IH]; intros m Hm.
  - exists m. repeat split; [now left| |intros _ []].
    rewrite <- ltb_false_iff. apply ltb_irrefl.
  - cbn [fold_left]. unfold truthy at 2, or_else at 2. rewrite Hm.
    cbn [negb orb].
    destruct (String.ltb m t) eqn:L.
    + destruct (IH t Ht) as (e & E & I & B & A).
      exists e. split; [exact E|]. repeat split.
      * right. destruct I as [->|I]; [now left|now right].
      * apply (compare_no_gt_trans m t e); [|exact B].
        now apply ltb_true_no_gt.
      * intros u [<-|Hu]; [exact B|now apply A].
    + destruct (IH m Hm) as (e & E & I & B & A).
      exists e. split; [exact E|]. repeat split.
      * destruct I as [->|I]; [now left|now right; right].
      * exact B.
      * intros u [<-|Hu]; [|now apply A].
        apply (compare_no_gt_trans t m e); [|exact B].
        now apply ltb_false_iff.
Qed.

(** X17.  The date range of the statistics is the least and the greatest
    non-empty capture timestamp of the posts, in the order of the
    string comparison; both ends are absent exactly when no post has
    such a timestamp. *)
Theorem date_range_bounds (total successful before duplicates : nat)
    (unique : list Post) :
  match earliest (computeStats total successful before duplicates unique),
        latest (computeStats total successful before duplicates unique) with
  | Some e, Some l =>
      In e (member_timestamps unique) /\ In l (member_timestamps unique)
      /\ forall t, In t (member_timestamps unique) ->
                   String.ltb t e = false /\ String.ltb l t = false
  | None, None => member_timestamps unique = []
  | _, _ => False
  end.
Proof.
  cbn [earliest latest computeStats].
  rewrite pick_earliest_fold, pick_latest_fold.
  pose proof (member_timestamps_truthy unique) as T.
  destruct (member_timestamps unique) as [|m ts]; [reflexivity|].
  inversion T as [|? ? Hm Hts]; subst.
  cbn [fold_left truthy negb orb].
  destruct (least_fold ts Hts m Hm) as (e & -> & Ie & Be & Ae).
  destruct (greatest_fold ts Hts m Hm) as (l & -> & Il & Bl & Al).
  split; [destruct Ie as [->|Ie]; [now left|now right]|].
  split; [destruct Il as [->|Il]; [now left|now right]|].
  intros t [<-|Ht]; split; apply ltb_false_iff; auto.
Qed.

End DateRange.

(** ** The capture kept for a key *)

Section LargestKept.
Import Consolidator Identity.
Context {P : Platform}.

Lemma members_group_add key post groups k q :
  In q (members k (group_add key post groups))
  <-> In q (members k groups) \/ (key = k /\ q = post).
Proof.
  unfold members.
  induction groups as [|[k0 g0] rest IH]; cbn [group_add flat_map fst snd].
  - rewrite app_nil_r. destruct (String.eqb_spec key k) as [E|N]; simpl.
    + intuition.
    + intuition.
  - destruct (String.eqb_spec key k0) as [E|N]; cbn [flat_map fst snd].
    + subst k0. rewrite !in_app_iff.
      destruct (String.eqb_spec key k) as [E|N].
      * rewrite in_app_iff. simpl. intuition.
      * intuition.
    + rewrite !in_app_iff, IH. intuition.
Qed.

Lemma members_group_posts env allPosts :
  forall index groups k q,
    In q (members k (group_posts env index allPosts groups))
    <-> In q (members k groups)
        \/ exists i, nth_error allPosts i = Some q
                     /\ generatePostId (date_now env (index + i)) q = k.
Proof.
  induction allPosts as [|p rest IH]; intros index groups k q.
  - cbn [group_posts]. split; [now left|].
    intros [H|(i & H & _)]; [exact H|]. now destruct i.
  - cbn [group_posts]. rewrite IH, members_group_add. split.
    + intros [[H|[E1 E2]]|(i & H & E)].
      * now left.
      * subst q. right. exists 0%nat. now rewrite Nat.add_0_r.
      * right. exists (S i). split; [exact H|].
        now rewrite <- Nat.add_succ_comm.
    + intros [H|(i & H & E)]; [now left; left|].
      destruct i as [|i].
      * injection H as <-. rewrite Nat.add_0_r in E. now left; right.
      * right. exists i. split; [exact H|].
        now rewrite Nat.add_succ_comm.
Qed.

Lemma members_absent k (groups : list (string * list Post)) :
  ~ In k (map fst groups) -> members k groups = [].
Proof.
  unfold members. induction groups as [|[k0 g0] rest IH]; simpl; intro H;
    [reflexivity|].
  destruct (String.eqb_spec k0 k) as [E|N]; [tauto|].
  apply IH. tauto.
Qed.

Lemma members_of_group k g (groups : list (string * list Post)) :
  NoDup (map fst groups) -> In (k, g) groups -> members k groups = g.
Proof.
  induction groups as [|[k0 g0] rest IH]; [intros _ []|].
  simpl; intros N [E|H]; inversion N as [|? ? N1 N2]; subst.
  - injection E as -> ->. unfold members. simpl. rewrite String.eqb_refl.
    fold (members k rest).
    rewrite members_absent by assumption. apply app_nil_r.
  - unfold members. simpl.
    destruct (String.eqb_spec k0 k) as [E|_].
    + subst k0. exfalso. apply N1. now apply (in_map fst _ (k, g)).
    + now apply IH.
Qed.

Lemma mergePosts_best group merged after :
  mergePosts group = Ok (merged, after) ->
  exists best,
    In best group /\ kept_fields best merged
    /\ uniqueId merged = uniqueId best
    /\ forall q, In q group -> (content_size q <= content_size best)%nat.
Proof.
  destruct group as [|a [|b rest]]; intro M.
  - discriminate.
  - injection M as <- _. exists a. split; [now left|].
    split; [now repeat split|]. split; [reflexivity|].
    intros q [<-|[]]. lia.
  - destruct (mergePosts_unfold (a :: b :: rest)) as (best & others & E & M');
      [simpl; lia|].
    rewrite M' in M. cbv zeta in M. injection M as <- _.
    destruct (sort_desc_head (a :: b :: rest))
      as (b' & o & l1 & l2 & E' & G & H1 & H2); [discriminate|].
    rewrite E in E'. injection E' as <- <-.
    exists best. split; [rewrite G; apply in_elt|].
    split; [now repeat split|]. split; [reflexivity|].
    intros q Hq. rewrite G in Hq. apply in_app_or in Hq.
    destruct Hq as [Hq|[<-|Hq]]; [apply H1 in Hq; lia|lia|now apply H2].
Qed.

Lemma merge_groups_members groups merged :
  merge_groups groups = Ok merged ->
  forall p, In p merged ->
    exists k g m after,
      In (k, g) groups /\ mergePosts g = Ok (m, after)
      /\ p = set_uniqueId (Some k) m.
Proof.
  revert merged. induction groups as [|[k g] rest IH]; intros merged H p Hp.
  - injection H as <-. destruct Hp.
  - cbn [merge_groups] in H.
    destruct (mergePosts g) as [[m after]|] eqn:M; [|discriminate].
    destruct (merge_groups rest) as [l|]; [|discriminate].
    injection H as <-. destruct Hp as [<-|Hp].
    + exists k, g, m, after. split; [now left|]. now split.
    + destruct (IH l eq_refl p Hp) as (k' & g' & m' & a' & I & M' & E).
      exists k', g', m', a'. split; [now right|]. now split.
Qed.

(** X18.  Every post of the consolidated list is one of the cleaned input
    posts as to identifier, title, text, date, author, link and markup;
    it carries the grouping key of that post, and no input post with
    the same key has more content and markup than it. *)
Theorem largest_capture_is_kept (env : Env)
    (snapshots : list SnapshotResult) :
  exists r,
    consolidateAllPosts env snapshots = Ok r
    /\ forall p, In p (posts r) ->
         exists i q,
           nth_error
             (map cleanPost
                (flat_map snapshot_posts (filter contributes snapshots)))
             i = Some q
           /\ uniqueId p = Some (generatePostId (date_now env i) q)
           /\ kept_fields q p
           /\ forall j q',
                nth_error
                  (map cleanPost
                     (flat_map snapshot_posts (filter contributes snapshots)))
                  j = Some q' ->
                generatePostId (date_now env j) q'
                = generatePostId (date_now env i) q ->
                (content_size q' <= content_size q)%nat.
Proof.
  unfold consolidateAllPosts.
  set (all := map cleanPost
                  (flat_map snapshot_posts (filter contributes snapshots))).
  set (groups := group_posts env 0 all []).
  assert (I : inhabited_groups groups)
    by (apply group_posts_inhabited; constructor).
  destruct (merge_groups_ok groups I) as [merged M].
  rewrite M. eexists. split; [reflexivity|]. cbn [posts].
  intros p Hp.
  apply (Permutation_in _ (sort_newest_perm merged)) in Hp.
  destruct (merge_groups_members groups merged M p Hp)
    as (k & g & m & after & Hg & Mg & ->).
  destruct (mergePosts_best g m after Mg) as (best & Hb & K & _ & Big).
  destruct (group_posts_facts env all 0 [] (NoDup_nil _)) as (N & _ & _).
  fold groups in N.
  pose proof (members_of_group k g groups N Hg) as Eg.
  assert (Mem : forall q, In q g <->
                  exists i, nth_error all i = Some q
                            /\ generatePostId (date_now env i) q = k).
  { intro q. rewrite <- Eg. unfold groups.
    rewrite members_group_posts. cbn. intuition. }
  destruct (proj1 (Mem best) Hb) as (i & Hi & Ki).
  exists i, best. split; [exact Hi|].
  split; [cbn; now rewrite Ki|].
  split; [exact K|].
  intros j q' Hj Kj. apply Big. apply Mem. exists j. split; [exact Hj|].
  now rewrite Kj.
Qed.

End LargestKept.

(** ** Fetching a snapshot *)

Section FetchFacts.
Import Fetch Extractor Consolidator.
Variable env : Env.
Variable net : Network.
Variables timestamp originalUrl : string.

Lemma each_element_stamped idx url ts sel elements :
  forall index,
    Forall (stamped url ts) (each_element env idx url ts sel index elements).
Proof.
  induction elements as [|[e|msg] rest IH]; intro index; cbn [each_element].
  - constructor.
  - constructor; [|apply IH]. eexists. cbn. repeat split.
  - apply IH.
Qed.

Lemma try_selectors_stamped idx url ts doc selectors :
  forall found,
    try_selectors env idx url ts doc selectors = Some found ->
    Forall (stamped url ts) found.
Proof.
  induction selectors as [|sel rest IH]; intro found;
    [discriminate|].
  change (try_selectors env idx url ts doc (sel :: rest))
    with (match query doc sel with
          | Ok (e :: es) =>
              Some (each_element env idx url ts sel 0 (e :: es))
          | Ok [] => try_selectors env idx url ts doc rest
          | Raise _ => try_selectors env idx url ts doc rest
          end).
  destruct (query doc sel) as [[|e es]|msg]; try apply IH.
  intro H. injection H as <-.
  apply (each_element_stamped idx url ts sel (e :: es) 0).
Qed.

Lemma extract_stamped idx url ts doc found :
  extractWordPressPosts env idx url ts doc = Ok found ->
  Forall (stamped url ts) found.
Proof.
  unfold extractWordPressPosts, try_catch.
  assert (S : forall msg, Forall (stamped url ts)
                                 [error_post env idx url ts msg]).
  { intro msg. constructor; [|constructor]. eexists. cbn. repeat split. }
  destruct (is_function doc); cbn [negb];
    [|intro H; injection H as <-; apply S].
  destruct (probe_html doc); [|intro H; injection H as <-; apply S].
  destruct (try_selectors env idx url ts doc postSelectors) as [l|] eqn:T.
  - intro H. injection H as <-. eapply try_selectors_stamped, T.
  - unfold extractPageContent.
    destruct (main_block doc) as [[b|]|msg]; intro H; injection H as <-;
      repeat constructor.
    eexists. cbn. repeat split.
Qed.

Lemma attempt_ok k r :
  attempt env net timestamp originalUrl k = Ok r ->
  s_timestamp r = timestamp /\ s_originalUrl r = originalUrl
  /\ s_waybackUrl r = buildWaybackUrl timestamp originalUrl
  /\ s_success r = true /\ s_error r = None
  /\ (0 < s_responseSize r)%Z
  /\ exists found,
       s_posts r = Some found
       /\ Forall (stamped (buildWaybackUrl timestamp originalUrl) timestamp)
                 found.
Proof.
  unfold attempt.
  destruct (get net k _) as [response|]; [|discriminate].
  destruct (data response) as [| |html]; try discriminate.
  destruct html as [|c html]; [discriminate|]. cbn [is_empty].
  destruct (load net _) as [doc|]; [|discriminate].
  destruct (is_function doc); [|discriminate]. cbn [negb].
  destruct (extractWordPressPosts _ _ _ _ _) as [found|] eqn:E; [|discriminate].
  intro H. injection H as <-. cbn.
  repeat split; try lia.
  exists found. split; [reflexivity|]. eapply extract_stamped, E.
Qed.

Lemma retry_outcome remaining :
  forall retryCount,
    (exists k,
        retryCount <= k <= retryCount + remaining
        /\ attempt env net timestamp originalUrl k
           = Ok (retry env net timestamp originalUrl remaining retryCount)
        /\ forall j, retryCount <= j < k ->
             exists msg, attempt env net timestamp originalUrl j = Raise msg)
    \/ (exists msg,
          attempt env net timestamp originalUrl (retryCount + remaining)
          = Raise msg
          /\ retry env net timestamp originalUrl remaining retryCount
             = failed timestamp originalUrl msg
          /\ forall j, retryCount <= j <= retryCount + remaining ->
               exists msg', attempt env net timestamp originalUrl j
                            = Raise msg').
Proof.
  induction remaining as [|n IH]; intro retryCount; cbn [retry].
  - destruct (attempt env net timestamp originalUrl retryCount)
      as [r|msg] eqn:A.
    + left. exists retryCount. split; [lia|]. split; [exact A|].
      intros j Hj. lia.
    + right. exists msg. rewrite Nat.add_0_r. split; [exact A|].
      split; [reflexivity|]. intros j Hj.
      assert (j = retryCount) as -> by lia. eauto.
  - destruct (attempt env net timestamp originalUrl retryCount)
      as [r|msg] eqn:A.
    + left. exists retryCount. split; [lia|]. split; [exact A|].
      intros j Hj. lia.
    + destruct (IH (S retryCount)) as [(k & R & Ak & B)|(m & Am & F & B)].
      * left. exists k. split; [lia|]. split; [exact Ak|].
        intros j Hj. destruct (Nat.eq_dec j retryCount) as [->|N]; [eauto|].
        apply B. lia.
      * right. exists m. rewrite <- Nat.add_succ_comm.
        split; [exact Am|]. split; [exact F|].
        intros j Hj. destruct (Nat.eq_dec j retryCount) as [->|N]; [eauto|].
        apply B. lia.
Qed.

(** X19.  A call of [fetchSnapshot] makes at most four attempts, one
    after the other: it returns the record of the first that succeeds,
    and when all four fail it returns the failure record, with the
    message of the last. *)
Theorem fetchSnapshot_retries_then_gives_up :
  (exists k,
      k <= MAX_RETRIES
      /\ attempt env net timestamp originalUrl k
         = Ok (fetchSnapshot env net timestamp originalUrl 0)
      /\ forall j, j < k ->
           exists msg, attempt env net timestamp originalUrl j = Raise msg)
  \/ (exists msg,
        attempt env net timestamp originalUrl MAX_RETRIES = Raise msg
        /\ fetchSnapshot env net timestamp originalUrl 0
           = failed timestamp originalUrl msg
        /\ forall j, j <= MAX_RETRIES ->
             exists msg', attempt env net timestamp originalUrl j
                          = Raise msg').
Proof.
  unfold fetchSnapshot. rewrite Nat.sub_0_r.
  destruct (retry_outcome MAX_RETRIES 0) as [(k & R & A & B)|(m & A & F & B)].
  - left. exists k. split; [lia|]. split; [exact A|].
    intros j Hj. apply B. lia.
  - right. exists m. split; [exact A|]. split; [exact F|].
    intros j Hj. apply B. lia.
Qed.

(** X20.  Whatever happens, the record names the capture asked for; it
    has an error message exactly when it is no success; a failure has an
    empty post list and size zero, and the consolidation passes it over;
    every post of the record carries the address and the timestamp of
    the record. *)
Theorem snapshot_record_names_its_capture (retryCount : nat) :
  s_timestamp (fetchSnapshot env net timestamp originalUrl retryCount)
  = timestamp
  /\ s_originalUrl (fetchSnapshot env net timestamp originalUrl retryCount)
     = originalUrl
  /\ s_waybackUrl (fetchSnapshot env net timestamp originalUrl retryCount)
     = buildWaybackUrl timestamp originalUrl
  /\ (s_success (fetchSnapshot env net timestamp originalUrl retryCount)
      = true
      <-> s_error (fetchSnapshot env net timestamp originalUrl retryCount)
          = None)
  /\ (s_success (fetchSnapshot env net timestamp originalUrl retryCount)
      = false ->
      s_posts (fetchSnapshot env net timestamp originalUrl retryCount)
      = Some []
      /\ s_responseSize
           (fetchSnapshot env net timestamp originalUrl retryCount) = 0%Z
      /\ contributes
           (fetchSnapshot env net timestamp originalUrl retryCount) = false)
  /\ Forall (stamped (buildWaybackUrl timestamp originalUrl) timestamp)
            (snapshot_posts
               (fetchSnapshot env net timestamp originalUrl retryCount)).
Proof.
  unfold fetchSnapshot.
  destruct (retry_outcome (MAX_RETRIES - retryCount) retryCount)
    as [(k & _ & A & _)|(m & _ & -> & _)].
  - destruct (attempt_ok _ _ A) as (E1 & E2 & E3 & E4 & E5 & _ & found & E6 & S).
    rewrite E1, E2, E3, E4, E5. unfold snapshot_posts. rewrite E6.
    repeat split; try congruence; try exact S.
  - cbn. repeat split; try congruence. constructor.
Qed.

End FetchFacts.

(** ** The order of the consolidated list *)

Section SortFacts.
Import Consolidator.
Context {P : Platform}.
Hypothesis ordered : consistent_order locale_compare.

Lemma insert_newest_sorted x l :
  StronglySorted not_older l -> StronglySorted not_older (insert_newest x l).
Proof.
  destruct ordered as [anti trans].
  induction 1 as [|y l S IH F]; cbn [insert_newest].
  - repeat constructor.
  - destruct (locale_compare (sort_key y) (sort_key x)) eqn:C.
    + constructor; [now constructor|].
      constructor; [unfold not_older; congruence|].
      eapply Forall_impl; [|exact F]. unfold not_older. intros z Hz.
      apply (trans _ (sort_key y)); [exact Hz|congruence].
    + constructor; [now constructor|].
      constructor; [unfold not_older; congruence|].
      eapply Forall_impl; [|exact F]. unfold not_older. intros z Hz.
      apply (trans _ (sort_key y)); [exact Hz|congruence].
    + constructor; [exact IH|].
      assert (Fx : Forall (not_older y) (x :: l)).
      { constructor; [|exact F]. unfold not_older.
        rewrite anti, C. discriminate. }
      eapply Permutation_Forall; [|exact Fx].
      symmetry. apply insert_newest_perm.
Qed.

Lemma sort_newest_sorted l : StronglySorted not_older (sort_newest l).
Proof.
  induction l as [|x l IH]; cbn; [constructor|].
  now apply insert_newest_sorted.
Qed.

End SortFacts.

Section SortedOutput.
Import Consolidator.
Context {P : Platform}.

(** X21.  Where the platform's string comparison is an order, the
    consolidated list comes out newest first: no post is followed by
    one whose capture timestamp sorts after its own. *)
Theorem consolidated_newest_first (env : Env)
    (snapshots : list SnapshotResult) :
  consistent_order locale_compare ->
  exists r,
    consolidateAllPosts env snapshots = Ok r
    /\ StronglySorted not_older (posts r).
Proof.
  intro ordered. unfold consolidateAllPosts.
  set (all := map cleanPost
                  (flat_map snapshot_posts (filter contributes snapshots))).
  set (groups := group_posts env 0 all []).
  assert (I : inhabited_groups groups)
    by (apply group_posts_inhabited; constructor).
  destruct (merge_groups_ok groups I) as [merged M].
  rewrite M. eexists. split; [reflexivity|]. cbn [posts].
  now apply sort_newest_sorted.
Qed.

End SortedOutput.

Lemma consolidated_newest_first_witness :
  exists r,
    Consolidator.consolidateAllPosts (P := reference_platform)
      Examples.env_a MoreExamples3.two_snapshots = Ok r
    /\ map id (Consolidator.posts r) = [Some "post-12"; Some "post-1"].
Proof.
  destruct (consolidated_newest_first (P := reference_platform)
              Examples.env_a MoreExamples3.two_snapshots) as (r & E & _).
  - split.
    + intros a b. apply String.compare_antisym.
    + intros a b c. apply compare_no_gt_trans.
  - exists r. split; [exact E|].
    vm_compute in E. injection E as <-. reflexivity.
Defined.

(** ** The terms declared in the channel header *)

(** The place of a text in a list of texts, found by looking. *)
Ltac find_in :=
  lazymatch goal with
  | |- In ?x (?y :: _) =>
      first [constr_eq x y; left; exact eq_refl | right; find_in]
  end.

Section HeaderFacts.
Import Wxr.
Context {P : Platform}.

Lemma occurs_in_concat (e : string) (l : list string) :
  In e l -> occurs_in e (String.concat EmptyString l).
Proof.
  induction l as [|x t IH]; [intros []|].
  intros [->|H].
  - destruct t as [|y t'].
    + exists EmptyString, EmptyString. cbn. now rewrite append_nil_r.
    + exists EmptyString. eexists. cbn. reflexivity.
  - destruct (IH H) as (a & b & E).
    destruct t as [|y t']; [destruct H|].
    exists (x ++ a), b.
    change (String.concat EmptyString (x :: y :: t'))
      with (x ++ EmptyString ++ String.concat EmptyString (y :: t')).
    rewrite E. cbn [append]. now rewrite append_assoc.
Qed.

Lemma occurs_in_trans (a b c : string) :
  occurs_in a b -> occurs_in b c -> occurs_in a c.
Proof.
  intros (p & q & ->) (r & s & ->).
  exists (r ++ p), (q ++ s). now rewrite !append_assoc.
Qed.

Lemma mapi_from_In {A B : Type} (f : A -> nat -> B) (l : list A) :
  forall start i x,
    nth_error l i = Some x -> In (f x (start + i)%nat) (mapi_from f start l).
Proof.
  induction l as [|y t IH]; intros start [|i] x H; try discriminate.
  - injection H as ->. rewrite Nat.add_0_r. now left.
  - right. replace (start + S i)%nat with (S start + i)%nat by lia.
    now apply IH.
Qed.

Lemma collect_In (field : Post -> option (list string)) (posts : list Post)
    (c : string) :
  In c (collect field posts)
  <-> exists p l, In p posts /\ field p = Some l /\ In c l.
Proof.
  rewrite collect_union. unfold Stated.union_of.
  rewrite first_seen_In, in_flat_map. unfold Stated.terms.
  split.
  - intros (p & Hp & H). destruct (field p) as [l|] eqn:E; [|destruct H].
    now exists p, l.
  - intros (p & l & Hp & E & H). exists p. rewrite E. now split.
Qed.

Lemma collect_NoDup (field : Post -> option (list string))
    (posts : list Post) : NoDup (collect field posts).
Proof. rewrite collect_union. apply first_seen_NoDup. Qed.

(** X22.  In a document that [createWxrFile] returns, every category and
    every tag that a post names is declared in the channel header, under
    the number of its place among the distinct names met so far; no name
    is declared twice. *)
Theorem every_term_is_declared (env : Env) (posts : list Post)
    (st st' : Identity.CreatedUsers) (doc : string) :
  createWxrFile env posts st = Ok (doc, st') ->
  NoDup (collect categories posts) /\ NoDup (collect tags posts)
  /\ forall p, In p posts ->
       (forall l c, categories p = Some l -> In c l ->
          exists i,
            nth_error (collect categories posts) i = Some c
            /\ occurs_in
                 (categoryDef (List.length (collect categories posts)) c i)
                 doc)
       /\ (forall l t, tags p = Some l -> In t l ->
             exists i,
               nth_error (collect tags posts) i = Some t
               /\ occurs_in
                    (tagDef (List.length (collect categories posts)) t i)
                    doc).
Proof.
  unfold createWxrFile.
  destruct (convert_posts env posts 0 st) as [[postsXml st'']|];
    [|discriminate].
  cbv zeta. intro H.
  apply (f_equal (fun r => match r with
                           | Ok (d, _) => d
                           | Raise _ => EmptyString
                           end)) in H.
  cbv beta iota in H. rewrite <- H. clear H.
  split; [apply collect_NoDup|]. split; [apply collect_NoDup|].
  intros p Hp. split.
  - intros l c E Hc.
    assert (I : In c (collect categories posts))
      by (apply collect_In; now exists p, l).
    apply In_nth_error in I. destruct I as [i Hi].
    exists i. split; [exact Hi|].
    eapply occurs_in_trans.
    + apply occurs_in_concat.
      apply (mapi_from_In
               (categoryDef (List.length (collect categories posts)))
               _ 0 i c Hi).
    + apply occurs_in_concat.
      find_in.
  - intros l t E Ht.
    assert (I : In t (collect tags posts))
      by (apply collect_In; now exists p, l).
    apply In_nth_error in I. destruct I as [i Hi].
    exists i. split; [exact Hi|].
    eapply occurs_in_trans.
    + apply occurs_in_concat.
      apply (mapi_from_In
               (tagDef (List.length (collect categories posts)))
               _ 0 i t Hi).
    + apply occurs_in_concat.
      find_in.
Qed.

End HeaderFacts.

Lemma every_term_is_declared_witness :
  exists doc st' i,
    Wxr.createWxrFile (P := reference_platform) Examples.env_a
      Examples.duplicate_group [] = Ok (doc, st')
    /\ nth_error (collect categories Examples.duplicate_group) i = Some "b"
    /\ occurs_in (Wxr.categoryDef 2 "b" i) doc.
Proof.
  assert (E : exists doc st',
             Wxr.createWxrFile (P := reference_platform) Examples.env_a
               Examples.duplicate_group [] = Ok (doc, st')).
  { destruct (Wxr.createWxrFile (P := reference_platform) Examples.env_a
               Examples.duplicate_group []) as [[doc st']|msg] eqn:E.
    - now exists doc, st'.
    - vm_compute in E. discriminate. }
  destruct E as (doc & st' & E).
  destruct (every_term_is_declared (P := reference_platform) Examples.env_a
              Examples.duplicate_group [] st' doc E) as (_ & _ & H).
  destruct (H Examples.long_capture (or_intror (or_introl eq_refl)))
    as [Hc _].
  destruct (Hc ["b"] "b" eq_refl (or_introl eq_refl)) as (i & Hi & O).
  exists doc, st', i. split; [exact E|]. split; [exact Hi|exact O].
Defined.

(** ** What the consolidation keeps of every input post *)

Section NothingLost.
Import Consolidator Identity.
Context {P : Platform}.

Lemma members_In k q (groups : list (string * list Post)) :
  In q (members k groups) -> exists g, In (k, g) groups /\ In q g.
Proof.
  unfold members. rewrite in_flat_map. intros ([k0 g] & Hg & H).
  cbn [fst snd] in H.
  destruct (String.eqb_spec k0 k) as [->|_]; [|destruct H].
  now exists g.
Qed.

Lemma merge_groups_covers groups merged :
  merge_groups groups = Ok merged ->
  forall k g, In (k, g) groups ->
    exists m after,
      mergePosts g = Ok (m, after)
      /\ In (set_uniqueId (Some k) m) merged.
Proof.
  revert merged. induction groups as [|[k0 g0] rest IH]; intros merged H k g Hg.
  - destruct Hg.
  - cbn [merge_groups] in H.
    destruct (mergePosts g0) as [[m after]|] eqn:M; [|discriminate].
    destruct (merge_groups rest) as [l|]; [|discriminate].
    injection H as <-. destruct Hg as [E|Hg].
    + injection E as <- <-. exists m, after. split; [exact M|now left].
    + destruct (IH l eq_refl k g Hg) as (m' & a' & M' & I).
      exists m', a'. split; [exact M'|now right].
Qed.

Lemma mergePosts_keeps_terms group merged after q :
  mergePosts group = Ok (merged, after) -> In q group ->
  keeps_terms categories q merged /\ keeps_terms tags q merged.
Proof.
  destruct group as [|a [|b rest]]; intros M Hq.
  - destruct Hq.
  - injection M as <- _. destruct Hq as [<-|[]].
    split; intros l c E Hc; now exists l.
  - destruct (mergePosts_unfold (a :: b :: rest)) as (best & others & E & M');
      [simpl; lia|].
    rewrite M' in M. cbv zeta in M. injection M as <- _.
    assert (Hq' : In q (best :: others)).
    { rewrite <- E.
      apply (Permutation_in _ (Permutation_sym (sort_desc_perm _)) Hq). }
    split; intros l c El Hc; eexists; (split; [reflexivity|]);
      apply collect_In; now exists q, l.
Qed.

(** X23.  Deduplication drops no post and no term: every cleaned input
    post is answered by a post of the consolidated list that carries its
    grouping key and has every category and every tag the input post
    had. *)
Theorem no_term_is_lost (env : Env) (snapshots : list SnapshotResult) :
  exists r,
    consolidateAllPosts env snapshots = Ok r
    /\ forall i q,
         nth_error
           (map cleanPost
              (flat_map snapshot_posts (filter contributes snapshots)))
           i = Some q ->
         exists p,
           In p (posts r)
           /\ uniqueId p = Some (generatePostId (date_now env i) q)
           /\ keeps_terms categories q p /\ keeps_terms tags q p.
Proof.
  unfold consolidateAllPosts.
  set (all := map cleanPost
                  (flat_map snapshot_posts (filter contributes snapshots))).
  set (groups := group_posts env 0 all []).
  assert (I : inhabited_groups groups)
    by (apply group_posts_inhabited; constructor).
  destruct (merge_groups_ok groups I) as [merged M].
  rewrite M. eexists. split; [reflexivity|]. cbn [posts].
  intros i q Hi.
  assert (Hm : In q (members (generatePostId (date_now env i) q) groups)).
  { unfold groups. apply members_group_posts. right. now exists i. }
  apply members_In in Hm. destruct Hm as (g & Hg & Hq).
  destruct (merge_groups_covers groups merged M _ g Hg) as (m & after & Mg & Im).
  destruct (mergePosts_keeps_terms g m after q Mg Hq) as [Kc Kt].
  exists (set_uniqueId (Some (generatePostId (date_now env i) q)) m).
  split; [|split; [reflexivity|split; [exact Kc|exact Kt]]].
  eapply Permutation_in; [symmetry; apply sort_newest_perm|exact Im].
Qed.

End NothingLost.
